(** * Windows x86-32 SEH helper of miasm2 (os_dep/win_api_x86_32_seh.py)

  A shallow embedding of the structure builder, the CPU context
  marshaller, the SEH dispatcher and the SEH chain walker, together with
  the properties stated about them.

  Conventions.
  - Emulated memory is a finite map from addresses to bytes; an address
    that is not in the map is unmapped.
  - Python integers are [Z]; the 32-bit (and 16-bit) wrap-around of the
    register file is written out where a register is assigned.
  - [struct.pack('I', x)] is modelled on a little-endian host (the only
    hosts on which it agrees with the explicitly little-endian
    ["<I"] fields of the memory structures).
  - A Python function that can raise is a computation in the monad [M]:
    it takes the jitter state and gives back either a value or the
    exception raised, together with the state reached at that point. *)

From Stdlib Require Import ZArith List Lia Bool.
From Stdlib Require Import Strings.Byte Strings.Ascii.
From stdpp Require Import gmap strings list fin_maps.

Local Open Scope Z_scope.

(* ===================================================================== *)
(** ** Bytes and 32-bit packing (miasm2.core.utils.pck32 / upck32)       *)
(* ===================================================================== *)

Module Pack.

Definition byte_of_Z (z : Z) : byte :=
  match Byte.of_N (Z.to_N (z mod 256)) with
  | Some b => b
  | None => "000"%byte
  end.

Definition Z_of_byte (b : byte) : Z := Z.of_N (Byte.to_N b).

(** The four little-endian bytes of the low 32 bits of [x]. *)
Definition le32 (x : Z) : list byte :=
  [byte_of_Z x; byte_of_Z (x / 256); byte_of_Z (x / 65536);
   byte_of_Z (x / 16777216)].

Definition in_u32 (x : Z) : bool := (0 <=? x) && (x <? 4294967296).

(** [pck32 = lambda x: struct.pack('I', x)]; [None] is [struct.error]
    (argument out of range for the unsigned 32-bit format). *)
Definition pck32 (x : Z) : option (list byte) :=
  if in_u32 x then Some (le32 x) else None.

(** [upck32 = lambda x: struct.unpack('I', x)[0]]; [None] is
    [struct.error] (the string is not 4 bytes long). *)
Definition upck32 (bs : list byte) : option Z :=
  match bs with
  | [b0; b1; b2; b3] =>
      Some (Z_of_byte b0 + 256 * Z_of_byte b1 + 65536 * Z_of_byte b2
            + 16777216 * Z_of_byte b3)
  | _ => None
  end.

(** Total decoder used once the length is known to be 4. *)
Definition dec32 (bs : list byte) : Z :=
  match upck32 bs with Some v => v | None => 0 end.

End Pack.

(* ===================================================================== *)
(** ** Emulated memory                                                   *)
(* ===================================================================== *)

(** Modelled from the spec: the page-grained memory subsystem
  [jitter.vm] (map, read, write, isMapped of section 6), which is an
  external collaborator and is not under src/.  Only the bytes are kept:
  page permissions and labels play no part in this module. *)
Module Mem.
Import Pack.

(** The bytes written by [set_mem]/[add_memory_page] at [a], [a+1], ... *)
Fixpoint write_bytes (m : gmap Z byte) (a : Z) (bs : list byte)
  : gmap Z byte :=
  match bs with
  | [] => m
  | b :: bs' => write_bytes (<[a:=b]> m) (a + 1) bs'
  end.

(** [vm.get_mem(a, n)]: [None] when some byte of the range is unmapped. *)
Fixpoint read_bytes (m : gmap Z byte) (a : Z) (n : nat)
  : option (list byte) :=
  match n with
  | O => Some []
  | S n' =>
      match m !! a, read_bytes m (a + 1) n' with
      | Some b, Some bs => Some (b :: bs)
      | _, _ => None
      end
  end.

(** [vm.is_mapped(a, n)]. *)
Fixpoint is_mapped (m : gmap Z byte) (a : Z) (n : nat) : bool :=
  match n with
  | O => true
  | S n' =>
      match m !! a with
      | Some _ => is_mapped m (a + 1) n'
      | None => false
      end
  end.

(** The content of a range, with a filler where nothing is mapped:
    it agrees with [read_bytes] on mapped ranges. *)
Fixpoint peek (m : gmap Z byte) (a : Z) (n : nat) : list byte :=
  match n with
  | O => []
  | S n' => default "000"%byte (m !! a) :: peek m (a + 1) n'
  end.

Definition load32 (m : gmap Z byte) (a : Z) : Z := dec32 (peek m a 4).
Definition store32 (m : gmap Z byte) (a v : Z) : gmap Z byte :=
  write_bytes m a (le32 v).

End Mem.

(* ===================================================================== *)
(** ** The jitter: register file, memory, logger and exceptions          *)
(* ===================================================================== *)

Module Jit.
Import Pack Mem.

(** The registers this module reads or writes through [jitter.cpu]. *)
Inductive reg :=
| GS | FS | ES | DS
| EDI | ESI | EBX | EDX | ECX | EAX | EBP | EIP
| CS | ESP | SS.

#[global] Instance reg_eq_dec : EqDecision reg.
Proof. solve_decision. Defined.

Definition all_regs : list reg :=
  [GS; FS; ES; DS; EDI; ESI; EBX; EDX; ECX; EAX; EBP; EIP; CS; ESP; SS].

(** Modelled from the spec: the register-file abstraction [jitter.cpu]
    (named accessors of section 6), which is not under src/.  Segment
    selectors are 16-bit and the other registers 32-bit unsigned
    machine words: reading gives the unsigned value, assigning keeps the
    low bits. *)
Definition reg_modulus (r : reg) : Z :=
  match r with
  | GS | FS | ES | DS | CS | SS => 65536
  | _ => 4294967296
  end.

Definition upd_reg (r : reg) (v : Z) (c : reg -> Z) : reg -> Z :=
  fun r' => if decide (r = r') then v mod reg_modulus r else c r'.

Definition wf_cpub (c : reg -> Z) : bool :=
  forallb (fun r => (0 <=? c r) && (c r <? reg_modulus r)) all_regs.

Definition wf_cpu (c : reg -> Z) : Prop :=
  forall r, 0 <= c r < reg_modulus r.

Inductive level := DEBUG | INFO | WARNING.

(** Python exceptions that this module can meet. *)
Inductive exn :=
| RuntimeError            (* vm access outside mapped memory *)
| StructError             (* struct.pack / struct.unpack *)
| KeyError                (* dict lookup of an unknown key *)
| IndexError              (* list index out of range *)
| NotImplementedError (msg : string).

Record jitter := mkJitter {
  cpu : reg -> Z;                (* jitter.cpu.<REG> *)
  cpu_exception : Z;             (* jitter.cpu.get/set_exception *)
  vm : gmap Z byte;              (* jitter.vm *)
  vm_exception : Z;              (* jitter.vm.get/set_exception *)
  pc : Z;                        (* jitter.pc *)
  seh_count : Z;                 (* the module global seh_count *)
  logged : list (level * string) (* records emitted by the logger *)
}.

Definition with_cpu (c : reg -> Z) (j : jitter) : jitter :=
  mkJitter c (cpu_exception j) (vm j) (vm_exception j) (pc j)
           (seh_count j) (logged j).
Definition with_cpu_exception (e : Z) (j : jitter) : jitter :=
  mkJitter (cpu j) e (vm j) (vm_exception j) (pc j) (seh_count j) (logged j).
Definition with_vm (m : gmap Z byte) (j : jitter) : jitter :=
  mkJitter (cpu j) (cpu_exception j) m (vm_exception j) (pc j)
           (seh_count j) (logged j).
Definition with_vm_exception (e : Z) (j : jitter) : jitter :=
  mkJitter (cpu j) (cpu_exception j) (vm j) e (pc j) (seh_count j) (logged j).
Definition with_pc (p : Z) (j : jitter) : jitter :=
  mkJitter (cpu j) (cpu_exception j) (vm j) (vm_exception j) p
           (seh_count j) (logged j).
Definition with_seh_count (n : Z) (j : jitter) : jitter :=
  mkJitter (cpu j) (cpu_exception j) (vm j) (vm_exception j) (pc j) n
           (logged j).
Definition with_logged (l : list (level * string)) (j : jitter) : jitter :=
  mkJitter (cpu j) (cpu_exception j) (vm j) (vm_exception j) (pc j)
           (seh_count j) l.

Inductive result (A : Type) :=
| Ok (a : A)
| Raise (e : exn).
Arguments Ok {A} a.
Arguments Raise {A} e.

(** State and exception monad: the state reached when an exception is
    raised is kept, as in Python. *)
Definition M (A : Type) : Type := jitter -> result A * jitter.

Definition ret {A} (a : A) : M A := fun j => (Ok a, j).
Definition raise {A} (e : exn) : M A := fun j => (Raise e, j).
Definition bind {A B} (m : M A) (f : A -> M B) : M B :=
  fun j =>
    match m j with
    | (Ok a, j') => f a j'
    | (Raise e, j') => (Raise e, j')
    end.

Declare Scope jit_scope.
Delimit Scope jit_scope with jit.
Notation "'let*' x ':=' m 'in' k" := (bind m (fun x => k))
  (at level 10, x name, m at level 100, k at level 200) : jit_scope.
Notation "'let*' ' p ':=' m 'in' k" := (bind m (fun x => match x with p => k end))
  (at level 10, p pattern, m at level 100, k at level 200) : jit_scope.
Notation "m >> k" := (bind m (fun _ => k))
  (at level 100, k at level 200, right associativity) : jit_scope.
Local Open Scope jit_scope.

(** *** Register file *)
Definition get_reg (r : reg) : M Z := fun j => (Ok (cpu j r), j).
Definition set_reg (r : reg) (v : Z) : M unit :=
  fun j => (Ok tt, with_cpu (upd_reg r v (cpu j)) j).

(** *** Logger: [log.setLevel(logging.INFO)] drops the debug records.
    Only the message template is kept. *)
Definition emit (l : level) (msg : string) : M unit :=
  fun j =>
    match l with
    | DEBUG => (Ok tt, j)
    | _ => (Ok tt, with_logged (logged j ++ [(l, msg)]) j)
    end.

(** *** Memory *)
Definition get_mem (a : Z) (n : nat) : M (list byte) :=
  fun j =>
    match read_bytes (vm j) a n with
    | Some bs => (Ok bs, j)
    | None => (Raise RuntimeError, j)
    end.

Definition set_mem (a : Z) (bs : list byte) : M unit :=
  fun j =>
    if is_mapped (vm j) a (length bs)
    then (Ok tt, with_vm (write_bytes (vm j) a bs) j)
    else (Raise RuntimeError, j).

Definition is_mapped (a : Z) (n : nat) : M bool :=
  fun j => (Ok (Mem.is_mapped (vm j) a n), j).

Definition add_memory_page (a : Z) (bs : list byte) : M unit :=
  fun j => (Ok tt, with_vm (write_bytes (vm j) a bs) j).

(** *** struct *)
Definition pck32 (x : Z) : M (list byte) :=
  match Pack.pck32 x with
  | Some bs => ret bs
  | None => raise StructError
  end.

Definition upck32 (bs : list byte) : M Z :=
  match Pack.upck32 bs with
  | Some v => ret v
  | None => raise StructError
  end.

(** [struct.pack('H', x)] of a structure field of 16 bits. *)
Definition pck16 (x : Z) : M (list byte) :=
  if (0 <=? x) && (x <? 65536)
  then ret [byte_of_Z x; byte_of_Z (x / 256)]
  else raise StructError.

Definition set_field16 (a : Z) (v : Z) : M unit :=
  bind (pck16 v) (fun bs => set_mem a bs).

(** [struct.unpack('II', s)] and [struct.unpack('III', s)]. *)
Definition unpack_II (bs : list byte) : M (Z * Z) :=
  if (length bs =? 8)%nat
  then ret (dec32 (take 4 bs), dec32 (take 4 (drop 4 bs)))
  else raise StructError.

Definition unpack_III (bs : list byte) : M (Z * Z * Z) :=
  if (length bs =? 12)%nat
  then ret (dec32 (take 4 bs), dec32 (take 4 (drop 4 bs)),
            dec32 (take 4 (drop 8 bs)))
  else raise StructError.

(** [jitter.pc = v], [jitter.vm.set_exception(v)],
    [jitter.cpu.set_exception(v)]. *)
Definition set_pc (v : Z) : M unit := fun j => (Ok tt, with_pc v j).
Definition vm_set_exception (v : Z) : M unit :=
  fun j => (Ok tt, with_vm_exception v j).
Definition cpu_set_exception (v : Z) : M unit :=
  fun j => (Ok tt, with_cpu_exception v j).

(** A ["<I"] field of a memory structure: attribute read and write. *)
Definition get_field32 (a : Z) : M Z :=
  let* bs := get_mem a 4 in upck32 bs.
Definition set_field32 (a : Z) (v : Z) : M unit :=
  let* bs := pck32 v in set_mem a bs.

(** [jitter.push_uint32_t(v)]. *)
Definition push_uint32_t (v : Z) : M unit :=
  let* sp := get_reg ESP in
  set_reg ESP (sp - 4) >>
  let* sp' := get_reg ESP in
  let* bs := pck32 v in
  set_mem sp' bs.

End Jit.

(* ===================================================================== *)
(** ** Layouts of the memory structures                                  *)
(* ===================================================================== *)

(** Modelled from the spec: the structure declarations of
  [miasm2.os_dep.win_32_structs] (ListEntry, NT_TIB, TEB, PEB,
  PEB_LDR_DATA, LdrDataEntry, ContextException), which are not under
  src/.  The offsets are those of the 32-bit Windows x86 ABI that
  section 6 prescribes; they agree with every literal offset the source
  itself uses (PEB + 8 and + 0xC, loader data + 0xC, context + 0xc4). *)
Module Layout.

Module ListEntry.
Definition flink : Z := 0.
Definition blink : Z := 4.
Definition sizeof : Z := 8.
End ListEntry.

Module NT_TIB.
Definition ExceptionList : Z := 0.
Definition StackBase : Z := 4.
Definition Self : Z := 24.
Definition sizeof : Z := 28.
End NT_TIB.

Module TEB.
Definition NtTib : Z := 0.
Definition ProcessEnvironmentBlock : Z := 48.
Definition LastErrorValue : Z := 52.
End TEB.

Module PEB.
Definition ImageBaseAddress : Z := 8.
Definition Ldr : Z := 12.
End PEB.

Module PEB_LDR_DATA.
Definition InLoadOrderModuleList : Z := 12.
Definition InMemoryOrderModuleList : Z := 20.
Definition InInitializationOrderModuleList : Z := 28.
End PEB_LDR_DATA.

Module LdrDataEntry.
Definition InLoadOrderLinks : Z := 0.
Definition InMemoryOrderLinks : Z := 8.
Definition InInitializationOrderLinks : Z := 16.
Definition DllBase : Z := 24.
Definition EntryPoint : Z := 28.
Definition SizeOfImage : Z := 32.
Definition FullDllName : Z := 36.
Definition BaseDllName : Z := 44.
Definition Flags : Z := 52.
End LdrDataEntry.

Module ContextException.
Definition ContextFlags : Z := 0.
Definition dr0 : Z := 4.
Definition dr1 : Z := 8.
Definition dr2 : Z := 12.
Definition dr3 : Z := 16.
Definition dr4 : Z := 20.
Definition dr5 : Z := 24.
Definition Float : Z := 28.
Definition gs : Z := 140.
Definition fs : Z := 144.
Definition es : Z := 148.
Definition ds : Z := 152.
Definition edi : Z := 156.
Definition esi : Z := 160.
Definition ebx : Z := 164.
Definition edx : Z := 168.
Definition ecx : Z := 172.
Definition eax : Z := 176.
Definition ebp : Z := 180.
Definition eip : Z := 184.
Definition cs : Z := 188.
Definition eflags : Z := 192.
Definition esp : Z := 196.
Definition ss : Z := 200.
Definition sizeof : nat := 204.
End ContextException.

End Layout.

(* ===================================================================== *)
(** ** CPU context marshaller: regs2ctxt and ctxt2regs                   *)
(* ===================================================================== *)

Module Context.
Import Pack Mem Jit.
Module C := Layout.ContextException.
Local Open Scope jit_scope.

(** [ctxt.<field> = jitter.cpu.<REG>] *)
Definition field_of_reg (a : Z) (r : reg) : M unit :=
  let* v := get_reg r in set_field32 a v.

(** [jitter.cpu.<REG> = ctxt.<field>] *)
Definition reg_of_field (r : reg) (a : Z) : M unit :=
  let* v := get_field32 a in set_reg r v.

Definition regs2ctxt (context_address : Z) : M unit :=
  let ctxt := context_address in
  set_mem ctxt (repeat "000"%byte C.sizeof) >>
  (* DRX *)
  set_field32 (ctxt + C.dr0) 0 >>
  set_field32 (ctxt + C.dr1) 0 >>
  set_field32 (ctxt + C.dr2) 0 >>
  set_field32 (ctxt + C.dr3) 0 >>
  set_field32 (ctxt + C.dr4) 0 >>
  set_field32 (ctxt + C.dr5) 0 >>
  (* Segment selectors *)
  field_of_reg (ctxt + C.gs) GS >>
  field_of_reg (ctxt + C.fs) FS >>
  field_of_reg (ctxt + C.es) ES >>
  field_of_reg (ctxt + C.ds) DS >>
  (* Gpregs *)
  field_of_reg (ctxt + C.edi) EDI >>
  field_of_reg (ctxt + C.esi) ESI >>
  field_of_reg (ctxt + C.ebx) EBX >>
  field_of_reg (ctxt + C.edx) EDX >>
  field_of_reg (ctxt + C.ecx) ECX >>
  field_of_reg (ctxt + C.eax) EAX >>
  field_of_reg (ctxt + C.ebp) EBP >>
  field_of_reg (ctxt + C.eip) EIP >>
  (* CS *)
  field_of_reg (ctxt + C.cs) CS >>
  (* ESP *)
  field_of_reg (ctxt + C.esp) ESP >>
  (* SS *)
  field_of_reg (ctxt + C.ss) SS >>
  ret tt.

Definition ctxt2regs (ctxt_ptr : Z) : M unit :=
  let ctxt := ctxt_ptr in
  (* Selectors *)
  reg_of_field GS (ctxt + C.gs) >>
  reg_of_field FS (ctxt + C.fs) >>
  reg_of_field ES (ctxt + C.es) >>
  reg_of_field DS (ctxt + C.ds) >>
  (* Gpregs *)
  reg_of_field EDI (ctxt + C.edi) >>
  reg_of_field ESI (ctxt + C.esi) >>
  reg_of_field EBX (ctxt + C.ebx) >>
  reg_of_field EDX (ctxt + C.edx) >>
  reg_of_field ECX (ctxt + C.ecx) >>
  reg_of_field EAX (ctxt + C.eax) >>
  reg_of_field EBP (ctxt + C.ebp) >>
  reg_of_field EIP (ctxt + C.eip) >>
  (* CS *)
  reg_of_field CS (ctxt + C.cs) >>
  (* ESP *)
  reg_of_field ESP (ctxt + C.esp) >>
  (* SS *)
  reg_of_field SS (ctxt + C.ss) >>
  ret tt.

(** The field of the context record that holds register [r]. *)
Definition field_offset (r : reg) : Z :=
  match r with
  | GS => C.gs | FS => C.fs | ES => C.es | DS => C.ds
  | EDI => C.edi | ESI => C.esi | EBX => C.ebx | EDX => C.edx
  | ECX => C.ecx | EAX => C.eax | EBP => C.ebp | EIP => C.eip
  | CS => C.cs | ESP => C.esp | SS => C.ss
  end.

(** The fields that no register is saved into and that the spec lists as
    zero after a save: the debug registers and the flags. *)
Definition zero_fields : list Z :=
  [C.dr0; C.dr1; C.dr2; C.dr3; C.dr4; C.dr5; C.eflags].

(** Memory after [regs2ctxt] at [a] from the register file [c]. *)
Definition saved_context (c : reg -> Z) (m : gmap Z byte) (a : Z)
  : gmap Z byte :=
  let m := write_bytes m a (repeat "000"%byte C.sizeof) in
  let m := store32 m (a + C.dr0) 0 in
  let m := store32 m (a + C.dr1) 0 in
  let m := store32 m (a + C.dr2) 0 in
  let m := store32 m (a + C.dr3) 0 in
  let m := store32 m (a + C.dr4) 0 in
  let m := store32 m (a + C.dr5) 0 in
  let m := store32 m (a + C.gs) (c GS) in
  let m := store32 m (a + C.fs) (c FS) in
  let m := store32 m (a + C.es) (c ES) in
  let m := store32 m (a + C.ds) (c DS) in
  let m := store32 m (a + C.edi) (c EDI) in
  let m := store32 m (a + C.esi) (c ESI) in
  let m := store32 m (a + C.ebx) (c EBX) in
  let m := store32 m (a + C.edx) (c EDX) in
  let m := store32 m (a + C.ecx) (c ECX) in
  let m := store32 m (a + C.eax) (c EAX) in
  let m := store32 m (a + C.ebp) (c EBP) in
  let m := store32 m (a + C.eip) (c EIP) in
  let m := store32 m (a + C.cs) (c CS) in
  let m := store32 m (a + C.esp) (c ESP) in
  store32 m (a + C.ss) (c SS).

(** Register file after [ctxt2regs] at [a] over memory [m]. *)
Definition restored_regs (m : gmap Z byte) (a : Z) (c : reg -> Z)
  : reg -> Z :=
  fold_left (fun c r => upd_reg r (load32 m (a + field_offset r)) c)
            all_regs c.

End Context.

(* ===================================================================== *)
(** ** Thread and process blocks, SEH dispatcher and chain walker        *)
(* ===================================================================== *)

Module Seh.
Import Pack Mem Jit Layout Context.
Local Open Scope jit_scope.

(** *** Constants *)
Definition EXCEPTION_BREAKPOINT : Z := 0x80000003.
Definition EXCEPTION_ACCESS_VIOLATION : Z := 0xc0000005.
Definition EXCEPTION_INT_DIVIDE_BY_ZERO : Z := 0xc0000094.
Definition EXCEPTION_PRIV_INSTRUCTION : Z := 0xc0000096.
Definition EXCEPTION_ILLEGAL_INSTRUCTION : Z := 0xc000001d.

Definition FS_0_AD : Z := 0x7ff70000.
Definition PEB_AD : Z := 0x7ffdf000.
Definition LDR_AD : Z := 0x340000.
Definition DEFAULT_SEH : Z := 0x7ffff000.

Definition MAX_MODULES : Z := 0x40.

Definition tib_address : Z := FS_0_AD.
Definition peb_address : Z := PEB_AD.
Definition peb_ldr_data_offset : Z := 0x1ea0.
Definition peb_ldr_data_address : Z := LDR_AD + peb_ldr_data_offset.

Definition modules_list_offset : Z := 0x1f00.

Definition process_environment_address : Z := 0x10000.
Definition process_parameters_address : Z := 0x200000.

Definition return_from_exception : Z := 0x6eadbeef.

Definition MAX_SEH : Z := 5.

(** The image object of a module, as far as this file reads it
    ([NThdr.ImageBase], [Opthdr.AddressOfEntryPoint], [NThdr.sizeofimage]);
    [pe_id] stands for the identity of the Python object, which is what
    dictionary keys and [in] compare. *)
Record pe := mkPe {
  pe_id : nat;
  ImageBase : Z;
  AddressOfEntryPoint : Z;
  sizeofimage : Z
}.

(** *** build_teb *)
Definition build_teb (teb_address : Z) : M unit :=
  (* Only allocate space for ExceptionList/ProcessEnvironmentBlock/Self *)
  add_memory_page teb_address
    (repeat "000"%byte (Z.to_nat NT_TIB.StackBase)) >>
  add_memory_page (teb_address + NT_TIB.Self)
    (repeat "000"%byte (Z.to_nat (NT_TIB.sizeof - NT_TIB.Self))) >>
  add_memory_page (teb_address + TEB.ProcessEnvironmentBlock)
    (repeat "000"%byte
       (Z.to_nat (TEB.LastErrorValue - TEB.ProcessEnvironmentBlock))) >>
  set_field32 (teb_address + TEB.NtTib + NT_TIB.ExceptionList) DEFAULT_SEH >>
  set_field32 (teb_address + TEB.NtTib + NT_TIB.Self) teb_address >>
  set_field32 (teb_address + TEB.ProcessEnvironmentBlock) peb_address >>
  ret tt.

(** *** build_peb; the module global [main_pe] is the first argument *)
Definition build_peb (main_pe : option pe) (peb_address : Z) : M unit :=
  let '(offset, length) :=
    match main_pe with
    | Some _ => (peb_address + 8, 4)
    | None => (peb_address + 0xC, 0)
    end in
  let length := length + 4 in
  add_memory_page offset (repeat "000"%byte (Z.to_nat length)) >>
  match main_pe with
  | Some main => set_field32 (peb_address + PEB.ImageBaseAddress) (ImageBase main)
  | None => ret tt
  end >>
  set_field32 (peb_address + PEB.Ldr) peb_ldr_data_address >>
  ret tt.

(** *** dump_seh *)

(** The three ways out of the [while True] loop of [dump_seh]. *)
Inductive loop_exit :=
| TooManySeh     (* loop > MAX_SEH: warning, return *)
| NotMapped      (* not is_mapped(cur_seh_ptr, 8): break *)
| ChainEnd.      (* prev_seh == 0: break *)

(** The loop, with the number of iterations still allowed as fuel; the
    result is [None] when the fuel runs out before the loop is left. *)
Fixpoint dump_seh_loop (fuel : nat) (cur_seh_ptr indent loop : Z)
  : M (option loop_exit) :=
  match fuel with
  | O => ret None
  | S fuel' =>
      if MAX_SEH <? loop then
        emit WARNING "Too many seh, quit" >>
        ret (Some TooManySeh)
      else
        let* mapped := is_mapped cur_seh_ptr 8 in
        if negb mapped then ret (Some NotMapped)
        else
          let* bs := get_mem cur_seh_ptr 8 in
          let* '(prev_seh, eh) := unpack_II bs in
          emit INFO "seh_ptr: %x { prev_seh: %x eh %x }" >>
          if prev_seh =? 0 then ret (Some ChainEnd)
          else dump_seh_loop fuel' prev_seh (indent + 1) (loop + 1)
  end.

(** Fuel that the loop never exhausts (see [dump_seh_loop_fuel]). *)
Definition dump_seh_fuel : nat := Z.to_nat (MAX_SEH + 2).

(** The walker up to the loop's exit, which it reports. *)
Definition dump_seh_walk (fuel : nat) : M (option loop_exit) :=
  emit INFO "Dump_seh. Tib_address: %x" >>
  let* bs := get_mem tib_address 4 in
  let* cur_seh_ptr := upck32 bs in
  dump_seh_loop fuel cur_seh_ptr 1 0.

Definition dump_seh : M unit :=
  dump_seh_walk dump_seh_fuel >> ret tt.

(** *** fake_seh_handler *)

(** [seh_count += 1] on the module global. *)
Definition incr_seh_count : M unit :=
  fun j => (Ok tt, with_seh_count (seh_count j + 1) j).

Definition fake_seh_handler (except_code : Z) : M Z :=
  emit WARNING "Exception at %x %r" >>
  incr_seh_count >>
  (* Get space on stack for exception handling *)
  let* esp := get_reg ESP in
  let new_ESP := esp - 0x3c8 in
  let exception_base_address := new_ESP in
  let exception_record_address := exception_base_address + 0xe8 in
  let context_address := exception_base_address + 0xfc in
  let fake_seh_address := exception_base_address + 0x14 in
  (* Save a CONTEXT *)
  regs2ctxt context_address >>
  (* Get current seh (fs:[0]) *)
  let* bs := get_mem tib_address 4 in
  let* seh_ptr := upck32 bs in
  (* Retrieve seh fields *)
  let* bs := get_mem seh_ptr 12 in
  let* '(old_seh, eh, safe_place) := unpack_III bs in
  emit INFO "seh_ptr %x { old_seh %x eh %x safe_place %x} ctx_addr %x" >>
  set_reg ESP new_ESP >>
  (* Write exception_record *)
  let* b_code := pck32 except_code in
  let* b_flags := pck32 0 in
  let* b_record := pck32 0 in
  let* eip := get_reg EIP in
  let* b_address := pck32 eip in
  let* b_nparams := pck32 0 in
  set_mem exception_record_address
    (b_code ++ b_flags ++ b_record ++ b_address ++ b_nparams) >>
  (* Prepare the stack *)
  push_uint32_t context_address >>                (* Context *)
  push_uint32_t seh_ptr >>                        (* SEH *)
  push_uint32_t exception_record_address >>       (* ExceptRecords *)
  push_uint32_t return_from_exception >>          (* Ret address *)
  (* Set fake new current seh for exception *)
  emit INFO "Fake seh ad %x" >>
  let* b_prev := pck32 seh_ptr in
  let* b_aa := pck32 0xaaaaaaaa in
  let* b_bb := pck32 0xaaaaaabb in
  let* b_cc := pck32 0xaaaaaacc in
  set_mem fake_seh_address (b_prev ++ b_aa ++ b_bb ++ b_cc) >>
  let* b_fake := pck32 fake_seh_address in
  set_mem tib_address b_fake >>
  dump_seh >>
  emit INFO "Jumping at %x" >>
  vm_set_exception 0 >>
  cpu_set_exception 0 >>
  (* XXX set ebx to nul? *)
  set_reg EBX 0 >>
  ret eh.

(** *** return_from_seh *)
Definition return_from_seh : M unit :=
  (* Get current context *)
  let* esp := get_reg ESP in
  let* bs := get_mem (esp + 0x8) 4 in
  let* context_address := upck32 bs in
  emit INFO "Context address: %x" >>
  let* bs := get_mem (context_address + 0xc4) 4 in
  let* new_esp := upck32 bs in
  set_reg ESP new_esp >>
  emit INFO "New esp: %x" >>
  (* Rebuild SEH *)
  let* bs := get_mem tib_address 4 in
  let* old_seh := upck32 bs in
  let* bs := get_mem old_seh 4 in
  let* new_seh := upck32 bs in
  emit INFO "Old seh: %x New seh: %x" >>
  let* b_new := pck32 new_seh in
  set_mem tib_address b_new >>
  dump_seh >>
  let* eax := get_reg EAX in
  if eax =? 0x0 then
    (* ExceptionContinueExecution *)
    let ctxt_ptr := context_address in
    emit INFO "Seh continues Context: %x" >>
    (* Get registers changes *)
    ctxt2regs ctxt_ptr >>
    let* eip := get_reg EIP in
    set_pc eip >>
    emit INFO "Context::Eip: %x" >>
    ret tt
  else
    let* eax := get_reg EAX in
    if eax =? -1 then
      raise (NotImplementedError "-> seh try to go to the next handler")
    else
      let* eax := get_reg EAX in
      if eax =? 1 then
        (* ExceptionContinueSearch *)
        raise (NotImplementedError "-> seh, gameover")
      else ret tt.

(** *** The guest side of one exception, as the claims describe it *)

(** A handler that does nothing but leave its disposition in EAX and
    return: it pops the return address that the dispatcher pushed. *)
Definition handler_plain_return (disposition : Z) : M unit :=
  set_reg EAX disposition >>
  let* esp := get_reg ESP in
  let* bs := get_mem esp 4 in
  let* ra := upck32 bs in
  set_reg ESP (esp + 4) >>
  set_reg EIP ra >>
  set_pc ra.

(** The emulator recognises the trampoline address as the signal to run
    the resume transition. *)
Definition at_trampoline (resume : M unit) : M unit :=
  fun j => if pc j =? return_from_exception then resume j else (Ok tt, j).

(** The emulation loop around a fault: the dispatcher's result becomes
    the program counter, the handler runs, and reaching the trampoline
    address triggers the resume transition. *)
Definition dispatch_and_return (except_code disposition : Z) : M unit :=
  let* eh := fake_seh_handler except_code in
  set_pc eh >>
  handler_plain_return disposition >>
  at_trampoline return_from_seh.

(** *** Preconditions and pure descriptions used in the statements *)

(** Base of the frame that a dispatch reserves below the stack pointer. *)
Definition frame_base (j : jitter) : Z := cpu j ESP - 0x3c8.

(** A state in which a fault can be dispatched: the register file holds
    machine words, the frame and the four pushed words lie in mapped
    memory at non-negative addresses, the TIB slot and the SEH frame it
    points to are readable, and the TIB slot is not part of the frame. *)
Definition dispatch_ready (j : jitter) : bool :=
  let base := frame_base j in
  wf_cpub (cpu j)
  && (16 <=? base)
  && Mem.is_mapped (vm j) (base - 16) 0x1d8
  && Mem.is_mapped (vm j) tib_address 4
  && Mem.is_mapped (vm j) (load32 (vm j) tib_address) 12
  && ((tib_address + 4 <=? base - 16) || (base + 0x1c8 <=? tib_address)).

(** Memory after a dispatch of [code] from registers [c] and memory [m],
    write by write in the order of [fake_seh_handler]. *)
Definition dispatch_mem (code : Z) (c : reg -> Z) (m : gmap Z byte)
  : gmap Z byte :=
  let base := c ESP - 0x3c8 in
  let m := saved_context c m (base + 0xfc) in
  let seh_ptr := load32 m tib_address in
  let m := write_bytes m (base + 0xe8)
             (le32 code ++ le32 0 ++ le32 0 ++ le32 (c EIP) ++ le32 0) in
  let m := write_bytes m (base - 4) (le32 (base + 0xfc)) in
  let m := write_bytes m (base - 8) (le32 seh_ptr) in
  let m := write_bytes m (base - 12) (le32 (base + 0xe8)) in
  let m := write_bytes m (base - 16) (le32 return_from_exception) in
  let m := write_bytes m (base + 0x14)
             (le32 seh_ptr ++ le32 0xaaaaaaaa ++ le32 0xaaaaaabb
              ++ le32 0xaaaaaacc) in
  write_bytes m tib_address (le32 (base + 0x14)).

(** Register file when the handler is entered: the stack pointer is
    assigned the frame base and then once per pushed word, EBX last. *)
Definition dispatch_cpu (c : reg -> Z) : reg -> Z :=
  let base := c ESP - 0x3c8 in
  upd_reg EBX 0
    (upd_reg ESP (base - 16)
       (upd_reg ESP (base - 12)
          (upd_reg ESP (base - 8)
             (upd_reg ESP (base - 4)
                (upd_reg ESP base c))))).

(** Register file when the plain-return handler has returned to the
    trampoline with [disposition] in EAX. *)
Definition returned_cpu (disposition : Z) (c : reg -> Z) : reg -> Z :=
  let base := c ESP - 0x3c8 in
  upd_reg EIP return_from_exception
    (upd_reg ESP (base - 12) (upd_reg EAX disposition (dispatch_cpu c))).

(** Memory once the resume transition has put the previous link of the
    synthetic frame back into the TIB slot. *)
Definition resumed_mem (code : Z) (c : reg -> Z) (m : gmap Z byte)
  : gmap Z byte :=
  store32 (dispatch_mem code c m) tib_address (load32 m tib_address).

(** The branch of [return_from_seh] on the handler's disposition, from
    the test of EAX on (the statements after the second [dump_seh]). *)
Definition resume_branch (context_address : Z) : M unit :=
  let* eax := get_reg EAX in
  if eax =? 0x0 then
    let ctxt_ptr := context_address in
    emit INFO "Seh continues Context: %x" >>
    ctxt2regs ctxt_ptr >>
    let* eip := get_reg EIP in
    set_pc eip >>
    emit INFO "Context::Eip: %x" >>
    ret tt
  else
    let* eax := get_reg EAX in
    if eax =? -1 then
      raise (NotImplementedError "-> seh try to go to the next handler")
    else
      let* eax := get_reg EAX in
      if eax =? 1 then
        raise (NotImplementedError "-> seh, gameover")
      else ret tt.

(** What the walker does from frame [cur] when [k] more frames may be
    read, in the words of the spec: stop on an unreadable frame, stop
    after a frame whose previous link is zero, stop when no more frame
    may be read; the number is that of the frames read. *)
Fixpoint chain_stop (m : gmap Z byte) (k : nat) (cur : Z)
  : loop_exit * nat :=
  match k with
  | O => (TooManySeh, O)
  | S k' =>
      if negb (Mem.is_mapped m cur 8) then (NotMapped, O)
      else
        let prev := load32 m cur in
        if prev =? 0 then (ChainEnd, 1%nat)
        else let '(e, n) := chain_stop m k' prev in (e, S n)
  end.

(** The records that the loop of the walker logs: one per frame read,
    and the warning when it gives up. *)
Definition walk_log (r : loop_exit * nat) : list (level * string) :=
  repeat (INFO, "seh_ptr: %x { prev_seh: %x eh %x }"%string) (snd r)
  ++ match fst r with
     | TooManySeh => [(WARNING, "Too many seh, quit"%string)]
     | _ => []
     end.

(** The frames that the walker may read: [loop] runs from 0 to MAX_SEH. *)
Definition max_frames : nat := Z.to_nat (MAX_SEH + 1).

End Seh.

(* ===================================================================== *)
(** ** Module registry, module entries and loader lists                  *)
(* ===================================================================== *)

Module Loader.
Import Pack Mem Jit Layout Seh.
Local Open Scope jit_scope.

#[global] Instance pe_eq_dec : EqDecision pe.
Proof. solve_decision. Defined.

#[global] Instance pe_countable : Countable pe.
Proof.
  refine (inj_countable'
            (fun p => (pe_id p, ImageBase p, AddressOfEntryPoint p, sizeofimage p))
            (fun t => match t with (i, b, e, s) => mkPe i b e s end) _).
  intros []. reflexivity.
Defined.

(** *** class LoadedModules *)
Record LoadedModules := mkLoadedModules {
  modules : list pe;
  name2module : gmap string pe;
  module2entry : gmap pe Z;
  module2name : gmap pe string
}.

(** [LoadedModules()] *)
Definition no_modules : LoadedModules := mkLoadedModules [] ∅ ∅ ∅.

(** [LoadedModules.add(name, module, module_entry)] *)
Definition add (name : string) (module : pe) (module_entry : Z)
  (self : LoadedModules) : LoadedModules :=
  mkLoadedModules
    (modules self ++ [module])
    (<[name := module]> (name2module self))
    (<[module := module_entry]> (module2entry self))
    (<[module := name]> (module2name self)).

(** [modules_info.module2entry[module]] *)
Definition entry_of (modules_info : LoadedModules) (module : pe) : M Z :=
  match module2entry modules_info !! module with
  | Some e => ret e
  | None => raise KeyError
  end.

(** [l[i]] for a list and a non-negative index. *)
Definition item (l : list pe) (i : Z) : M pe :=
  match l !! Z.to_nat i with
  | Some x => ret x
  | None => raise IndexError
  end.

(** *** Strings of Python 2 as lists of characters *)

(** [os.path.split(fname)[1]] (posixpath: what follows the last '/'). *)
Fixpoint basename_from (acc : string) (s : string) : string :=
  match s with
  | EmptyString => acc
  | String c s' =>
      if Ascii.eqb c "/"%char then basename_from s' s'
      else basename_from acc s'
  end.
Definition basename (s : string) : string := basename_from s s.

(** [str.lower()] in the C locale. *)
Definition lower_char (c : Ascii.ascii) : Ascii.ascii :=
  let n := Ascii.nat_of_ascii c in
  if ((65 <=? n) && (n <=? 90))%nat then Ascii.ascii_of_nat (n + 32) else c.

Fixpoint lower (s : string) : string :=
  match s with
  | EmptyString => EmptyString
  | String c s' => String (lower_char c) (lower s')
  end.

(** [fname.replace('/', '\\')] *)
Fixpoint backslashes (s : string) : string :=
  match s with
  | EmptyString => EmptyString
  | String c s' =>
      String (if Ascii.eqb c "/"%char then "\"%char else c) (backslashes s')
  end.

(** ["\x00".join(s)] as bytes. *)
Fixpoint join_nul (s : string) : list byte :=
  match s with
  | EmptyString => []
  | String c EmptyString => [Ascii.byte_of_ascii c]
  | String c s' => Ascii.byte_of_ascii c :: "000"%byte :: join_nul s'
  end.

Definition nuls (n : nat) : list byte := repeat "000"%byte n.

(** *** create_modules_chain; the dictionary [name2module] is given as
    the list of its items in iteration order. *)
Definition create_module (base_addr : Z) (i : Z) (fname : string)
  (pe_obj : option pe) (modules_info : LoadedModules) : M LoadedModules :=
  let offset_name := 0x500 in
  let offset_path := 0x600 in
  match pe_obj with
  | None =>
      emit WARNING "Unknown module: ommited from link list (%r)" >>
      ret modules_info
  | Some pe_obj =>
      let addr := base_addr + i * 0x1000 in
      let bpath := backslashes fname in
      let bname_str := lower (basename fname) in
      let bname := join_nul bname_str ++ nuls 1 in
      emit INFO "Add module %x %r" >>
      let modules_info := add bname_str pe_obj addr modules_info in
      (* Allocate a partial LdrDataEntry (0-Flags) *)
      add_memory_page addr (nuls (Z.to_nat LdrDataEntry.Flags)) >>
      set_field32 (addr + LdrDataEntry.DllBase) (ImageBase pe_obj) >>
      set_field32 (addr + LdrDataEntry.EntryPoint)
                  (AddressOfEntryPoint pe_obj) >>
      set_field32 (addr + LdrDataEntry.SizeOfImage) (sizeofimage pe_obj) >>
      set_field16 (addr + LdrDataEntry.FullDllName)
                  (Z.of_nat (length bname)) >>
      set_field16 (addr + LdrDataEntry.FullDllName + 2)
                  (Z.of_nat (length bname) + 2) >>
      set_field32 (addr + LdrDataEntry.FullDllName + 4) (addr + offset_path) >>
      set_field16 (addr + LdrDataEntry.BaseDllName)
                  (Z.of_nat (length bname)) >>
      set_field16 (addr + LdrDataEntry.BaseDllName + 2)
                  (Z.of_nat (length bname) + 2) >>
      set_field32 (addr + LdrDataEntry.BaseDllName + 4) (addr + offset_name) >>
      add_memory_page (addr + offset_name) (bname ++ nuls 3) >>
      add_memory_page (addr + offset_path)
                      (join_nul bpath ++ nuls 1 ++ nuls 3) >>
      ret modules_info
  end.

Fixpoint create_modules_from (base_addr : Z) (i : Z)
  (items : list (string * option pe)) (modules_info : LoadedModules)
  : M LoadedModules :=
  match items with
  | [] => ret modules_info
  | (fname, pe_obj) :: items' =>
      let* modules_info := create_module base_addr i fname pe_obj modules_info in
      create_modules_from base_addr (i + 1) items' modules_info
  end.

Definition create_modules_chain (name2module : list (string * option pe))
  : M LoadedModules :=
  let base_addr := LDR_AD + modules_list_offset in
  create_modules_from base_addr 1 name2module no_modules.

(** *** set_link_list_entry *)
Definition link_entry (loaded_modules : list pe) (modules_info : LoadedModules)
  (offset : Z) (i : Z) (module : pe) : M unit :=
  let len := Z.of_nat (length loaded_modules) in
  let* cur_module_entry := entry_of modules_info module in
  let* prev_module := item loaded_modules ((i - 1) mod len) in
  let* next_module := item loaded_modules ((i + 1) mod len) in
  let* prev_module_entry := entry_of modules_info prev_module in
  let* next_module_entry := entry_of modules_info next_module in
  let prev_module_entry :=
    if i =? 0 then peb_ldr_data_address + 0xC else prev_module_entry in
  let next_module_entry :=
    if i =? len - 1 then peb_ldr_data_address + 0xC else next_module_entry in
  let* b_next := pck32 (next_module_entry + offset) in
  let* b_prev := pck32 (prev_module_entry + offset) in
  set_mem (cur_module_entry + offset) (b_next ++ b_prev).

(** [for i, x in enumerate(l, i0): body(i, x)] *)
Fixpoint for_enumerate {A} (body : Z -> A -> M unit) (i : Z) (l : list A)
  : M unit :=
  match l with
  | [] => ret tt
  | x :: l' => body i x >> for_enumerate body (i + 1) l'
  end.

Definition set_link_list_entry (loaded_modules : list pe)
  (modules_info : LoadedModules) (offset : Z) : M unit :=
  for_enumerate (link_entry loaded_modules modules_info offset) 0
                loaded_modules.

(** *** The three fixups; the module global [main_pe_name] is their first
    argument. *)

(** [l[i:i] = [x]] *)
Definition insert_at (i : nat) (x : pe) (l : list pe) : list pe :=
  take i l ++ x :: drop i l.

(** [[module for module in modules if module not in special_modules]] *)
Definition without (special_modules : list pe) (l : list pe) : list pe :=
  filter (fun module => module ∉ special_modules) l.

(** The members and their order for the load-order and memory-order
    lists; [None] when [not all(special_modules)]. *)
Definition special_first (main_pe_name : string) (modules_info : LoadedModules)
  : option (list pe) :=
  let main_pe := name2module modules_info !! main_pe_name in
  let kernel32_pe := name2module modules_info !! "kernel32.dll"%string in
  let ntdll_pe := name2module modules_info !! "ntdll.dll"%string in
  match main_pe, kernel32_pe, ntdll_pe with
  | Some main_pe, Some kernel32_pe, Some ntdll_pe =>
      let special_modules := [main_pe; kernel32_pe; ntdll_pe] in
      let loaded_modules := without special_modules (modules modules_info) in
      let loaded_modules := insert_at 0 main_pe loaded_modules in
      let loaded_modules := insert_at 1 ntdll_pe loaded_modules in
      let loaded_modules := insert_at 2 kernel32_pe loaded_modules in
      Some loaded_modules
  | _, _, _ => None
  end.

(** The same for the initialization-order list. *)
Definition special_first_init (main_pe_name : string)
  (modules_info : LoadedModules) : option (list pe) :=
  let main_pe := name2module modules_info !! main_pe_name in
  let kernel32_pe := name2module modules_info !! "kernel32.dll"%string in
  let ntdll_pe := name2module modules_info !! "ntdll.dll"%string in
  match main_pe, kernel32_pe, ntdll_pe with
  | Some main_pe, Some kernel32_pe, Some ntdll_pe =>
      let special_modules := [main_pe; kernel32_pe; ntdll_pe] in
      let loaded_modules := without special_modules (modules modules_info) in
      let loaded_modules := insert_at 0 ntdll_pe loaded_modules in
      let loaded_modules := insert_at 1 kernel32_pe loaded_modules in
      Some loaded_modules
  | _, _, _ => None
  end.

Definition fix_InLoadOrderModuleList (main_pe_name : string)
  (modules_info : LoadedModules) : M unit :=
  emit DEBUG "Fix InLoadOrderModuleList" >>
  let* loaded_modules :=
    match special_first main_pe_name modules_info with
    | None =>
        emit WARNING "No main pe, ldr data will be unconsistant %r" >>
        ret (modules modules_info)
    | Some loaded_modules => ret loaded_modules
    end in
  set_link_list_entry loaded_modules modules_info 0x0.

Definition fix_InMemoryOrderModuleList (main_pe_name : string)
  (modules_info : LoadedModules) : M unit :=
  emit DEBUG "Fix InMemoryOrderModuleList" >>
  let* loaded_modules :=
    match special_first main_pe_name modules_info with
    | None =>
        emit WARNING "No main pe, ldr data will be unconsistant" >>
        ret (modules modules_info)
    | Some loaded_modules => ret loaded_modules
    end in
  set_link_list_entry loaded_modules modules_info 0x8.

Definition fix_InInitializationOrderModuleList (main_pe_name : string)
  (modules_info : LoadedModules) : M unit :=
  emit DEBUG "Fix InInitializationOrderModuleList" >>
  let* loaded_modules :=
    match special_first_init main_pe_name modules_info with
    | None =>
        emit WARNING "No main pe, ldr data will be unconsistant" >>
        ret (modules modules_info)
    | Some loaded_modules => ret loaded_modules
    end in
  set_link_list_entry loaded_modules modules_info 0x10.

(** *** build_ldr_data *)
Definition build_ldr_data (main_pe_name : string)
  (modules_info : LoadedModules) : M unit :=
  (* ldr offset pad *)
  let offset := 0xC in
  let addr := LDR_AD + peb_ldr_data_offset in
  let main_pe := name2module modules_info !! main_pe_name in
  let ntdll_pe := name2module modules_info !! "ntdll.dll"%string in
  let size := 0 in
  let* '(size, main_addr_entry) :=
    match main_pe with
    | Some main_pe =>
        let* e := entry_of modules_info main_pe in
        ret (size + ListEntry.sizeof * 2, Some e)
    | None => ret (size, None)
    end in
  let* '(size, ntdll_addr_entry) :=
    match ntdll_pe with
    | Some ntdll_pe =>
        let* e := entry_of modules_info ntdll_pe in
        ret (size + ListEntry.sizeof, Some e)
    | None => ret (size, None)
    end in
  add_memory_page (addr + offset) (nuls (Z.to_nat size)) >>
  match main_addr_entry with
  | Some main_addr_entry =>
      set_field32 (addr + PEB_LDR_DATA.InLoadOrderModuleList + ListEntry.flink)
                  main_addr_entry >>
      set_field32 (addr + PEB_LDR_DATA.InLoadOrderModuleList + ListEntry.blink)
                  0 >>
      set_field32 (addr + PEB_LDR_DATA.InMemoryOrderModuleList + ListEntry.flink)
                  (main_addr_entry + LdrDataEntry.InMemoryOrderLinks) >>
      set_field32 (addr + PEB_LDR_DATA.InMemoryOrderModuleList + ListEntry.blink)
                  0
  | None => ret tt
  end >>
  match ntdll_addr_entry with
  | Some ntdll_addr_entry =>
      set_field32
        (addr + PEB_LDR_DATA.InInitializationOrderModuleList + ListEntry.flink)
        (ntdll_addr_entry + LdrDataEntry.InInitializationOrderLinks) >>
      set_field32
        (addr + PEB_LDR_DATA.InInitializationOrderModuleList + ListEntry.blink)
        0
  | None => ret tt
  end >>
  (* Add dummy dll base *)
  let* b := pck32 0 in
  add_memory_page (peb_ldr_data_address + 0x24) b.

(** The part of [init_seh] that links the entries and fills the list
    heads: the three fixups, then [build_ldr_data]. *)
Definition link_loader_lists (main_pe_name : string)
  (modules_info : LoadedModules) : M unit :=
  fix_InLoadOrderModuleList main_pe_name modules_info >>
  fix_InMemoryOrderModuleList main_pe_name modules_info >>
  fix_InInitializationOrderModuleList main_pe_name modules_info >>
  build_ldr_data main_pe_name modules_info.

(** *** Descriptions used in the statements *)

(** The address that stands for the list head in the links of the
    entries, before the offset of the list is added. *)
Definition list_head : Z := peb_ldr_data_address + 0xC.

(** Memory after [set_link_list_entry] over the entries [es], in the
    order of the loop; [prev] is the entry before the first of [es]. *)
Fixpoint link_all (offset prev : Z) (es : list Z) (m : gmap Z byte)
  : gmap Z byte :=
  match es with
  | [] => m
  | e :: es' =>
      link_all offset e es'
        (write_bytes m (e + offset)
           (le32 (hd list_head es' + offset) ++ le32 (prev + offset)))
  end.

(** One registration: name, module, address of the module entry. *)
Definition reg_module (r : string * pe * Z) : pe := snd (fst r).
Definition reg_entry (r : string * pe * Z) : Z := snd r.

(** A registry as the sequence of its registrations. *)
Definition register_all (regs : list (string * pe * Z)) : LoadedModules :=
  fold_left (fun r '(name, module, entry) => add name module entry r)
            regs no_modules.

(** Reading a link as a guest would. *)
Definition read32 (m : gmap Z byte) (a : Z) : option Z :=
  if Mem.is_mapped m a 4 then Some (load32 m a) else None.

(** Traversal of a list from the link field [p]: follow the link at
    [p + link] ([link] = 0 forward, 4 backward) until the head's field
    [head] comes back; the result is the sequence of fields visited. *)
Fixpoint walk (m : gmap Z byte) (link head : Z) (fuel : nat) (p : Z)
  : option (list Z) :=
  match fuel with
  | O => None
  | S fuel' =>
      if p =? head then Some []
      else
        match read32 m (p + link) with
        | None => None
        | Some q => option_map (cons p) (walk m link head fuel' q)
        end
  end.

(** Traversal that starts with the head's own link. *)
Definition walk_from_head (m : gmap Z byte) (link head : Z) (fuel : nat)
  : option (list Z) :=
  match read32 m (head + link) with
  | None => None
  | Some q => walk m link head fuel q
  end.

(** Entries whose link fields (24 bytes each) are pairwise disjoint. *)
Fixpoint spaced (es : list Z) : bool :=
  match es with
  | [] => true
  | e :: es' =>
      forallb (fun e' => (e + 24 <=? e') || (e' + 24 <=? e)) es' && spaced es'
  end.

(** Registrations whose entries can be linked in memory [m]: distinct
    modules, link fields at 32-bit addresses in mapped memory, pairwise
    disjoint and away from the list heads of the loader data. *)
Definition entries_ready (regs : list (string * pe * Z)) (m : gmap Z byte)
  : bool :=
  bool_decide (NoDup (map reg_module regs))
  && forallb (fun r =>
                let e := reg_entry r in
                (0 <=? e) && (e + 24 <=? 4294967296)
                && Mem.is_mapped m e 24
                && ((e + 24 <=? list_head) || (list_head + 28 <=? e)))
             regs
  && spaced (map reg_entry regs).

(** Memory after [build_ldr_data] when the main module (entry [em]) and
    ntdll (entry [en]) are registered. *)
Definition ldr_data_mem (em en : Z) (m : gmap Z byte) : gmap Z byte :=
  let m := write_bytes m list_head (nuls 24) in
  let m := store32 m list_head em in
  let m := store32 m (list_head + 4) 0 in
  let m := store32 m (list_head + 8) (em + 8) in
  let m := store32 m (list_head + 12) 0 in
  let m := store32 m (list_head + 16) (en + 16) in
  let m := store32 m (list_head + 20) 0 in
  write_bytes m (list_head + 24) (le32 0).

(** The last entry of a list, the head when there is none. *)
Definition last_or_head (es : list Z) : Z := hd list_head (rev es).

(** The entries of the modules of a list. *)
Definition entries_of (modules_info : LoadedModules) (l : list pe) : list Z :=
  map (fun module => default 0 (module2entry modules_info !! module)) l.

(** The list that each fixup links. *)
Definition load_order (main_pe_name : string) (modules_info : LoadedModules)
  : list pe :=
  default (modules modules_info) (special_first main_pe_name modules_info).

Definition init_order (main_pe_name : string) (modules_info : LoadedModules)
  : list pe :=
  default (modules modules_info)
          (special_first_init main_pe_name modules_info).

(** The links of the entries [es] for the list at [offset], as memory
    [m] holds them: the forward link of each entry is the field of the
    next one and the backward link the field of the previous one, the
    head standing at both ends. *)
Definition links_at (m : gmap Z byte) (offset : Z) (es : list Z) : Prop :=
  forall i e, es !! i = Some e ->
    read32 m (e + offset)
      = Some (default list_head (es !! S i) + offset) /\
    read32 m (e + offset + 4)
      = Some (match i with
              | O => list_head
              | S i' => default list_head (es !! i')
              end + offset).

(** Two entries whose link fields do not overlap. *)
Definition far (a b : Z) : Prop := a + 24 <= b \/ b + 24 <= a.

(** An entry that [entries_ready] accepts. *)
Definition entry_ok (m : gmap Z byte) (e : Z) : Prop :=
  0 <= e /\ e + 24 <= 4294967296 /\
  Mem.is_mapped m e 24 = true /\
  (e + 24 <= list_head \/ list_head + 28 <= e).

(** Memory after the three fixups and [build_ldr_data] when the main
    module (entry [em]), ntdll (entry [en]) and kernel32 are registered. *)
Definition linked_mem (regs : list (string * pe * Z)) (j : jitter)
  (main ntdll kernel32 : pe) (em en : Z) : gmap Z byte :=
  let R := register_all regs in
  let others := without [main; kernel32; ntdll] (modules R) in
  let L0 := main :: ntdll :: kernel32 :: others in
  let L2 := ntdll :: kernel32 :: others in
  ldr_data_mem em en
    (link_all 16 list_head (entries_of R L2)
       (link_all 8 list_head (entries_of R L0)
          (link_all 0 list_head (entries_of R L0) (vm j)))).

(** What the claim asks of the three lists in memory [m]: the forward
    traversal from each head visits the fields of the list's members in
    order and comes back to the head, and the backward traversal from the
    head's back link visits them in reverse. *)
Definition lists_traversable (name : string) (R : LoadedModules)
  (m : gmap Z byte) (fuel : nat) : Prop :=
  Forall
    (fun '(offset, members) =>
       let fields := map (fun e => e + offset) (entries_of R members) in
       walk_from_head m 0 (list_head + offset) fuel = Some fields /\
       walk_from_head m 4 (list_head + offset) fuel = Some (rev fields))
    [(0, load_order name R); (8, load_order name R); (16, init_order name R)].

(** The same with the backward traversal entered at the last member
    instead of the head's back link. *)
Definition lists_linked (name : string) (R : LoadedModules)
  (m : gmap Z byte) (fuel : nat) : Prop :=
  Forall
    (fun '(offset, members) =>
       let es := entries_of R members in
       let fields := map (fun e => e + offset) es in
       NoDup fields /\
       walk_from_head m 0 (list_head + offset) fuel = Some fields /\
       walk m 4 (list_head + offset) fuel (last_or_head es + offset)
         = Some (rev fields))
    [(0, load_order name R); (8, load_order name R); (16, init_order name R)].

#[global] Instance lists_traversable_dec name R m fuel :
  Decision (lists_traversable name R m fuel).
Proof.
  unfold lists_traversable. apply Forall_dec. intros [offset members].
  apply _.
Defined.

End Loader.
(* ===================================================================== *)
(** ** Process environment, process parameters and init_seh              *)
(* ===================================================================== *)

Module Init.
Import Pack Mem Jit Layout Context Seh Loader.
Local Open Scope jit_scope.

(** *** add_process_env *)

Definition NUL : string := String (Ascii.ascii_of_nat 0) EmptyString.

(** [env_str] once joined and padded. *)
Definition env_str : list byte :=
  join_nul ("ALLUSEESPROFILE=C:\Documents and Settings\All Users" ++ NUL)
  ++ nuls 0x10.

Definition add_process_env : M unit :=
  add_memory_page process_environment_address env_str >>
  set_mem process_environment_address env_str.

(** *** add_process_parameters *)
Definition add_process_parameters : M unit :=
  let o := [] in
  let* b := pck32 0x1000 in
  let o := o ++ b in  (* size *)
  let o := o ++ repeat "E"%byte (Z.to_nat 0x48 - length o) in
  let* b := pck32 process_environment_address in
  let o := o ++ b in
  add_memory_page process_parameters_address o.

(** *** init_seh; the module globals [name2module] (a dictionary, given
    as the list of its items in iteration order), [main_pe] and
    [main_pe_name] are its arguments. *)

(** [seh_count = n] on the module global. *)
Definition set_seh_count (n : Z) : M unit :=
  fun j => (Ok tt, with_seh_count n j).

Definition init_seh (name2module : list (string * option pe))
  (main_pe : option pe) (main_pe_name : string) : M unit :=
  set_seh_count 0 >>
  build_teb FS_0_AD >>
  build_peb main_pe peb_address >>
  let* modules_info := create_modules_chain name2module in
  fix_InLoadOrderModuleList main_pe_name modules_info >>
  fix_InMemoryOrderModuleList main_pe_name modules_info >>
  fix_InInitializationOrderModuleList main_pe_name modules_info >>
  build_ldr_data main_pe_name modules_info >>
  add_process_env >>
  add_process_parameters.

(** *** Descriptions used in the statements *)

(** Memory after [build_teb] at [t]. *)
Definition teb_mem (t : Z) (m : gmap Z byte) : gmap Z byte :=
  let m := write_bytes m t (nuls 4) in
  let m := write_bytes m (t + 24) (nuls 4) in
  let m := write_bytes m (t + 48) (nuls 4) in
  let m := store32 m t DEFAULT_SEH in
  let m := store32 m (t + 24) t in
  store32 m (t + 48) peb_address.

(** Memory after [build_peb] at [a]. *)
Definition peb_mem (main_pe : option pe) (a : Z) (m : gmap Z byte)
  : gmap Z byte :=
  match main_pe with
  | Some main =>
      let m := write_bytes m (a + 8) (nuls 8) in
      let m := store32 m (a + 8) (ImageBase main) in
      store32 m (a + 12) peb_ldr_data_address
  | None =>
      let m := write_bytes m (a + 12) (nuls 4) in
      store32 m (a + 12) peb_ldr_data_address
  end.

(** Memory after [add_process_env] and [add_process_parameters]. *)
Definition process_mem (m : gmap Z byte) : gmap Z byte :=
  let m := write_bytes m process_environment_address env_str in
  let m := write_bytes m process_environment_address env_str in
  write_bytes m process_parameters_address
    (le32 0x1000 ++ repeat "E"%byte 68 ++ le32 process_environment_address).

(** The registrations that [create_modules_chain] makes of the items
    of a dictionary, counted from [i]: an item without image object is
    left out but counted. *)
Fixpoint registrations (base_addr i : Z) (items : list (string * option pe))
  : list (string * pe * Z) :=
  match items with
  | [] => []
  | (fname, None) :: items' => registrations base_addr (i + 1) items'
  | (fname, Some pe_obj) :: items' =>
      (lower (basename fname), pe_obj, base_addr + i * 0x1000)
        :: registrations base_addr (i + 1) items'
  end.

(** The registry with the registrations [regs] added to [R]. *)
Definition register_from (R : LoadedModules) (regs : list (string * pe * Z))
  : LoadedModules :=
  fold_left (fun r '(name, module, entry) => add name module entry r) regs R.

(** The name of a module as [create_modules_chain] stores it. *)
Definition bname_of (fname : string) : list byte :=
  join_nul (lower (basename fname)) ++ nuls 1.

(** The path of a module as [create_modules_chain] stores it. *)
Definition bpath_of (fname : string) : list byte :=
  join_nul (backslashes fname) ++ nuls 1 ++ nuls 3.

(** Memory after the module entry at [addr] has been created. *)
Definition module_mem (addr : Z) (fname : string) (x : pe) (m : gmap Z byte)
  : gmap Z byte :=
  let n := Z.of_nat (length (bname_of fname)) in
  let m := write_bytes m addr (nuls (Z.to_nat LdrDataEntry.Flags)) in
  let m := store32 m (addr + LdrDataEntry.DllBase) (ImageBase x) in
  let m := store32 m (addr + LdrDataEntry.EntryPoint)
             (AddressOfEntryPoint x) in
  let m := store32 m (addr + LdrDataEntry.SizeOfImage) (sizeofimage x) in
  let m := write_bytes m (addr + LdrDataEntry.FullDllName)
             [byte_of_Z n; byte_of_Z (n / 256)] in
  let m := write_bytes m (addr + LdrDataEntry.FullDllName + 2)
             [byte_of_Z (n + 2); byte_of_Z ((n + 2) / 256)] in
  let m := store32 m (addr + LdrDataEntry.FullDllName + 4) (addr + 0x600) in
  let m := write_bytes m (addr + LdrDataEntry.BaseDllName)
             [byte_of_Z n; byte_of_Z (n / 256)] in
  let m := write_bytes m (addr + LdrDataEntry.BaseDllName + 2)
             [byte_of_Z (n + 2); byte_of_Z ((n + 2) / 256)] in
  let m := store32 m (addr + LdrDataEntry.BaseDllName + 4) (addr + 0x500) in
  let m := write_bytes m (addr + 0x500) (bname_of fname ++ nuls 3) in
  write_bytes m (addr + 0x600) (bpath_of fname).

(** Memory after [create_modules_chain] over [items], counted from [i]. *)
Fixpoint created_mem (base_addr i : Z) (items : list (string * option pe))
  (m : gmap Z byte) : gmap Z byte :=
  match items with
  | [] => m
  | (fname, None) :: items' => created_mem base_addr (i + 1) items' m
  | (fname, Some x) :: items' =>
      created_mem base_addr (i + 1) items'
        (module_mem (base_addr + i * 0x1000) fname x m)
  end.

(** A created entry in memory [m]: its first 52 bytes are mapped and
    hold the three words that describe the image and the pointers to
    the path and to the name. *)
Definition entry_words (m : gmap Z byte) (e : Z) (x : pe) : Prop :=
  Mem.is_mapped m e 52 = true /\
  load32 m (e + 24) = ImageBase x /\
  load32 m (e + 28) = AddressOfEntryPoint x /\
  load32 m (e + 32) = sizeofimage x /\
  load32 m (e + 40) = e + 0x600 /\
  load32 m (e + 48) = e + 0x500.

(** An item whose entry can be created: the three words of the image
    object are 32-bit values, and the name and the path, as stored,
    end before the path and before the next entry. *)
Definition item_fits (it : string * option pe) : bool :=
  match it with
  | (fname, None) => true
  | (fname, Some x) =>
      in_u32 (ImageBase x) && in_u32 (AddressOfEntryPoint x)
      && in_u32 (sizeofimage x)
      && (Z.of_nat (length (bname_of fname)) + 3 <=? 0x100)
      && (Z.of_nat (length (bpath_of fname)) <=? 0xa00)
  end.

(** A dictionary that [create_modules_chain] can lay out. *)
Definition items_fit (items : list (string * option pe)) : bool :=
  forallb item_fits items && (Z.of_nat (length items) <=? MAX_MODULES).

(** An outcome that is not a failed lookup: the call returned a value
    that satisfies [P], or it raised the error of the memory or of
    [struct]. *)
Definition outcome {A} (P : A -> Prop) (r : result A * jitter) : Prop :=
  match fst r with
  | Ok a => P a
  | Raise RuntimeError | Raise StructError => True
  | Raise KeyError | Raise IndexError | Raise (NotImplementedError _) => False
  end.

Definition lookup_free {A} (r : result A * jitter) : Prop :=
  outcome (fun _ => True) r.

End Init.
(* ===================================================================== *)
(** ** A concrete machine state                                          *)
(* ===================================================================== *)

Module Sample.
Import Pack Mem Jit Seh Loader.

(** A register file as a guest could have it at a fault. *)
Definition sample_cpu : reg -> Z :=
  fun r =>
    match r with
    | GS => 0 | FS => 0x3b | ES => 0x23 | DS => 0x23
    | EDI => 0x7c910228 | ESI => 0xffffffff | EBX => 0x7ffdf000
    | EDX => 0x12ffb0 | ECX => 0xc0000005 | EAX => 0xdeadbeef
    | EBP => 0x12fff0 | EIP => 0x401000
    | CS => 0x1b | ESP => 0x12ff00 | SS => 0x23
    end.

(** A stack page filled with 0xcc, on which the guest has installed one
    SEH frame at 0x12ffe0 (previous = 0xffffffff, handler = 0x401500),
    and the TIB slot pointing to that frame. *)
Definition sample_vm : gmap Z byte :=
  let m := write_bytes ∅ 0x12f000 (repeat "204"%byte 4096) in
  let m := write_bytes m 0x12ffe0 (le32 0xffffffff ++ le32 0x401500) in
  write_bytes m tib_address (le32 0x12ffe0).

Definition sample_jitter : jitter :=
  mkJitter sample_cpu 1 sample_vm 1 0x401000 0 [].

(** A chain whose only frame names itself as its previous frame. *)
Definition cyclic_vm : gmap Z byte :=
  let m := write_bytes ∅ 0x12ffe0 (le32 0x12ffe0 ++ le32 0x401500) in
  write_bytes m tib_address (le32 0x12ffe0).

Definition cyclic_jitter : jitter :=
  mkJitter sample_cpu 0 cyclic_vm 0 0x401000 0 [].

(** Four image objects and the dictionary of their file names. *)
Definition app_pe : pe := mkPe 1 0x400000 0x1000 0x5000.
Definition ntdll_pe : pe := mkPe 2 0x7c900000 0x12c28 0xb2000.
Definition kernel32_pe : pe := mkPe 3 0x7c800000 0xb64e 0xf6000.
Definition foo_pe : pe := mkPe 4 0x10000000 0x1400 0x8000.

Definition sample_items : list (string * option pe) :=
  [("foo.dll"%string, Some foo_pe);
   ("kernel32.dll"%string, Some kernel32_pe);
   ("app.exe"%string, Some app_pe);
   ("ntdll.dll"%string, Some ntdll_pe)].

(** A jitter whose memory is empty. *)
Definition blank_jitter : jitter :=
  mkJitter (fun _ => 0) 0 ∅ 0 0 0 [].

(** The registrations that [create_modules_chain] makes of them, and the
    jitter it leaves. *)
Definition sample_regs : list (string * pe * Z) :=
  [("foo.dll"%string, foo_pe, 0x342f00);
   ("kernel32.dll"%string, kernel32_pe, 0x343f00);
   ("app.exe"%string, app_pe, 0x344f00);
   ("ntdll.dll"%string, ntdll_pe, 0x345f00)].

Definition sample_loaded : jitter :=
  snd (create_modules_chain sample_items blank_jitter).

(** The same with foo.dll alone. *)
Definition lonely_regs : list (string * pe * Z) :=
  [("foo.dll"%string, foo_pe, 0x342f00)].

Definition lonely_loaded : jitter :=
  snd (create_modules_chain [("foo.dll"%string, Some foo_pe)] blank_jitter).

End Sample.

(* ===================================================================== *)
(** ** Further concrete states                                           *)
(* ===================================================================== *)

Module MoreSamples.
Import Pack Mem Jit Layout Context Seh Loader Sample.
Local Open Scope jit_scope.

(** The sample state when a handler that does nothing but return has
    come back to the trampoline with [disposition] in EAX, after it has
    set the program counter of the context record to [eip]. *)
Definition at_return (disposition eip : Z) : jitter :=
  let j :=
    snd ((let* eh := fake_seh_handler EXCEPTION_ACCESS_VIOLATION in
          set_pc eh >> handler_plain_return disposition) sample_jitter) in
  with_vm (store32 (vm j) (frame_base sample_jitter + 0xfc + C.eip) eip) j.

(** The sample state with a stack pointer so low that the frame of a
    dispatch would start below the stack page. *)
Definition short_stack_jitter : jitter :=
  with_cpu (upd_reg ESP 0x12f100 sample_cpu) sample_jitter.

(** [j'] differs from [j] in the register file at most. *)
Definition same_but_cpu (j j' : jitter) : Prop :=
  vm j' = vm j /\ pc j' = pc j /\ logged j' = logged j /\
  seh_count j' = seh_count j /\ cpu_exception j' = cpu_exception j /\
  vm_exception j' = vm_exception j.

(** The sample state with a context record of which only the first
    160 bytes are mapped: the selectors and EDI can be read, ESI
    cannot. *)
Definition truncated_record : Z := 0x12ffff - 159.

End MoreSamples.
Module PackFacts.
Import Pack.

Lemma Z_of_byte_range b : 0 <= Z_of_byte b < 256.
Proof.
  unfold Z_of_byte. pose proof (Byte.to_N_bounded b) as H.
  split; [apply N2Z.is_nonneg|].
  apply N.lt_succ_r in H. change (N.succ 255) with 256%N in H.
  apply N2Z.inj_lt in H. exact H.
Qed.

Lemma Z_of_byte_of_Z z : Z_of_byte (byte_of_Z z) = z mod 256.
Proof.
  unfold byte_of_Z, Z_of_byte.
  assert (Hr : 0 <= z mod 256 < 256) by (apply Z.mod_pos_bound; lia).
  destruct (Byte.of_N (Z.to_N (z mod 256))) as [b|] eqn:E.
  - apply Byte.to_of_N in E. rewrite E. rewrite Z2N.id; lia.
  - apply Byte.of_N_None_iff in E. lia.
Qed.

Lemma byte_of_Z_of_byte b : byte_of_Z (Z_of_byte b) = b.
Proof.
  unfold byte_of_Z.
  pose proof (Z_of_byte_range b) as Hr.
  rewrite Z.mod_small by lia.
  unfold Z_of_byte. rewrite N2Z.id, Byte.of_to_N. reflexivity.
Qed.

Lemma length_le32 x : length (le32 x) = 4%nat.
Proof. reflexivity. Qed.

Lemma dec32_le32 x : 0 <= x < 4294967296 -> dec32 (le32 x) = x.
Proof.
  intros Hx. unfold dec32, le32, upck32.
  rewrite !Z_of_byte_of_Z.
  Z.div_mod_to_equations. lia.
Qed.

Lemma dec32_range bs : 0 <= dec32 bs < 4294967296.
Proof.
  unfold dec32, upck32.
  destruct bs as [|b0 [|b1 [|b2 [|b3 [|? ?]]]]]; try lia.
  pose proof (Z_of_byte_range b0). pose proof (Z_of_byte_range b1).
  pose proof (Z_of_byte_range b2). pose proof (Z_of_byte_range b3). lia.
Qed.

Lemma le32_dec32 bs : length bs = 4%nat -> le32 (dec32 bs) = bs.
Proof.
  intros Hl.
  destruct bs as [|b0 [|b1 [|b2 [|b3 [|? ?]]]]]; try discriminate.
  unfold dec32, upck32, le32.
  pose proof (Z_of_byte_range b0). pose proof (Z_of_byte_range b1).
  pose proof (Z_of_byte_range b2). pose proof (Z_of_byte_range b3).
  set (v := _ + _ + _ + _).
  assert (E0 : v mod 256 = Z_of_byte b0) by (subst v; Z.div_mod_to_equations; lia).
  assert (E1 : (v / 256) mod 256 = Z_of_byte b1) by (subst v; Z.div_mod_to_equations; lia).
  assert (E2 : (v / 65536) mod 256 = Z_of_byte b2) by (subst v; Z.div_mod_to_equations; lia).
  assert (E3 : (v / 16777216) mod 256 = Z_of_byte b3) by (subst v; Z.div_mod_to_equations; lia).
  clearbody v.
  assert (Hb : forall z b, z mod 256 = Z_of_byte b -> byte_of_Z z = b).
  { intros z b Hz. rewrite <- (byte_of_Z_of_byte b).
    unfold byte_of_Z. rewrite Hz.
    rewrite (Z.mod_small (Z_of_byte b)) by apply Z_of_byte_range.
    reflexivity. }
  rewrite (Hb _ _ E0), (Hb _ _ E1), (Hb _ _ E2), (Hb _ _ E3).
  reflexivity.
Qed.

Lemma pck32_Some x : 0 <= x < 4294967296 -> pck32 x = Some (le32 x).
Proof.
  intros Hx. unfold pck32, in_u32.
  destruct (Z.leb_spec 0 x), (Z.ltb_spec x 4294967296); simpl; try lia.
  reflexivity.
Qed.

Lemma upck32_Some bs : length bs = 4%nat -> upck32 bs = Some (dec32 bs).
Proof.
  intros Hl. unfold dec32.
  destruct bs as [|b0 [|b1 [|b2 [|b3 [|? ?]]]]]; try discriminate.
  reflexivity.
Qed.

End PackFacts.


Module MemFacts.
Import Pack PackFacts Mem.

Lemma lookup_write_bytes m a bs x :
  write_bytes m a bs !! x =
    if decide (a <= x < a + Z.of_nat (length bs))
    then bs !! Z.to_nat (x - a) else m !! x.
Proof.
  revert m a. induction bs as [|b bs IH]; intros m a; simpl.
  - case_decide; [lia | reflexivity].
  - rewrite IH. repeat case_decide; try lia.
    + replace (Z.to_nat (x - a)) with (S (Z.to_nat (x - (a + 1)))) by lia.
      reflexivity.
    + assert (x = a) by lia. subst x.
      rewrite Z.sub_diag. simpl. apply lookup_insert_eq.
    + apply lookup_insert_ne. lia.
Qed.

Lemma is_mapped_spec m a n :
  is_mapped m a n = true <->
  (forall x, a <= x < a + Z.of_nat n -> is_Some (m !! x)).
Proof.
  revert a. induction n as [|n IH]; intros a; simpl.
  - split; [intros _ x Hx; lia | reflexivity].
  - destruct (m !! a) eqn:E.
    + rewrite IH. split; intros H x Hx.
      * destruct (decide (x = a)) as [->|Hne]; [rewrite E; eauto|].
        apply H. lia.
      * apply H. lia.
    + split; [discriminate|]. intros H.
      destruct (H a ltac:(lia)) as [b Hb]. congruence.
Qed.

Lemma length_peek m a n : length (peek m a n) = n.
Proof. revert a. induction n; intros a; simpl; [reflexivity|]. now rewrite IHn. Qed.

Lemma lookup_peek m a n (i : nat) :
  (i < n)%nat ->
  peek m a n !! i = Some (default "000"%byte (m !! (a + Z.of_nat i))).
Proof.
  revert a i. induction n as [|n IH]; intros a i Hi; [lia|].
  destruct i as [|i]; simpl.
  - now rewrite Z.add_0_r.
  - rewrite IH by lia. do 3 f_equal. lia.
Qed.

Lemma read_bytes_mapped m a n :
  is_mapped m a n = true -> read_bytes m a n = Some (peek m a n).
Proof.
  revert a. induction n as [|n IH]; intros a; simpl; [reflexivity|].
  destruct (m !! a); [|discriminate].
  intros H. now rewrite IH.
Qed.

Lemma read_bytes_unmapped m a n :
  is_mapped m a n = false -> read_bytes m a n = None.
Proof.
  revert a. induction n as [|n IH]; intros a; simpl; [discriminate|].
  destruct (m !! a); [|reflexivity].
  intros H. now rewrite IH.
Qed.

Lemma peek_ext m1 m2 a n :
  (forall x, a <= x < a + Z.of_nat n -> m1 !! x = m2 !! x) ->
  peek m1 a n = peek m2 a n.
Proof.
  revert a. induction n as [|n IH]; intros a H; simpl; [reflexivity|].
  rewrite (H a) by lia. f_equal. apply IH. intros x Hx. apply H. lia.
Qed.

Lemma is_mapped_ext m1 m2 a n :
  (forall x, a <= x < a + Z.of_nat n -> is_Some (m1 !! x) -> is_Some (m2 !! x)) ->
  is_mapped m1 a n = true -> is_mapped m2 a n = true.
Proof.
  intros H. rewrite !is_mapped_spec. intros H1 x Hx. apply H; auto.
Qed.

Lemma is_mapped_sub m a n b k :
  is_mapped m a n = true ->
  a <= b -> b + Z.of_nat k <= a + Z.of_nat n ->
  is_mapped m b k = true.
Proof.
  rewrite !is_mapped_spec. intros H Hb Hk x Hx. apply H. lia.
Qed.

Lemma is_mapped_write_bytes m a bs b n :
  is_mapped m b n = true -> is_mapped (write_bytes m a bs) b n = true.
Proof.
  apply is_mapped_ext. intros x Hx [v Hv].
  rewrite lookup_write_bytes. case_decide; [|eauto].
  apply lookup_lt_is_Some. lia.
Qed.

Lemma is_mapped_written m a bs :
  is_mapped (write_bytes m a bs) a (length bs) = true.
Proof.
  apply is_mapped_spec. intros x Hx.
  rewrite lookup_write_bytes. case_decide; [|lia].
  apply lookup_lt_is_Some. lia.
Qed.

Lemma peek_write_bytes_disjoint m a bs b n :
  a + Z.of_nat (length bs) <= b \/ b + Z.of_nat n <= a ->
  peek (write_bytes m a bs) b n = peek m b n.
Proof.
  intros H. apply peek_ext. intros x Hx.
  rewrite lookup_write_bytes. case_decide; [lia | reflexivity].
Qed.

Lemma peek_write_bytes_sub m a bs k n :
  0 <= k -> k + Z.of_nat n <= Z.of_nat (length bs) ->
  peek (write_bytes m a bs) (a + k) n = take n (drop (Z.to_nat k) bs).
Proof.
  intros Hk Hn. apply list_eq. intros i.
  destruct (decide (i < n)%nat) as [Hi|Hi].
  - rewrite lookup_peek by assumption.
    rewrite lookup_write_bytes. case_decide; [|lia].
    rewrite lookup_take_lt by assumption. rewrite lookup_drop.
    replace (Z.to_nat (a + k + Z.of_nat i - a)) with (Z.to_nat k + i)%nat by lia.
    destruct (lookup_lt_is_Some_2 bs (Z.to_nat k + i)) as [v ->]; [lia|].
    reflexivity.
  - rewrite lookup_ge_None_2 by (rewrite length_peek; lia).
    rewrite lookup_take_ge by lia. reflexivity.
Qed.

Lemma peek_write_bytes_same m a bs :
  peek (write_bytes m a bs) a (length bs) = bs.
Proof.
  replace a with (a + 0) at 2 by lia.
  rewrite peek_write_bytes_sub by lia.
  simpl. rewrite drop_0. apply firstn_all.
Qed.

Lemma load32_store32_eq m a v :
  0 <= v < 4294967296 -> load32 (store32 m a v) a = v.
Proof.
  intros Hv. unfold load32, store32.
  change 4%nat with (length (le32 v)).
  rewrite peek_write_bytes_same. now apply dec32_le32.
Qed.

Lemma load32_write_bytes_disjoint m a bs b :
  a + Z.of_nat (length bs) <= b \/ b + 4 <= a ->
  load32 (write_bytes m a bs) b = load32 m b.
Proof.
  intros H. unfold load32. rewrite peek_write_bytes_disjoint; [reflexivity|lia].
Qed.

Lemma load32_store32_ne m a v b :
  a + 4 <= b \/ b + 4 <= a -> load32 (store32 m a v) b = load32 m b.
Proof.
  intros H. unfold store32. apply load32_write_bytes_disjoint. simpl. lia.
Qed.

Lemma load32_range m a : 0 <= load32 m a < 4294967296.
Proof. apply dec32_range. Qed.

Lemma lookup_store32_ne m a v x :
  x < a \/ a + 4 <= x -> store32 m a v !! x = m !! x.
Proof.
  intros H. unfold store32. rewrite lookup_write_bytes.
  case_decide; [simpl in *; lia | reflexivity].
Qed.

End MemFacts.


Module JitFacts.
Import Pack PackFacts Mem MemFacts Jit.
Local Open Scope jit_scope.

(** *** Equations used to run a computation step by step *)
Lemma bind_ret {A B} (a : A) (k : A -> M B) j : bind (ret a) k j = k a j.
Proof. reflexivity. Qed.

Lemma bind_bind {A B C} (m : M A) (f : A -> M B) (g : B -> M C) j :
  bind (bind m f) g j = bind m (fun x => bind (f x) g) j.
Proof. unfold bind. destruct (m j) as [[a|e] j']; reflexivity. Qed.

Lemma bind_ret_r {A} (m : M A) j : bind m ret j = m j.
Proof. unfold bind. destruct (m j) as [[a|e] j']; reflexivity. Qed.

Lemma bind_ok {A B} (m : M A) (k : A -> M B) j a j' :
  m j = (Ok a, j') -> bind m k j = k a j'.
Proof. intros H. unfold bind. now rewrite H. Qed.

Lemma bind_get_reg {B} r (k : Z -> M B) j :
  bind (get_reg r) k j = k (cpu j r) j.
Proof. reflexivity. Qed.

Lemma bind_set_reg {B} r v (k : unit -> M B) j :
  bind (set_reg r v) k j = k tt (with_cpu (upd_reg r v (cpu j)) j).
Proof. reflexivity. Qed.

Lemma bind_emit {B} l msg (k : unit -> M B) j :
  l <> DEBUG ->
  bind (emit l msg) k j = k tt (with_logged (logged j ++ [(l, msg)]) j).
Proof. destruct l; [congruence| |]; reflexivity. Qed.

Lemma bind_get_mem {B} a n (k : list byte -> M B) j :
  Mem.is_mapped (vm j) a n = true ->
  bind (get_mem a n) k j = k (peek (vm j) a n) j.
Proof.
  intros H. unfold bind, get_mem. now rewrite (read_bytes_mapped _ _ _ H).
Qed.

Lemma bind_set_mem {B} a bs (k : unit -> M B) j :
  Mem.is_mapped (vm j) a (length bs) = true ->
  bind (set_mem a bs) k j = k tt (with_vm (write_bytes (vm j) a bs) j).
Proof. intros H. unfold bind, set_mem. now rewrite H. Qed.

Lemma bind_get_field32 {B} a (k : Z -> M B) j :
  Mem.is_mapped (vm j) a 4 = true ->
  bind (get_field32 a) k j = k (load32 (vm j) a) j.
Proof.
  intros H. unfold get_field32. rewrite bind_bind, bind_get_mem by assumption.
  unfold upck32. rewrite upck32_Some by apply length_peek. reflexivity.
Qed.

Lemma get_field32_ok a j :
  Mem.is_mapped (vm j) a 4 = true ->
  get_field32 a j = (Ok (load32 (vm j) a), j).
Proof.
  intros H. rewrite <- (bind_ret_r (get_field32 a)).
  now rewrite bind_get_field32.
Qed.

Lemma bind_set_field32 {B} a v (k : unit -> M B) j :
  0 <= v < 4294967296 ->
  Mem.is_mapped (vm j) a 4 = true ->
  bind (set_field32 a v) k j = k tt (with_vm (store32 (vm j) a v) j).
Proof.
  intros Hv H. unfold set_field32, pck32. rewrite pck32_Some by assumption.
  rewrite bind_bind, bind_ret, bind_set_mem by assumption. reflexivity.
Qed.

Lemma bind_pck32 {B} v (k : list byte -> M B) j :
  0 <= v < 4294967296 -> bind (pck32 v) k j = k (le32 v) j.
Proof. intros Hv. unfold pck32. now rewrite pck32_Some. Qed.

Lemma bind_upck32 {B} bs (k : Z -> M B) j :
  length bs = 4%nat -> bind (upck32 bs) k j = k (dec32 bs) j.
Proof. intros Hl. unfold upck32. now rewrite upck32_Some. Qed.

Lemma wf_cpub_spec c : wf_cpub c = true <-> wf_cpu c.
Proof.
  unfold wf_cpub, wf_cpu. rewrite forallb_forall. split.
  - intros H r. specialize (H r).
    assert (Hin : In r all_regs) by (destruct r; simpl; tauto).
    apply H in Hin. apply andb_true_iff in Hin as [H1 H2].
    apply Z.leb_le in H1. apply Z.ltb_lt in H2. lia.
  - intros H r _. specialize (H r). apply andb_true_iff.
    split; [apply Z.leb_le | apply Z.ltb_lt]; lia.
Qed.

Lemma wf_cpu_u32 c r : wf_cpu c -> 0 <= c r < 4294967296.
Proof. intros H. specialize (H r). destruct r; simpl in H; lia. Qed.

Lemma upd_reg_eq r v c : upd_reg r v c r = v mod reg_modulus r.
Proof. unfold upd_reg. case_decide; [reflexivity|congruence]. Qed.

Lemma upd_reg_ne r r' v c : r <> r' -> upd_reg r v c r' = c r'.
Proof. intros H. unfold upd_reg. case_decide; [congruence|reflexivity]. Qed.

Lemma bind_add_memory_page {B} a bs (k : unit -> M B) j :
  bind (add_memory_page a bs) k j = k tt (with_vm (write_bytes (vm j) a bs) j).
Proof. reflexivity. Qed.

Lemma bind_emit_debug {B} msg (k : unit -> M B) j :
  bind (emit DEBUG msg) k j = k tt j.
Proof. reflexivity. Qed.

Lemma bind_set_pc {B} v (k : unit -> M B) j :
  bind (set_pc v) k j = k tt (with_pc v j).
Proof. reflexivity. Qed.

Lemma bind_is_mapped {B} a n (k : bool -> M B) j :
  bind (is_mapped a n) k j = k (Mem.is_mapped (vm j) a n) j.
Proof. reflexivity. Qed.

Lemma bind_unpack_II {B} bs (k : Z * Z -> M B) j :
  length bs = 8%nat ->
  bind (unpack_II bs) k j = k (dec32 (take 4 bs), dec32 (take 4 (drop 4 bs))) j.
Proof. intros Hl. unfold unpack_II. rewrite Hl. reflexivity. Qed.

Lemma bind_unpack_III {B} bs (k : Z * Z * Z -> M B) j :
  length bs = 12%nat ->
  bind (unpack_III bs) k j =
    k (dec32 (take 4 bs), dec32 (take 4 (drop 4 bs)),
       dec32 (take 4 (drop 8 bs))) j.
Proof. intros Hl. unfold unpack_III. rewrite Hl. reflexivity. Qed.

Lemma is_mapped_store32 m a v b n :
  Mem.is_mapped m b n = true -> Mem.is_mapped (store32 m a v) b n = true.
Proof. apply is_mapped_write_bytes. Qed.

(** Projections of an updated jitter. *)
Ltac jsimpl :=
  cbn [vm cpu pc cpu_exception vm_exception seh_count logged
       with_vm with_cpu with_pc with_logged with_seh_count
       with_vm_exception with_cpu_exception] in *.

(** Flatten the jitter record after a step. *)
Ltac jflat :=
  cbv delta [with_vm with_cpu with_pc with_logged with_seh_count
             with_vm_exception with_cpu_exception];
  cbn [vm cpu pc cpu_exception vm_exception seh_count logged].

(** A range stays mapped under writes. *)
Ltac mapped_tac :=
  jflat;
  repeat first [apply is_mapped_write_bytes | apply is_mapped_store32];
  try assumption.

End JitFacts.


(* ===================================================================== *)
(** ** Facts about the context marshaller                                *)
(* ===================================================================== *)

Module ContextFacts.
Import Pack PackFacts Mem MemFacts Jit JitFacts Layout Context.
Local Open Scope jit_scope.

Ltac unfold_ctx :=
  cbv [C.ContextFlags C.dr0 C.dr1 C.dr2 C.dr3 C.dr4 C.dr5 C.Float
       C.gs C.fs C.es C.ds C.edi C.esi C.ebx C.edx C.ecx C.eax C.ebp
       C.eip C.cs C.eflags C.esp C.ss C.sizeof field_offset] in *.

Lemma saved_context_mapped c m a b n :
  Mem.is_mapped m b n = true ->
  Mem.is_mapped (saved_context c m a) b n = true.
Proof. intros H. unfold saved_context. mapped_tac. Qed.

Lemma saved_context_outside c m a x :
  x < a \/ a + Z.of_nat C.sizeof <= x ->
  saved_context c m a !! x = m !! x.
Proof.
  intros H. unfold saved_context. unfold_ctx.
  repeat (rewrite lookup_store32_ne by lia).
  rewrite lookup_write_bytes. case_decide as Hd; [|reflexivity].
  rewrite repeat_length in Hd. lia.
Qed.

Lemma saved_context_peek c m a b n :
  b + Z.of_nat n <= a \/ a + Z.of_nat C.sizeof <= b ->
  peek (saved_context c m a) b n = peek m b n.
Proof.
  intros H. apply peek_ext. intros x Hx. apply saved_context_outside. lia.
Qed.

Lemma saved_context_reg c m a r :
  wf_cpu c -> load32 (saved_context c m a) (a + field_offset r) = c r.
Proof.
  intros Hwf. unfold saved_context.
  destruct r; unfold_ctx;
    repeat (rewrite load32_store32_ne by lia);
    rewrite load32_store32_eq by (apply wf_cpu_u32; assumption);
    reflexivity.
Qed.

Lemma saved_context_zero c m a f :
  In f zero_fields -> load32 (saved_context c m a) (a + f) = 0.
Proof.
  intros Hin. unfold saved_context.
  simpl in Hin.
  repeat (destruct Hin as [<-|Hin]); [..|contradiction]; unfold_ctx;
    repeat (rewrite load32_store32_ne by lia).
  1-6: rewrite load32_store32_eq by lia; reflexivity.
  unfold load32. rewrite peek_write_bytes_sub by (rewrite ?repeat_length; lia).
  reflexivity.
Qed.

Ltac ctx_side Hm :=
  lazymatch goal with
  | |- Mem.is_mapped _ _ _ = true =>
      mapped_tac; eapply is_mapped_sub;
      [exact Hm | unfold_ctx; lia | unfold_ctx; lia]
  | |- _ <= _ < _ => first [apply wf_cpu_u32; assumption | lia]
  end.

Lemma regs2ctxt_ok a j :
  wf_cpu (cpu j) ->
  Mem.is_mapped (vm j) a C.sizeof = true ->
  regs2ctxt a j = (Ok tt, with_vm (saved_context (cpu j) (vm j) a) j).
Proof.
  intros Hwf Hm. unfold regs2ctxt, field_of_reg.
  rewrite bind_set_mem by (rewrite repeat_length; exact Hm). jflat.
  repeat
    (first
       [ rewrite bind_bind
       | rewrite bind_get_reg
       | rewrite bind_set_field32 by ctx_side Hm ]; jflat).
  reflexivity.
Qed.

Lemma restored_regs_at m a c r :
  restored_regs m a c r = load32 m (a + field_offset r) mod reg_modulus r.
Proof.
  unfold restored_regs, all_regs. cbn [fold_left].
  destruct r;
    repeat (rewrite upd_reg_ne by discriminate);
    rewrite upd_reg_eq; reflexivity.
Qed.

Lemma ctxt2regs_ok a j :
  Mem.is_mapped (vm j) a C.sizeof = true ->
  ctxt2regs a j = (Ok tt, with_cpu (restored_regs (vm j) a (cpu j)) j).
Proof.
  intros Hm. unfold ctxt2regs, reg_of_field.
  repeat
    (first
       [ rewrite bind_bind
       | rewrite bind_set_reg
       | rewrite bind_get_field32 by ctx_side Hm ]; jflat).
  reflexivity.
Qed.

End ContextFacts.

(* ===================================================================== *)
(** ** Facts about the chain walker                                      *)
(* ===================================================================== *)

Module WalkerFacts.
Import Pack PackFacts Mem MemFacts Jit JitFacts Layout Seh.
Local Open Scope jit_scope.

Lemma with_logged_nil j : with_logged (logged j ++ []) j = j.
Proof. destruct j. unfold with_logged. cbn. now rewrite app_nil_r. Qed.

Lemma with_logged_app l1 l2 j :
  with_logged (logged (with_logged (logged j ++ l1) j) ++ l2)
              (with_logged (logged j ++ l1) j)
  = with_logged (logged j ++ l1 ++ l2) j.
Proof. unfold with_logged. cbn. now rewrite app_assoc. Qed.

Lemma load32_peek8 m a : dec32 (take 4 (peek m a 8)) = load32 m a.
Proof. reflexivity. Qed.

Lemma chain_stop_frames m k cur : (snd (chain_stop m k cur) <= k)%nat.
Proof.
  revert cur. induction k as [|k IH]; intros cur; cbn [chain_stop];
    [cbn; lia|].
  destruct (Mem.is_mapped m cur 8); cbn [negb snd]; [|lia].
  destruct (load32 m cur =? 0); cbn [snd]; [lia|].
  specialize (IH (load32 m cur)).
  destruct (chain_stop m k (load32 m cur)) as [e n]. cbn [snd] in *. lia.
Qed.

(** The loop leaves through one of its three exits as soon as the fuel
    exceeds the number of iterations that [loop > MAX_SEH] still allows,
    and it does what [chain_stop] says. *)
Lemma dump_seh_loop_run k : forall fuel cur indent loop j,
  k = Z.to_nat (MAX_SEH + 1 - loop) ->
  0 <= loop <= MAX_SEH + 1 ->
  (k < fuel)%nat ->
  dump_seh_loop fuel cur indent loop j =
    (Ok (Some (fst (chain_stop (vm j) k cur))),
     with_logged (logged j ++ walk_log (chain_stop (vm j) k cur)) j).
Proof.
  induction k as [|k IH]; intros fuel cur indent loop j Hk Hloop Hfuel;
    (destruct fuel as [|fuel]; [lia|]); cbn [dump_seh_loop chain_stop].
  - assert (Hl : (MAX_SEH <? loop) = true) by (apply Z.ltb_lt; lia).
    rewrite Hl. rewrite bind_emit by discriminate. reflexivity.
  - assert (Hl : (MAX_SEH <? loop) = false) by (apply Z.ltb_ge; lia).
    rewrite Hl. rewrite bind_is_mapped.
    destruct (Mem.is_mapped (vm j) cur 8) eqn:Hm; cbn [negb].
    + rewrite bind_get_mem by assumption.
      rewrite bind_unpack_II by apply length_peek.
      rewrite load32_peek8.
      rewrite bind_emit by discriminate.
      destruct (load32 (vm j) cur =? 0) eqn:Hz.
      * unfold ret, walk_log. cbn. reflexivity.
      * rewrite (IH fuel (load32 (vm j) cur) (indent + 1) (loop + 1)) by lia.
        cbn [vm with_logged].
        destruct (chain_stop (vm j) k (load32 (vm j) cur)) as [e n].
        unfold walk_log. cbn [fst snd repeat]. unfold with_logged. cbn.
        rewrite <- app_assoc. reflexivity.
    + unfold ret, walk_log. cbn. now rewrite with_logged_nil.
Qed.

Lemma dump_seh_walk_run fuel j :
  (dump_seh_fuel <= fuel)%nat ->
  Mem.is_mapped (vm j) tib_address 4 = true ->
  dump_seh_walk fuel j =
    let r := chain_stop (vm j) max_frames (load32 (vm j) tib_address) in
    (Ok (Some (fst r)),
     with_logged
       (logged j ++ (INFO, "Dump_seh. Tib_address: %x"%string) :: walk_log r)
       j).
Proof.
  intros Hfuel Hm. unfold dump_seh_walk.
  rewrite bind_emit by discriminate.
  rewrite bind_get_mem by exact Hm.
  rewrite bind_upck32 by apply length_peek.
  rewrite (dump_seh_loop_run max_frames); try reflexivity.
  - cbn [vm with_logged logged]. unfold with_logged. cbn.
    rewrite <- app_assoc. reflexivity.
  - unfold MAX_SEH. lia.
  - unfold dump_seh_fuel, max_frames, MAX_SEH in *. lia.
Qed.

Lemma dump_seh_walk_unmapped fuel j :
  Mem.is_mapped (vm j) tib_address 4 = false ->
  dump_seh_walk fuel j =
    (Raise RuntimeError,
     with_logged (logged j ++ [(INFO, "Dump_seh. Tib_address: %x"%string)]) j).
Proof.
  intros Hm. unfold dump_seh_walk.
  rewrite bind_emit by discriminate.
  unfold bind, get_mem. cbn [vm with_logged].
  now rewrite (read_bytes_unmapped _ _ _ Hm).
Qed.

(** The walker only logs. *)
Lemma dump_seh_ok j :
  Mem.is_mapped (vm j) tib_address 4 = true ->
  exists l, dump_seh j = (Ok tt, with_logged (logged j ++ l) j).
Proof.
  intros Hm. unfold dump_seh.
  unfold bind at 1. rewrite dump_seh_walk_run by (assumption || lia).
  cbv zeta. eexists. reflexivity.
Qed.

End WalkerFacts.

(* ===================================================================== *)
(** ** Facts about the dispatcher                                        *)
(* ===================================================================== *)

Module SehFacts.
Import Pack PackFacts Mem MemFacts Jit JitFacts Layout Context ContextFacts.
Import Seh WalkerFacts.
Local Open Scope jit_scope.

Lemma bind_incr_seh_count {B} (k : unit -> M B) j :
  bind incr_seh_count k j = k tt (with_seh_count (seh_count j + 1) j).
Proof. reflexivity. Qed.

Lemma bind_vm_set_exception {B} v (k : unit -> M B) j :
  bind (vm_set_exception v) k j = k tt (with_vm_exception v j).
Proof. reflexivity. Qed.

Lemma bind_cpu_set_exception {B} v (k : unit -> M B) j :
  bind (cpu_set_exception v) k j = k tt (with_cpu_exception v j).
Proof. reflexivity. Qed.

Lemma upd_reg_read32 r v c :
  reg_modulus r = 4294967296 -> 0 <= v < 4294967296 -> upd_reg r v c r = v.
Proof. intros Hr Hv. rewrite upd_reg_eq, Hr. now apply Z.mod_small. Qed.

Lemma bind_push_uint32_t {B} v (k : unit -> M B) j :
  0 <= v < 4294967296 ->
  4 <= cpu j ESP < 4294967296 ->
  Mem.is_mapped (vm j) (cpu j ESP - 4) 4 = true ->
  bind (push_uint32_t v) k j =
    k tt (with_vm (store32 (vm j) (cpu j ESP - 4) v)
            (with_cpu (upd_reg ESP (cpu j ESP - 4) (cpu j)) j)).
Proof.
  intros Hv Hsp Hm. unfold push_uint32_t.
  rewrite !bind_bind, bind_get_reg, bind_bind, bind_set_reg, bind_bind.
  rewrite bind_get_reg. cbn [cpu with_cpu].
  rewrite upd_reg_read32 by (reflexivity || lia).
  rewrite bind_bind, bind_pck32 by assumption.
  rewrite bind_set_mem by (cbn [vm with_cpu]; exact Hm).
  reflexivity.
Qed.

(** The parts of [dispatch_ready]. *)
Lemma dispatch_ready_spec j :
  dispatch_ready j = true ->
  wf_cpu (cpu j) /\
  16 <= frame_base j /\
  Mem.is_mapped (vm j) (frame_base j - 16) 0x1d8 = true /\
  Mem.is_mapped (vm j) tib_address 4 = true /\
  Mem.is_mapped (vm j) (load32 (vm j) tib_address) 12 = true /\
  (tib_address + 4 <= frame_base j - 16 \/ frame_base j + 0x1c8 <= tib_address).
Proof.
  unfold dispatch_ready. cbv zeta.
  rewrite !andb_true_iff, orb_true_iff, !Z.leb_le, wf_cpub_spec. tauto.
Qed.

Lemma fake_seh_handler_ok code j :
  dispatch_ready j = true ->
  0 <= code < 4294967296 ->
  exists eh l,
    fake_seh_handler code j =
      (Ok eh,
       mkJitter (dispatch_cpu (cpu j)) 0 (dispatch_mem code (cpu j) (vm j)) 0
                (pc j) (seh_count j + 1) l).
Proof.
  intros Hready Hcode.
  destruct (dispatch_ready_spec j Hready)
    as (Hwf & Hbase & Hframe & Htib & Hseh & Hdisj).
  unfold frame_base in *.
  pose proof (wf_cpu_u32 _ ESP Hwf) as Hesp.
  pose proof (wf_cpu_u32 _ EIP Hwf) as Heip.
  set (base := cpu j ESP - 0x3c8) in *.
  assert (Hctx : Mem.is_mapped (vm j) (base + 0xfc) C.sizeof = true).
  { eapply is_mapped_sub; [exact Hframe | lia | unfold_ctx; lia]. }
  assert (Hhead : load32 (saved_context (cpu j) (vm j) (base + 0xfc)) tib_address
                  = load32 (vm j) tib_address).
  { unfold load32. rewrite saved_context_peek; [reflexivity|].
    unfold_ctx. lia. }
  set (m1 := saved_context (cpu j) (vm j) (base + 0xfc)) in *.
  assert (Hseh1 : Mem.is_mapped m1 (load32 m1 tib_address) 12 = true).
  { rewrite Hhead. apply saved_context_mapped. exact Hseh. }
  assert (Htib1 : Mem.is_mapped m1 tib_address 4 = true)
    by (apply saved_context_mapped; exact Htib).
  assert (Hframe1 : Mem.is_mapped m1 (base - 16) 0x1d8 = true)
    by (apply saved_context_mapped; exact Hframe).
  pose proof (load32_range m1 tib_address) as Hsehr.
  pose (side_mapped := fun (a : Z) (n : nat) =>
          Mem.is_mapped m1 a n = true).
  assert (Hsub : forall a n, base - 16 <= a ->
                   a + Z.of_nat n <= base + 0x1c8 ->
                   Mem.is_mapped m1 a n = true).
  { intros a n Ha Hn. eapply is_mapped_sub; [exact Hframe1 | lia | lia]. }
  clear side_mapped.
  assert (Hsub0 : forall a n, base - 16 <= a ->
                    a + Z.of_nat n <= base + 0x1c8 ->
                    Mem.is_mapped (vm j) a n = true).
  { intros a n Ha Hn. eapply is_mapped_sub; [exact Hframe | lia | lia]. }
  eexists _, _.
  unfold fake_seh_handler.
  rewrite bind_emit by discriminate.
  rewrite bind_incr_seh_count, bind_get_reg. jflat. fold base.
  cbv zeta. fold base.
  erewrite bind_ok by (apply regs2ctxt_ok; [exact Hwf | exact Hctx]).
  jflat. fold m1.
  rewrite bind_get_mem by exact Htib1.
  rewrite bind_upck32 by apply length_peek.
  fold (load32 m1 tib_address). jflat.
  rewrite bind_get_mem by exact Hseh1.
  rewrite bind_unpack_III by apply length_peek.
  cbv beta iota.
  rewrite bind_emit by discriminate.
  rewrite bind_set_reg. jflat.
  rewrite bind_pck32 by exact Hcode.
  rewrite !bind_pck32 by lia.
  rewrite bind_get_reg. jflat.
  rewrite upd_reg_ne by discriminate.
  rewrite bind_pck32 by exact Heip.
  rewrite bind_pck32 by lia.
  rewrite bind_set_mem by (jflat; apply Hsub; cbn [length app le32]; lia).
  jflat.
  (* the four pushes *)
  rewrite bind_push_uint32_t;
    [ jflat; rewrite ?upd_reg_read32 by (reflexivity || lia)
    | first [lia | apply load32_range]
    | jflat; rewrite ?upd_reg_read32 by (reflexivity || lia); lia
    | jflat; rewrite ?upd_reg_read32 by (reflexivity || lia);
      mapped_tac; first [apply Hsub; lia | apply Hsub0; lia] ].
  rewrite bind_push_uint32_t;
    [ jflat; rewrite ?upd_reg_read32 by (reflexivity || lia)
    | first [lia | apply load32_range]
    | jflat; rewrite ?upd_reg_read32 by (reflexivity || lia); lia
    | jflat; rewrite ?upd_reg_read32 by (reflexivity || lia);
      mapped_tac; first [apply Hsub; lia | apply Hsub0; lia] ].
  rewrite bind_push_uint32_t;
    [ jflat; rewrite ?upd_reg_read32 by (reflexivity || lia)
    | first [lia | apply load32_range]
    | jflat; rewrite ?upd_reg_read32 by (reflexivity || lia); lia
    | jflat; rewrite ?upd_reg_read32 by (reflexivity || lia);
      mapped_tac; first [apply Hsub; lia | apply Hsub0; lia] ].
  rewrite bind_push_uint32_t;
    [ jflat; rewrite ?upd_reg_read32 by (reflexivity || lia)
    | unfold return_from_exception; lia
    | jflat; rewrite ?upd_reg_read32 by (reflexivity || lia); lia
    | jflat; rewrite ?upd_reg_read32 by (reflexivity || lia);
      mapped_tac; first [apply Hsub; lia | apply Hsub0; lia] ].
  replace (base - 4 - 4 - 4 - 4) with (base - 16) by lia.
  replace (base - 4 - 4 - 4) with (base - 12) by lia.
  replace (base - 4 - 4) with (base - 8) by lia.
  rewrite bind_emit by discriminate. jflat.
  rewrite bind_pck32 by apply load32_range.
  rewrite !bind_pck32 by lia.
  rewrite bind_set_mem
    by (mapped_tac; first [apply Hsub | apply Hsub0];
        cbn [length app le32]; lia).
  jflat.
  rewrite bind_pck32 by lia.
  rewrite bind_set_mem by (mapped_tac; first [exact Htib1 | exact Htib]).
  jflat.
  unfold dump_seh. rewrite bind_bind.
  erewrite bind_ok
    by (apply dump_seh_walk_run;
        [ lia | mapped_tac; apply is_mapped_written ]).
  cbv zeta. jflat.
  rewrite bind_ret.
  rewrite bind_emit by discriminate.
  rewrite bind_vm_set_exception, bind_cpu_set_exception, bind_set_reg.
  jflat.
  unfold ret, dispatch_cpu, dispatch_mem. cbv zeta. fold base. fold m1.
  unfold store32. reflexivity.
Qed.

(** *** Memory after a dispatch *)

Section DispatchMem.
Variables (code : Z) (c : reg -> Z) (m : gmap Z byte).
Let base := c ESP - 0x3c8.
Hypothesis Hwf : wf_cpu c.
Hypothesis Hbase : 16 <= base.
Hypothesis Hdisj :
  tib_address + 4 <= base - 16 \/ base + 0x1c8 <= tib_address.

Local Lemma Hesp : 0 <= c ESP < 4294967296.
Proof. apply wf_cpu_u32; assumption. Qed.

Ltac peel :=
  repeat (rewrite load32_write_bytes_disjoint
            by (cbn [length app le32]; pose proof Hesp; subst base; lia)).

Lemma dispatch_mem_head_saved :
  load32 (saved_context c m (base + 0xfc)) tib_address = load32 m tib_address.
Proof.
  unfold load32. rewrite saved_context_peek; [reflexivity|].
  unfold_ctx. subst base. lia.
Qed.

Lemma dispatch_mem_mapped a n :
  Mem.is_mapped m a n = true ->
  Mem.is_mapped (dispatch_mem code c m) a n = true.
Proof.
  intros H. unfold dispatch_mem. cbv zeta. mapped_tac.
Qed.

Lemma dispatch_mem_tib :
  load32 (dispatch_mem code c m) tib_address = base + 0x14.
Proof.
  unfold dispatch_mem. cbv zeta. fold base.
  apply load32_store32_eq. pose proof Hesp. subst base. lia.
Qed.

Lemma dispatch_mem_fake_prev :
  load32 (dispatch_mem code c m) (base + 0x14) = load32 m tib_address.
Proof.
  unfold dispatch_mem. cbv zeta. fold base. peel.
  unfold load32 at 1.
  replace (base + 0x14) with (base + 0x14 + 0) at 2 by lia.
  rewrite peek_write_bytes_sub by (cbn [length app le32]; lia).
  cbn [Z.to_nat drop take app le32].
  rewrite <- dispatch_mem_head_saved.
  apply (dec32_le32 (load32 (saved_context c m (base + 0xfc)) tib_address)).
  apply load32_range.
Qed.

Lemma dispatch_mem_arg_context :
  load32 (dispatch_mem code c m) (base - 4) = base + 0xfc.
Proof.
  unfold dispatch_mem. cbv zeta. fold base. peel.
  apply load32_store32_eq. pose proof Hesp. subst base. lia.
Qed.

Lemma dispatch_mem_return_address :
  load32 (dispatch_mem code c m) (base - 16) = return_from_exception.
Proof.
  unfold dispatch_mem. cbv zeta. fold base. peel.
  apply load32_store32_eq. unfold return_from_exception. lia.
Qed.

Lemma dispatch_mem_context r :
  load32 (dispatch_mem code c m) (base + 0xfc + field_offset r) = c r.
Proof.
  unfold dispatch_mem. cbv zeta. fold base.
  assert (Hr : 0 <= field_offset r <= 200) by (destruct r; unfold_ctx; lia).
  peel. apply saved_context_reg. exact Hwf.
Qed.

Lemma dispatch_mem_record_at k :
  0 <= k <= 16 ->
  load32 (dispatch_mem code c m) (base + 0xe8 + k) =
    dec32 (take 4 (drop (Z.to_nat k)
                     (le32 code ++ le32 0 ++ le32 0 ++ le32 (c EIP) ++ le32 0))).
Proof.
  intros Hk. unfold dispatch_mem. cbv zeta. fold base. peel.
  unfold load32.
  rewrite peek_write_bytes_sub by (cbn [length app le32]; lia).
  reflexivity.
Qed.

(** The five words of the exception record. *)
Lemma dispatch_mem_record :
  0 <= code < 4294967296 ->
  map (fun i => load32 (dispatch_mem code c m) (base + 0xe8 + 4 * i))
      [0; 1; 2; 3; 4]
  = [code; 0; 0; c EIP; 0].
Proof.
  intros Hcode. pose proof (wf_cpu_u32 _ EIP Hwf) as Heip.
  cbn [map]. rewrite !dispatch_mem_record_at by lia.
  change (Z.to_nat (4 * 0)) with 0%nat. change (Z.to_nat (4 * 1)) with 4%nat.
  change (Z.to_nat (4 * 2)) with 8%nat. change (Z.to_nat (4 * 3)) with 12%nat.
  change (Z.to_nat (4 * 4)) with 16%nat.
  cbn [drop take app le32].
  fold (le32 code) (le32 (c EIP)) (le32 0).
  rewrite (dec32_le32 code Hcode), (dec32_le32 (c EIP) Heip).
  rewrite (dec32_le32 0) by lia. reflexivity.
Qed.

End DispatchMem.

(** *** The resume transition *)

Lemma return_from_seh_prefix j :
  let esp := cpu j ESP in
  let ctx := load32 (vm j) (esp + 8) in
  let old_seh := load32 (vm j) tib_address in
  let new_seh := load32 (vm j) old_seh in
  Mem.is_mapped (vm j) (esp + 8) 4 = true ->
  Mem.is_mapped (vm j) (ctx + 0xc4) 4 = true ->
  Mem.is_mapped (vm j) tib_address 4 = true ->
  Mem.is_mapped (vm j) old_seh 4 = true ->
  exists l,
    return_from_seh j =
      resume_branch ctx
        (mkJitter (upd_reg ESP (load32 (vm j) (ctx + 0xc4)) (cpu j))
                  (cpu_exception j)
                  (store32 (vm j) tib_address new_seh)
                  (vm_exception j) (pc j) (seh_count j) l).
Proof.
  intros esp ctx old_seh new_seh Harg Hctx Htib Hold.
  eexists. unfold return_from_seh.
  rewrite bind_get_reg. fold esp.
  rewrite bind_get_mem by exact Harg.
  rewrite bind_upck32 by apply length_peek.
  fold (load32 (vm j) (esp + 8)). fold ctx.
  rewrite bind_emit by discriminate. jflat.
  rewrite bind_get_mem by exact Hctx.
  rewrite bind_upck32 by apply length_peek.
  fold (load32 (vm j) (ctx + 0xc4)).
  rewrite bind_set_reg. jflat.
  rewrite bind_emit by discriminate. jflat.
  rewrite bind_get_mem by exact Htib.
  rewrite bind_upck32 by apply length_peek.
  fold (load32 (vm j) tib_address). fold old_seh.
  rewrite bind_get_mem by exact Hold.
  rewrite bind_upck32 by apply length_peek.
  fold (load32 (vm j) old_seh). fold new_seh.
  rewrite bind_emit by discriminate. jflat.
  rewrite bind_pck32 by apply load32_range.
  rewrite bind_set_mem by exact Htib. jflat.
  unfold dump_seh. rewrite bind_bind.
  erewrite bind_ok
    by (apply dump_seh_walk_run; [lia | mapped_tac]).
  cbv zeta. jflat. rewrite bind_ret.
  unfold resume_branch, store32. reflexivity.
Qed.

Lemma resume_branch_continue ctx j :
  cpu j EAX = 0 ->
  Mem.is_mapped (vm j) ctx C.sizeof = true ->
  exists l,
    resume_branch ctx j =
      (Ok tt,
       mkJitter (restored_regs (vm j) ctx (cpu j)) (cpu_exception j) (vm j)
                (vm_exception j) (restored_regs (vm j) ctx (cpu j) EIP)
                (seh_count j) l).
Proof.
  intros Heax Hm. eexists. unfold resume_branch.
  rewrite bind_get_reg, Heax. cbn [Z.eqb].
  rewrite bind_emit by discriminate.
  erewrite bind_ok by (apply ctxt2regs_ok; jflat; exact Hm).
  jflat.
  rewrite bind_get_reg. jflat.
  rewrite bind_set_pc. jflat.
  rewrite bind_emit by discriminate. reflexivity.
Qed.

Lemma resume_branch_search ctx j :
  cpu j EAX = 1 ->
  resume_branch ctx j = (Raise (NotImplementedError "-> seh, gameover"), j).
Proof.
  intros Heax. unfold resume_branch.
  rewrite bind_get_reg, Heax. cbn [Z.eqb Pos.eqb].
  rewrite bind_get_reg, Heax. cbn [Z.eqb Pos.eqb].
  rewrite bind_get_reg, Heax. cbn [Z.eqb Pos.eqb].
  reflexivity.
Qed.

Lemma resume_branch_other ctx j :
  cpu j EAX <> 0 -> cpu j EAX <> -1 -> cpu j EAX <> 1 ->
  resume_branch ctx j = (Ok tt, j).
Proof.
  intros H0 Hm1 H1. unfold resume_branch.
  apply Z.eqb_neq in H0, Hm1, H1.
  rewrite bind_get_reg, H0, bind_get_reg, Hm1, bind_get_reg, H1.
  reflexivity.
Qed.

Lemma handler_plain_return_ok disposition j :
  Mem.is_mapped (vm j) (cpu j ESP) 4 = true ->
  let ra := load32 (vm j) (cpu j ESP) in
  handler_plain_return disposition j =
    (Ok tt,
     mkJitter
       (upd_reg EIP ra
          (upd_reg ESP (cpu j ESP + 4) (upd_reg EAX disposition (cpu j))))
       (cpu_exception j) (vm j) (vm_exception j) ra (seh_count j) (logged j)).
Proof.
  intros Hm ra. unfold handler_plain_return.
  rewrite bind_set_reg, bind_get_reg. jflat.
  rewrite upd_reg_ne by discriminate.
  rewrite bind_get_mem by exact Hm.
  rewrite bind_upck32 by apply length_peek.
  fold (load32 (vm j) (cpu j ESP)). fold ra.
  rewrite bind_set_reg, bind_set_reg. jflat.
  reflexivity.
Qed.

Ltac jflat_in H :=
  cbv delta [with_vm with_cpu with_pc with_logged with_seh_count
             with_vm_exception with_cpu_exception] in H;
  cbn [vm cpu pc cpu_exception vm_exception seh_count logged] in H.

Lemma dispatch_cpu_ESP c :
  wf_cpu c -> 16 <= c ESP - 0x3c8 -> dispatch_cpu c ESP = c ESP - 0x3c8 - 16.
Proof.
  intros Hwf Hbase. pose proof (wf_cpu_u32 _ ESP Hwf).
  unfold dispatch_cpu. cbv zeta.
  rewrite upd_reg_ne by discriminate.
  apply upd_reg_read32; [reflexivity | lia].
Qed.

(** One fault, from the dispatch to the test of the disposition. *)
Lemma dispatch_and_return_run code disposition j :
  dispatch_ready j = true ->
  0 <= code < 4294967296 ->
  exists l,
    dispatch_and_return code disposition j =
      resume_branch (frame_base j + 0xfc)
        (mkJitter (upd_reg ESP (cpu j ESP) (returned_cpu disposition (cpu j)))
                  0 (resumed_mem code (cpu j) (vm j)) 0
                  return_from_exception (seh_count j + 1) l).
Proof.
  intros Hready Hcode.
  destruct (fake_seh_handler_ok code j Hready Hcode) as (eh & l & Hd).
  destruct (dispatch_ready_spec j Hready)
    as (Hwf & Hbase & Hframe & Htib & Hseh & Hdisj).
  unfold frame_base in *.
  pose proof (wf_cpu_u32 _ ESP Hwf) as Hesp.
  set (base := cpu j ESP - 0x3c8) in *.
  set (dm := dispatch_mem code (cpu j) (vm j)) in *.
  assert (Hsub : forall a n, base - 16 <= a ->
                   a + Z.of_nat n <= base + 0x1c8 ->
                   Mem.is_mapped dm a n = true).
  { intros a n Ha Hn. apply dispatch_mem_mapped.
    eapply is_mapped_sub; [exact Hframe | lia | lia]. }
  assert (E0 : dispatch_cpu (cpu j) ESP = base - 16)
    by (apply dispatch_cpu_ESP; assumption).
  assert (E1 : load32 dm (base - 16) = return_from_exception)
    by (apply dispatch_mem_return_address; assumption).
  assert (E2 : load32 dm (base - 4) = base + 0xfc)
    by (apply dispatch_mem_arg_context; assumption).
  assert (E3 : load32 dm (base + 0xfc + 196) = cpu j ESP)
    by (apply (dispatch_mem_context code (cpu j) (vm j)) with (r := ESP);
        assumption).
  assert (E4 : load32 dm tib_address = base + 0x14)
    by (apply dispatch_mem_tib; assumption).
  assert (E5 : load32 dm (base + 0x14) = load32 (vm j) tib_address)
    by (apply dispatch_mem_fake_prev; assumption).
  unfold dispatch_and_return.
  rewrite (bind_ok _ _ _ _ _ Hd). rewrite bind_set_pc. jflat.
  erewrite bind_ok
    by (apply handler_plain_return_ok; jflat; rewrite E0; apply Hsub; lia).
  cbv zeta. jflat. rewrite E0, E1.
  unfold at_trampoline. jflat. rewrite Z.eqb_refl.
  match goal with
  | |- context [return_from_seh ?jh] =>
      pose proof (return_from_seh_prefix jh) as Hr
  end.
  cbv zeta in Hr. jflat_in Hr.
  rewrite (upd_reg_ne EIP ESP) in Hr by discriminate.
  rewrite (upd_reg_read32 ESP) in Hr by (reflexivity || lia).
  replace (base - 16 + 4 + 8) with (base - 4) in Hr by lia.
  rewrite E2, E3, E4, E5 in Hr.
  destruct Hr as [l' Hr].
  - apply Hsub; lia.
  - apply Hsub; unfold_ctx; lia.
  - apply dispatch_mem_mapped; exact Htib.
  - apply Hsub; lia.
  - exists l'. rewrite Hr. unfold returned_cpu, resumed_mem. cbv zeta.
    fold base. fold dm.
    replace (base - 16 + 4) with (base - 12) by lia. reflexivity.
Qed.

End SehFacts.

(* ===================================================================== *)
(** ** Facts about the loader lists                                      *)
(* ===================================================================== *)

Module LoaderFacts.
Import Pack PackFacts Mem MemFacts Jit JitFacts Layout Seh Loader.
Local Open Scope jit_scope.

Lemma bind_entry_of {B} R x e (k : Z -> M B) j :
  module2entry R !! x = Some e -> bind (entry_of R x) k j = k e j.
Proof. intros H. unfold entry_of. now rewrite H. Qed.

Lemma bind_item {B} (l : list pe) i x (k : pe -> M B) j :
  l !! Z.to_nat i = Some x -> bind (item l i) k j = k x j.
Proof. intros H. unfold item. now rewrite H. Qed.

Lemma list_head_value : list_head = 3415724.
Proof. reflexivity. Qed.

(** *** One run of [set_link_list_entry] *)
Section Linking.
Variables (R : LoadedModules) (offset : Z) (L : list pe) (es : list Z).
Hypothesis HF : Forall2 (fun x e => module2entry R !! x = Some e) L es.
Hypothesis Hoff : 0 <= offset <= 16.
Hypothesis Hrange : Forall (fun e => 0 <= e /\ e + 24 <= 4294967296) es.

Lemma range_at i e :
  es !! i = Some e -> 0 <= e /\ e + 24 <= 4294967296.
Proof. intros He. exact (Forall_lookup_1 _ _ _ _ Hrange He). Qed.

Lemma linked_item idx :
  (idx < length L)%nat ->
  exists y ey,
    L !! idx = Some y /\ es !! idx = Some ey /\
    module2entry R !! y = Some ey /\ 0 <= ey /\ ey + 24 <= 4294967296.
Proof.
  intros Hidx.
  destruct (lookup_lt_is_Some_2 L idx Hidx) as [y Hy].
  destruct (Forall2_lookup_l _ _ _ _ _ HF Hy) as (ey & Hey & Hyey).
  exists y, ey. pose proof (range_at _ _ Hey). tauto.
Qed.

Lemma link_entry_ok (i : nat) x e j :
  L !! i = Some x ->
  es !! i = Some e ->
  Mem.is_mapped (vm j) (e + offset) 8 = true ->
  link_entry L R offset (Z.of_nat i) x j =
    (Ok tt,
     with_vm
       (write_bytes (vm j) (e + offset)
          (le32 (default list_head (es !! S i) + offset)
           ++ le32 (match i with
                    | O => list_head
                    | S i' => default list_head (es !! i')
                    end + offset)))
       j).
Proof.
  intros Hx He Hm.
  pose proof (lookup_lt_Some _ _ _ Hx) as Hi.
  pose proof (Forall2_length _ _ _ HF) as Hlen.
  destruct (Forall2_lookup_l _ _ _ _ _ HF Hx) as (e' & He' & Hxe).
  assert (e' = e) by congruence. subst e'.
  pose proof (range_at _ _ He) as Hre.
  pose proof list_head_value as Hh.
  set (n := length L) in *.
  (* the previous module of the loop *)
  assert (Hp : exists y ey,
             L !! Z.to_nat ((Z.of_nat i - 1) mod Z.of_nat n) = Some y /\
             module2entry R !! y = Some ey /\
             (match i with
              | O => True
              | S i' => es !! i' = Some ey
              end) /\ 0 <= ey /\ ey + 24 <= 4294967296).
  { destruct i as [|i'].
    - replace ((Z.of_nat 0 - 1) mod Z.of_nat n) with (Z.of_nat n - 1)
        by (apply Z.mod_unique with (q := -1); lia).
      destruct (linked_item (n - 1)) as (y & ey & Hy & _ & Hyey & Hr);
        [lia|].
      exists y, ey. replace (Z.to_nat (Z.of_nat n - 1)) with (n - 1)%nat by lia.
      tauto.
    - rewrite Z.mod_small by lia.
      destruct (linked_item i') as (y & ey & Hy & Hey & Hyey & Hr); [lia|].
      exists y, ey. replace (Z.to_nat (Z.of_nat (S i') - 1)) with i' by lia.
      tauto. }
  (* the next module of the loop *)
  assert (Hn : exists y ey,
             L !! Z.to_nat ((Z.of_nat i + 1) mod Z.of_nat n) = Some y /\
             module2entry R !! y = Some ey /\
             (S i < n -> es !! S i = Some ey)%nat /\
             0 <= ey /\ ey + 24 <= 4294967296).
  { destruct (decide (S i < n)%nat) as [Hlt|Hge].
    - rewrite Z.mod_small by lia.
      destruct (linked_item (S i)) as (y & ey & Hy & Hey & Hyey & Hr); [lia|].
      exists y, ey. replace (Z.to_nat (Z.of_nat i + 1)) with (S i) by lia.
      tauto.
    - replace ((Z.of_nat i + 1) mod Z.of_nat n) with 0
        by (apply Z.mod_unique with (q := 1); lia).
      destruct (linked_item 0) as (y & ey & Hy & _ & Hyey & Hr); [lia|].
      exists y, ey. change (Z.to_nat 0) with 0%nat.
      repeat split; try tauto; try lia. }
  destruct Hp as (yp & ep & Hyp & Hyep & Hep & Hrp).
  destruct Hn as (yn & en & Hyn & Hyen & Hen & Hrn).
  unfold link_entry. cbv zeta. fold n.
  rewrite (bind_entry_of _ _ _ _ _ Hxe).
  rewrite (bind_item _ _ _ _ _ Hyp), (bind_item _ _ _ _ _ Hyn).
  rewrite (bind_entry_of _ _ _ _ _ Hyep), (bind_entry_of _ _ _ _ _ Hyen).
  fold list_head.
  assert (Enext : (if Z.of_nat i =? Z.of_nat n - 1 then list_head else en)
                  = default list_head (es !! S i)).
  { destruct (Z.eqb_spec (Z.of_nat i) (Z.of_nat n - 1)) as [E|E].
    - rewrite lookup_ge_None_2 by lia. reflexivity.
    - rewrite Hen by lia. reflexivity. }
  assert (Eprev : (if Z.of_nat i =? 0 then list_head else ep)
                  = match i with
                    | O => list_head
                    | S i' => default list_head (es !! i')
                    end).
  { destruct i as [|i']; [reflexivity|].
    destruct (Z.eqb_spec (Z.of_nat (S i')) 0) as [E|E]; [lia|].
    now rewrite Hep. }
  rewrite Enext, Eprev.
  assert (Rnext : 0 <= default list_head (es !! S i) + offset < 4294967296).
  { destruct (es !! S i) as [e1|] eqn:E1; cbn [default from_option id].
    - pose proof (range_at _ _ E1). lia.
    - lia. }
  assert (Rprev : 0 <= match i with
                       | O => list_head
                       | S i' => default list_head (es !! i')
                       end + offset < 4294967296).
  { destruct i as [|i']; [lia|].
    destruct (es !! i') as [e1|] eqn:E1; cbn [default from_option id].
    - pose proof (range_at _ _ E1). lia.
    - lia. }
  rewrite bind_pck32 by exact Rnext.
  rewrite bind_pck32 by exact Rprev.
  rewrite <- (bind_ret_r (set_mem _ _)).
  rewrite bind_set_mem by exact Hm.
  reflexivity.
Qed.

Let prev_at (i : nat) : Z :=
  match i with
  | O => list_head
  | S i' => default list_head (es !! i')
  end.

Lemma for_enumerate_link suf : forall pre epre esuf j,
  L = pre ++ suf ->
  es = epre ++ esuf ->
  length pre = length epre ->
  Forall (fun e => Mem.is_mapped (vm j) (e + offset) 8 = true) esuf ->
  for_enumerate (link_entry L R offset) (Z.of_nat (length pre)) suf j =
    (Ok tt,
     with_vm (link_all offset (prev_at (length pre)) esuf (vm j)) j).
Proof.
  induction suf as [|x suf IH]; intros pre epre esuf j HL Hes Hlen Hmap.
  - assert (esuf = []) as ->.
    { pose proof (Forall2_length _ _ _ HF) as Hl. rewrite HL, Hes in Hl.
      rewrite !length_app in Hl. cbn in Hl.
      destruct esuf; [reflexivity | cbn in Hl; lia]. }
    cbn. destruct j; reflexivity.
  - destruct esuf as [|e esuf].
    { pose proof (Forall2_length _ _ _ HF) as Hl. rewrite HL, Hes in Hl.
      rewrite !length_app in Hl. cbn in Hl. lia. }
    assert (Hx : L !! length pre = Some x).
    { rewrite HL. rewrite lookup_app_r by lia. now rewrite Nat.sub_diag. }
    assert (He : es !! length pre = Some e).
    { rewrite Hes. rewrite lookup_app_r by lia.
      rewrite Hlen. now rewrite Nat.sub_diag. }
    inversion_clear Hmap as [|? ? Hm Hmap'].
    cbn [for_enumerate link_all].
    erewrite bind_ok by (apply link_entry_ok; eassumption).
    replace (Z.of_nat (length pre) + 1)
      with (Z.of_nat (length (pre ++ [x])))
      by (rewrite length_app; cbn; lia).
    rewrite (IH (pre ++ [x]) (epre ++ [e]) esuf).
    + jflat. rewrite length_app. cbn [length].
      replace (length pre + 1)%nat with (S (length pre)) by lia.
      cbn [prev_at]. rewrite He. cbn [default from_option id].
      replace (es !! S (length pre)) with (esuf !! 0%nat).
      * destruct esuf; reflexivity.
      * rewrite Hes. rewrite lookup_app_r by lia.
        rewrite Hlen, Nat.sub_succ_l, Nat.sub_diag by lia. reflexivity.
    + rewrite <- app_assoc. exact HL.
    + rewrite <- app_assoc. exact Hes.
    + rewrite !length_app. cbn. lia.
    + jflat. eapply Forall_impl; [exact Hmap'|].
      intros a Ha. cbv beta in *. now apply is_mapped_write_bytes.
Qed.

Lemma set_link_list_entry_ok j :
  Forall (fun e => Mem.is_mapped (vm j) (e + offset) 8 = true) es ->
  set_link_list_entry L R offset j =
    (Ok tt, with_vm (link_all offset list_head es (vm j)) j).
Proof.
  intros Hmap. unfold set_link_list_entry.
  apply (for_enumerate_link L [] [] es j); auto.
Qed.

End Linking.

(** *** Memory after the linking *)

Lemma load32_pair_fst m a x y :
  0 <= x < 4294967296 ->
  load32 (write_bytes m a (le32 x ++ le32 y)) a = x.
Proof.
  intros Hx. unfold load32.
  replace a with (a + 0) at 2 by lia.
  rewrite peek_write_bytes_sub by (cbn; lia).
  cbn [Z.to_nat drop take app le32]. fold (le32 x). now apply dec32_le32.
Qed.

Lemma load32_pair_snd m a x y :
  0 <= y < 4294967296 ->
  load32 (write_bytes m a (le32 x ++ le32 y)) (a + 4) = y.
Proof.
  intros Hy. unfold load32.
  rewrite peek_write_bytes_sub by (cbn; lia).
  change (Z.to_nat 4) with 4%nat.
  cbn [drop take app le32]. fold (le32 y). now apply dec32_le32.
Qed.

Lemma link_all_outside offset es : forall prev m x,
  (forall e, e ∈ es -> x < e + offset \/ e + offset + 8 <= x) ->
  link_all offset prev es m !! x = m !! x.
Proof.
  induction es as [|e es IH]; intros prev m x Hx; cbn [link_all];
    [reflexivity|].
  rewrite IH by (intros e' He'; apply Hx; now right).
  rewrite lookup_write_bytes. case_decide as Hd; [|reflexivity].
  cbn [length app le32] in Hd.
  specialize (Hx e ltac:(now left)). lia.
Qed.

Lemma link_all_load32_outside offset es prev m a :
  (forall e, e ∈ es -> a + 4 <= e + offset \/ e + offset + 8 <= a) ->
  load32 (link_all offset prev es m) a = load32 m a.
Proof.
  intros Ha. unfold load32. f_equal. apply peek_ext. intros x Hx.
  apply link_all_outside. intros e He. specialize (Ha e He). lia.
Qed.

Lemma link_all_mapped offset es : forall prev m a n,
  Mem.is_mapped m a n = true ->
  Mem.is_mapped (link_all offset prev es m) a n = true.
Proof.
  induction es as [|e es IH]; intros prev m a n Hm; cbn [link_all];
    [exact Hm|].
  apply IH. now apply is_mapped_write_bytes.
Qed.

Lemma spaced_cons e es :
  spaced (e :: es) = true <-> (forall e', e' ∈ es -> far e e') /\ spaced es = true.
Proof.
  cbn [spaced]. rewrite andb_true_iff, forallb_forall.
  split; intros [H1 H2]; split; auto.
  - intros e' He'. apply list_elem_of_In in He'. specialize (H1 e' He').
    apply orb_true_iff in H1. rewrite !Z.leb_le in H1. exact H1.
  - intros e' He'. apply list_elem_of_In in He'. specialize (H1 e' He').
    apply orb_true_iff. rewrite !Z.leb_le. exact H1.
Qed.

Lemma spaced_lookup es : forall i k a b,
  spaced es = true -> i <> k ->
  es !! i = Some a -> es !! k = Some b -> far a b.
Proof.
  induction es as [|e es IH]; intros i k a b Hs Hik Ha Hb; [discriminate|].
  apply spaced_cons in Hs as [Hfar Hs].
  destruct i as [|i], k as [|k]; cbn in Ha, Hb.
  - congruence.
  - injection Ha as <-. apply Hfar. eapply list_elem_of_lookup_2; eauto.
  - injection Hb as <-.
    assert (Hea : far e a)
      by (apply Hfar; eapply list_elem_of_lookup_2; eauto).
    unfold far in *. lia.
  - apply (IH i k a b Hs ltac:(lia) Ha Hb).
Qed.

(** The links that the loop leaves in the entry at index [i]. *)
Lemma link_all_links offset es : forall prev m i e,
  0 <= offset <= 16 ->
  spaced es = true ->
  Forall (fun e => 0 <= e /\ e + 24 <= 4294967296) es ->
  0 <= prev /\ prev + 24 <= 4294967296 ->
  es !! i = Some e ->
  load32 (link_all offset prev es m) (e + offset)
    = default list_head (es !! S i) + offset /\
  load32 (link_all offset prev es m) (e + offset + 4)
    = match i with
      | O => prev
      | S i' => default list_head (es !! i')
      end + offset.
Proof.
  induction es as [|e0 es IH]; intros prev m i e Hoff Hs Hr Hp He;
    [discriminate|].
  apply spaced_cons in Hs as [Hfar Hs].
  inversion_clear Hr as [|? ? Hr0 Hr'].
  pose proof list_head_value as Hh.
  destruct i as [|i]; cbn [link_all].
  - cbn in He. injection He as <-.
    assert (Rn : 0 <= hd list_head es + offset < 4294967296).
    { destruct es as [|e1 es]; cbn [hd]; [lia|].
      inversion_clear Hr' as [|? ? Hr1 _]. lia. }
    rewrite !link_all_load32_outside
      by (intros e' He'; specialize (Hfar e' He'); unfold far in Hfar; lia).
    rewrite load32_pair_fst by exact Rn.
    rewrite load32_pair_snd by lia.
    split; [|reflexivity].
    destruct es; reflexivity.
  - cbn in He.
    destruct (IH e0 (write_bytes m (e0 + offset)
                       (le32 (hd list_head es + offset) ++ le32 (prev + offset)))
                 i e Hoff Hs Hr' Hr0 He) as [H1 H2].
    rewrite H1, H2. split; [reflexivity|].
    destruct i; reflexivity.
Qed.

(** *** Traversals *)

Lemma walk_links m link head ps :
  (forall i p, ps !! i = Some p ->
     p <> head /\ read32 m (p + link) = Some (default head (ps !! S i))) ->
  forall fuel, (length ps < fuel)%nat ->
    walk m link head fuel (hd head ps) = Some ps.
Proof.
  induction ps as [|p ps IH]; intros Hl fuel Hfuel;
    (destruct fuel as [|fuel]; [cbn in Hfuel; lia|]); cbn [walk hd].
  - now rewrite Z.eqb_refl.
  - destruct (Hl 0%nat p eq_refl) as [Hne Hrd].
    apply Z.eqb_neq in Hne. rewrite Hne, Hrd.
    replace (default head ((p :: ps) !! 1%nat)) with (hd head ps)
      by (destruct ps; reflexivity).
    rewrite IH; [reflexivity| |cbn in Hfuel; lia].
    intros i q Hq. apply (Hl (S i) q Hq).
Qed.

(** *** The registry built by a sequence of registrations *)

Lemma register_all_snoc regs name module entry :
  register_all (regs ++ [(name, module, entry)]) =
    add name module entry (register_all regs).
Proof. unfold register_all. now rewrite fold_left_app. Qed.

Lemma register_all_modules regs :
  modules (register_all regs) = map reg_module regs.
Proof.
  induction regs as [|[[n x] e] regs IH] using rev_ind; [reflexivity|].
  rewrite register_all_snoc, map_app. cbn. now rewrite IH.
Qed.

Lemma register_all_invariant regs :
  NoDup (map reg_module regs) ->
  let R := register_all regs in
  (forall n x, name2module R !! n = Some x ->
     x ∈ modules R /\ module2name R !! x = Some n) /\
  (forall i n x e, regs !! i = Some (n, x, e) -> module2entry R !! x = Some e) /\
  (forall x e, module2entry R !! x = Some e -> exists n, (n, x, e) ∈ regs).
Proof.
  induction regs as [|[[n0 x0] e0] regs IH] using rev_ind; intros Hnd R.
  - subst R. cbn. repeat split; intros; try discriminate.
    all: rewrite lookup_empty in *; discriminate.
  - rewrite map_app in Hnd. cbn in Hnd.
    apply NoDup_app in Hnd as (Hnd & Hfresh & _).
    specialize (IH Hnd). cbv zeta in IH. destruct IH as (I1 & I2 & I3).
    assert (Hx0 : x0 ∉ modules (register_all regs)).
    { rewrite register_all_modules. intros Hin. apply (Hfresh _ Hin).
      now left. }
    subst R. rewrite register_all_snoc. cbn [add modules name2module
      module2entry module2name].
    repeat split.
    + destruct (decide (n = n0)) as [->|Hn].
      * rewrite lookup_insert_eq in H. injection H as <-.
        apply elem_of_app. right. now left.
      * rewrite lookup_insert_ne in H by congruence.
        apply elem_of_app. left. now apply (I1 n x).
    + destruct (decide (n = n0)) as [->|Hn].
      * rewrite lookup_insert_eq in H. injection H as <-.
        apply lookup_insert_eq.
      * rewrite lookup_insert_ne in H by congruence.
        destruct (I1 n x H) as [Hin Hname].
        rewrite lookup_insert_ne by (intros ->; contradiction). exact Hname.
    + intros i n x e Hi.
      destruct (decide (i < length regs)%nat) as [Hlt|Hge].
      * rewrite lookup_app_l in Hi by exact Hlt.
        assert (x ∈ modules (register_all regs)).
        { rewrite register_all_modules.
          apply list_elem_of_fmap. exists (n, x, e). split; [reflexivity|].
          eapply list_elem_of_lookup_2; eauto. }
        rewrite lookup_insert_ne by (intros ->; contradiction).
        eapply I2; eauto.
      * rewrite lookup_app_r in Hi by lia.
        destruct (i - length regs)%nat; cbn in Hi; [|discriminate].
        injection Hi as <- <- <-. apply lookup_insert_eq.
    + intros x e Hxe. destruct (decide (x = x0)) as [->|Hx].
      * rewrite lookup_insert_eq in Hxe. injection Hxe as <-.
        exists n0. apply elem_of_app. right. now left.
      * rewrite lookup_insert_ne in Hxe by congruence.
        destruct (I3 x e Hxe) as [n Hn]. exists n.
        apply elem_of_app. now left.
Qed.

(** *** Links and traversals *)

Lemma rev_lookup {A} (l : list A) i :
  (i < length l)%nat -> rev l !! i = l !! (length l - S i)%nat.
Proof.
  intros Hi. rewrite <- reverse_lookup by assumption.
  unfold reverse. now rewrite rev_alt.
Qed.

Lemma read32_ext m m' a :
  (forall x, a <= x < a + 4 -> m' !! x = m !! x) ->
  read32 m' a = read32 m a.
Proof.
  intros H. unfold read32, load32.
  rewrite (peek_ext m' m a 4) by (intros x Hx; apply H; lia).
  destruct (Mem.is_mapped m a 4) eqn:E.
  - rewrite (is_mapped_ext m m' a 4); [reflexivity| |exact E].
    intros x Hx. rewrite H by lia. auto.
  - destruct (Mem.is_mapped m' a 4) eqn:E'; [|reflexivity].
    rewrite (is_mapped_ext m' m a 4) in E; [discriminate| |exact E'].
    intros x Hx. rewrite H by lia. auto.
Qed.

Lemma links_at_ext m m' offset es :
  (forall e x, e ∈ es -> e + offset <= x < e + offset + 8 ->
     m' !! x = m !! x) ->
  links_at m offset es -> links_at m' offset es.
Proof.
  intros Hext Hl i e He. destruct (Hl i e He) as [H1 H2].
  assert (Hin : e ∈ es) by (eapply list_elem_of_lookup_2; eauto).
  rewrite <- H1, <- H2.
  split; apply read32_ext; intros x Hx; apply (Hext e x Hin); lia.
Qed.

Lemma links_at_link_all m offset es :
  0 <= offset <= 16 ->
  spaced es = true ->
  Forall (fun e => 0 <= e /\ e + 24 <= 4294967296) es ->
  Forall (fun e => Mem.is_mapped m (e + offset) 8 = true) es ->
  links_at (link_all offset list_head es m) offset es.
Proof.
  intros Hoff Hs Hr Hm i e He.
  pose proof list_head_value as Hh.
  destruct (link_all_links offset es list_head m i e Hoff Hs Hr
              ltac:(lia) He) as [H1 H2].
  pose proof (Forall_lookup_1 _ _ _ _ Hm He) as Hme. cbv beta in Hme.
  unfold read32.
  rewrite !(link_all_mapped offset es list_head m)
    by (eapply is_mapped_sub; [exact Hme | lia | lia]).
  now rewrite H1, H2.
Qed.

(** Forward from the head: the entries in order, then the head. *)
Lemma walk_forward m offset es fuel :
  links_at m offset es ->
  Forall (fun e => e <> list_head) es ->
  (length es < fuel)%nat ->
  walk m 0 (list_head + offset) fuel (hd list_head es + offset)
    = Some (map (fun e => e + offset) es).
Proof.
  intros Hl Hne Hfuel.
  replace (hd list_head es + offset)
    with (hd (list_head + offset) (map (fun e => e + offset) es))
    by (destruct es; reflexivity).
  apply walk_links; [|now rewrite length_map].
  intros i p Hp. rewrite list_lookup_fmap in Hp.
  destruct (es !! i) as [e|] eqn:He; [|discriminate].
  cbn in Hp. injection Hp as <-.
  pose proof (Forall_lookup_1 _ _ _ _ Hne He) as Hn. cbv beta in Hn.
  split; [lia|].
  destruct (Hl i e He) as [H1 _]. rewrite Z.add_0_r, H1.
  rewrite list_lookup_fmap. destruct (es !! S i); reflexivity.
Qed.

(** Backward from the last entry: the entries in reverse, then the head. *)
Lemma walk_backward m offset es fuel :
  links_at m offset es ->
  Forall (fun e => e <> list_head) es ->
  (length es < fuel)%nat ->
  walk m 4 (list_head + offset) fuel (last_or_head es + offset)
    = Some (rev (map (fun e => e + offset) es)).
Proof.
  intros Hl Hne Hfuel.
  replace (last_or_head es + offset)
    with (hd (list_head + offset) (rev (map (fun e => e + offset) es))).
  2:{ unfold last_or_head. rewrite <- map_rev.
      destruct (rev es); reflexivity. }
  apply walk_links; [|now rewrite length_rev, length_map].
  intros i p Hp.
  assert (Hi : (i < length es)%nat).
  { apply lookup_lt_Some in Hp. now rewrite length_rev, length_map in Hp. }
  rewrite <- map_rev, list_lookup_fmap, rev_lookup in Hp by exact Hi.
  destruct (es !! (length es - S i)%nat) as [e|] eqn:He; [|discriminate].
  cbn in Hp. injection Hp as <-.
  pose proof (Forall_lookup_1 _ _ _ _ Hne He) as Hn. cbv beta in Hn.
  split; [lia|].
  destruct (Hl _ e He) as [_ H2]. rewrite <- Z.add_assoc in H2 |- *.
  rewrite H2. f_equal.
  rewrite <- map_rev, list_lookup_fmap.
  destruct (decide (S i < length es)%nat) as [Hlt|Hge].
  - rewrite rev_lookup by exact Hlt.
    replace (length es - S i)%nat with (S (length es - S (S i))) by lia.
    destruct (es !! (length es - S (S i))%nat); reflexivity.
  - rewrite lookup_ge_None_2 by (rewrite length_rev; lia).
    replace (length es - S i)%nat with 0%nat by lia. reflexivity.
Qed.

(** *** Registrations that can be linked *)

Lemma spaced_intro es :
  (forall i k a b, i <> k -> es !! i = Some a -> es !! k = Some b -> far a b) ->
  spaced es = true.
Proof.
  induction es as [|e es IH]; intros H; [reflexivity|].
  apply spaced_cons. split.
  - intros e' He'. apply list_elem_of_lookup_1 in He' as [k Hk].
    apply (H 0%nat (S k) e e'); [lia|reflexivity|exact Hk].
  - apply IH. intros i k a b Hik Ha Hb.
    apply (H (S i) (S k) a b); [lia|exact Ha|exact Hb].
Qed.

Lemma entries_ready_spec regs m :
  entries_ready regs m = true ->
  NoDup (map reg_module regs) /\
  (forall r, r ∈ regs -> entry_ok m (reg_entry r)) /\
  spaced (map reg_entry regs) = true.
Proof.
  unfold entries_ready. rewrite !andb_true_iff, bool_decide_eq_true.
  intros [[Hnd Hall] Hs]. repeat split; try assumption;
    rewrite forallb_forall in Hall;
    apply list_elem_of_In in H; specialize (Hall r H); cbv zeta in Hall;
    rewrite !andb_true_iff, orb_true_iff, !Z.leb_le in Hall; tauto.
Qed.

Section Ready.
Variables (regs : list (string * pe * Z)) (m : gmap Z byte).
Hypothesis Hready : entries_ready regs m = true.
Let R := register_all regs.

Lemma ready_module x :
  x ∈ modules R ->
  exists i n e,
    regs !! i = Some (n, x, e) /\ module2entry R !! x = Some e /\ entry_ok m e.
Proof.
  intros Hx. destruct (entries_ready_spec _ _ Hready) as (Hnd & Hok & Hs).
  subst R. rewrite register_all_modules in Hx.
  apply list_elem_of_fmap in Hx as ([[n x'] e] & -> & Hr).
  cbn [reg_module fst snd].
  destruct (list_elem_of_lookup_1 _ _ Hr) as [i Hi].
  exists i, n, e. split; [exact Hi|]. split.
  - destruct (register_all_invariant regs Hnd) as (_ & I2 & _).
    eapply I2; eauto.
  - apply (Hok _ Hr).
Qed.

Lemma ready_far x y ex ey :
  x ∈ modules R -> y ∈ modules R -> x <> y ->
  module2entry R !! x = Some ex -> module2entry R !! y = Some ey ->
  far ex ey.
Proof.
  intros Hx Hy Hxy Hex Hey.
  destruct (entries_ready_spec _ _ Hready) as (Hnd & Hok & Hs).
  destruct (ready_module x Hx) as (i & n & e & Hi & He & _).
  destruct (ready_module y Hy) as (k & n' & e' & Hk & He' & _).
  assert (e = ex) by congruence. assert (e' = ey) by congruence. subst.
  apply (spaced_lookup (map reg_entry regs) i k); try assumption.
  - intros ->. congruence.
  - rewrite list_lookup_fmap, Hi. reflexivity.
  - rewrite list_lookup_fmap, Hk. reflexivity.
Qed.

(** What a list of distinct registered modules offers to the linking. *)
Lemma ready_list L :
  NoDup L -> (forall x, x ∈ L -> x ∈ modules R) ->
  let es := entries_of R L in
  Forall2 (fun x e => module2entry R !! x = Some e) L es /\
  Forall (entry_ok m) es /\
  spaced es = true.
Proof.
  intros Hnd Hin es. subst es.
  assert (HF : Forall2 (fun x e => module2entry R !! x = Some e) L
                 (entries_of R L)).
  { unfold entries_of. apply Forall2_fmap_r, Forall_Forall2_diag.
    apply Forall_forall. intros x Hx.
    destruct (ready_module x (Hin x Hx)) as (_ & _ & e & _ & He & _).
    cbn. now rewrite He. }
  split; [exact HF|]. split.
  - apply Forall_forall. intros e He.
    apply list_elem_of_lookup_1 in He as [i Hi].
    destruct (Forall2_lookup_r _ _ _ _ _ HF Hi) as (x & Hx & Hxe).
    assert (Hxin : x ∈ L) by (eapply list_elem_of_lookup_2; eauto).
    destruct (ready_module x (Hin x Hxin)) as (_ & _ & e' & _ & He' & Hok).
    congruence.
  - apply spaced_intro. intros i k a b Hik Ha Hb.
    destruct (Forall2_lookup_r _ _ _ _ _ HF Ha) as (x & Hx & Hxa).
    destruct (Forall2_lookup_r _ _ _ _ _ HF Hb) as (y & Hy & Hyb).
    apply (ready_far x y); try assumption.
    + apply Hin. eapply list_elem_of_lookup_2; eauto.
    + apply Hin. eapply list_elem_of_lookup_2; eauto.
    + intros ->. apply Hik. eapply NoDup_lookup; eauto.
Qed.

(** Entries of two lists of registered modules are equal or apart. *)
Lemma ready_apart L L' e e' :
  (forall x, x ∈ L -> x ∈ modules R) ->
  (forall x, x ∈ L' -> x ∈ modules R) ->
  e ∈ entries_of R L -> e' ∈ entries_of R L' ->
  e = e' \/ far e e'.
Proof.
  intros HL HL' He He'. unfold entries_of in *.
  apply list_elem_of_fmap in He as (x & -> & Hx).
  apply list_elem_of_fmap in He' as (y & -> & Hy).
  destruct (decide (x = y)) as [->|Hxy]; [now left|right].
  destruct (ready_module x (HL x Hx)) as (_ & _ & ex & _ & Hex & _).
  destruct (ready_module y (HL' y Hy)) as (_ & _ & ey & _ & Hey & _).
  rewrite Hex, Hey. cbn.
  apply (ready_far x y); auto.
Qed.

(** One fixup's loop over a list of distinct registered modules, in a
    memory that maps at least what [m] maps. *)
Lemma link_list_ok L offset j :
  NoDup L -> (forall x, x ∈ L -> x ∈ modules R) ->
  (forall a n, Mem.is_mapped m a n = true -> Mem.is_mapped (vm j) a n = true) ->
  0 <= offset <= 16 ->
  set_link_list_entry L R offset j =
    (Ok tt, with_vm (link_all offset list_head (entries_of R L) (vm j)) j).
Proof.
  intros Hnd Hin Hext Hoff.
  destruct (ready_list L Hnd Hin) as (HF & Hok & Hs).
  apply (set_link_list_entry_ok R offset L (entries_of R L) HF Hoff).
  - eapply Forall_impl; [exact Hok|]. intros e (? & ? & _). lia.
  - eapply Forall_impl; [exact Hok|]. intros e (? & ? & Hm & _).
    apply Hext. eapply is_mapped_sub; [exact Hm | lia | lia].
Qed.

Lemma ready_links_at L offset m' :
  NoDup L -> (forall x, x ∈ L -> x ∈ modules R) ->
  (forall a n, Mem.is_mapped m a n = true -> Mem.is_mapped m' a n = true) ->
  0 <= offset <= 16 ->
  links_at (link_all offset list_head (entries_of R L) m') offset
           (entries_of R L).
Proof.
  intros Hnd Hin Hext Hoff.
  destruct (ready_list L Hnd Hin) as (HF & Hok & Hs).
  apply links_at_link_all; try assumption.
  - eapply Forall_impl; [exact Hok|]. intros e (? & ? & _). lia.
  - eapply Forall_impl; [exact Hok|]. intros e (? & ? & Hm & _).
    apply Hext. eapply is_mapped_sub; [exact Hm | lia | lia].
Qed.

(** Linking a list at another offset leaves the links of this one. *)
Lemma ready_links_other L L' offset offset' prev m' :
  (forall x, x ∈ L -> x ∈ modules R) ->
  (forall x, x ∈ L' -> x ∈ modules R) ->
  In offset [0; 8; 16] -> In offset' [0; 8; 16] -> offset <> offset' ->
  links_at m' offset (entries_of R L) ->
  links_at (link_all offset' prev (entries_of R L') m') offset
           (entries_of R L).
Proof.
  intros Hin Hin' Ho Ho' Hne. apply links_at_ext.
  intros e x He Hx. apply link_all_outside. intros e' He'.
  destruct (ready_apart L L' e e' Hin Hin' He He') as [->|Hfar].
  - cbn in Ho, Ho'. lia.
  - unfold far in Hfar. cbn in Ho, Ho'. lia.
Qed.

End Ready.

(** *** build_ldr_data *)

Lemma build_ldr_data_ok name R j main ntdll em en :
  name2module R !! name = Some main ->
  name2module R !! "ntdll.dll"%string = Some ntdll ->
  module2entry R !! main = Some em ->
  module2entry R !! ntdll = Some en ->
  0 <= em /\ em + 24 <= 4294967296 ->
  0 <= en /\ en + 24 <= 4294967296 ->
  build_ldr_data name R j = (Ok tt, with_vm (ldr_data_mem em en (vm j)) j).
Proof.
  intros Hmain Hntdll Hem Hen Rm Rn.
  unfold build_ldr_data. cbv zeta. rewrite Hmain, Hntdll.
  rewrite bind_bind, (bind_entry_of _ _ _ _ _ Hem), bind_ret.
  cbv beta iota.
  rewrite bind_bind, (bind_entry_of _ _ _ _ _ Hen), bind_ret.
  cbv beta iota.
  rewrite bind_add_memory_page. jflat.
  change (Z.to_nat (0 + ListEntry.sizeof * 2 + ListEntry.sizeof)) with 24%nat.
  assert (Hblock : forall m0 a, 3415724 <= a <= 3415744 ->
            Mem.is_mapped (write_bytes m0 3415724 (nuls 24)) a 4 = true).
  { intros m0 a Ha. eapply is_mapped_sub;
      [apply is_mapped_written | lia | unfold nuls; rewrite repeat_length; lia]. }
  repeat
    (rewrite ?bind_bind; rewrite bind_set_field32;
     [ jflat
     | unfold LdrDataEntry.InMemoryOrderLinks,
         LdrDataEntry.InInitializationOrderLinks; lia
     | jflat; repeat apply is_mapped_store32; apply Hblock;
       unfold LDR_AD, peb_ldr_data_offset,
         PEB_LDR_DATA.InLoadOrderModuleList,
         PEB_LDR_DATA.InMemoryOrderModuleList,
         PEB_LDR_DATA.InInitializationOrderModuleList,
         ListEntry.flink, ListEntry.blink; lia ]).
  rewrite bind_pck32 by lia.
  reflexivity.
Qed.

Lemma ldr_data_mem_outside em en m x :
  x < list_head \/ list_head + 28 <= x ->
  ldr_data_mem em en m !! x = m !! x.
Proof.
  intros Hx. unfold ldr_data_mem. cbv zeta.
  rewrite lookup_write_bytes. case_decide as Hd; [cbn in Hd; lia|].
  rewrite !lookup_store32_ne by lia.
  rewrite lookup_write_bytes. case_decide as Hd'; [cbn in Hd'; lia|].
  reflexivity.
Qed.

Lemma ldr_data_mem_mapped em en m a n :
  Mem.is_mapped m a n = true -> Mem.is_mapped (ldr_data_mem em en m) a n = true.
Proof. intros H. unfold ldr_data_mem. cbv zeta. mapped_tac. Qed.

(** The six links of the three list heads. *)
Lemma ldr_data_mem_heads em en m :
  0 <= em /\ em + 24 <= 4294967296 ->
  0 <= en /\ en + 24 <= 4294967296 ->
  map (fun k => read32 (ldr_data_mem em en m) (list_head + k))
      [0; 4; 8; 12; 16; 20]
  = [Some em; Some 0; Some (em + 8); Some 0; Some (en + 16); Some 0].
Proof.
  intros Rm Rn.
  assert (Hm : forall k, 0 <= k <= 20 ->
            Mem.is_mapped (ldr_data_mem em en m) (list_head + k) 4 = true).
  { intros k Hk. unfold ldr_data_mem. cbv zeta.
    apply is_mapped_write_bytes. do 6 apply is_mapped_store32.
    eapply is_mapped_sub; [apply is_mapped_written | lia | cbn; lia]. }
  cbn [map]. unfold read32. rewrite !Hm by lia.
  unfold ldr_data_mem. cbv zeta.
  rewrite !load32_write_bytes_disjoint by (cbn [length le32]; lia).
  rewrite Z.add_0_r.
  repeat f_equal;
    repeat (rewrite load32_store32_ne by lia);
    rewrite load32_store32_eq by lia; reflexivity.
Qed.

Lemma ldr_data_mem_flinks em en m :
  0 <= em /\ em + 24 <= 4294967296 ->
  0 <= en /\ en + 24 <= 4294967296 ->
  read32 (ldr_data_mem em en m) (list_head + 0) = Some (em + 0) /\
  read32 (ldr_data_mem em en m) (list_head + 8) = Some (em + 8) /\
  read32 (ldr_data_mem em en m) (list_head + 16) = Some (en + 16).
Proof.
  intros Rm Rn. pose proof (ldr_data_mem_heads em en m Rm Rn) as H.
  cbn [map] in H. injection H as H0 H4 H8 H12 H16 H20.
  rewrite (Z.add_0_r em). auto.
Qed.

(** *** The lists that the fixups link *)

Lemma special_first_None name R :
  special_first name R = None <-> special_first_init name R = None.
Proof.
  unfold special_first, special_first_init. cbv zeta.
  destruct (name2module R !! name), (name2module R !! "kernel32.dll"%string),
    (name2module R !! "ntdll.dll"%string); split; congruence.
Qed.

Lemma special_first_absent name R :
  special_first name R = None <->
  name2module R !! name = None \/
  name2module R !! "ntdll.dll"%string = None \/
  name2module R !! "kernel32.dll"%string = None.
Proof.
  unfold special_first. cbv zeta.
  destruct (name2module R !! name), (name2module R !! "kernel32.dll"%string),
    (name2module R !! "ntdll.dll"%string); split;
    try congruence; try tauto; intros [|[|]]; congruence.
Qed.

Lemma special_first_present name R main ntdll kernel32 :
  name2module R !! name = Some main ->
  name2module R !! "ntdll.dll"%string = Some ntdll ->
  name2module R !! "kernel32.dll"%string = Some kernel32 ->
  special_first name R =
    Some (main :: ntdll :: kernel32
            :: without [main; kernel32; ntdll] (modules R)) /\
  special_first_init name R =
    Some (ntdll :: kernel32 :: without [main; kernel32; ntdll] (modules R)).
Proof.
  intros Hm Hn Hk. unfold special_first, special_first_init. cbv zeta.
  rewrite Hm, Hn, Hk. split; reflexivity.
Qed.

Lemma fix_InLoadOrderModuleList_run name R j :
  fix_InLoadOrderModuleList name R j =
    match special_first name R with
    | Some L => set_link_list_entry L R 0 j
    | None =>
        set_link_list_entry (modules R) R 0
          (with_logged
             (logged j
              ++ [(WARNING,
                   "No main pe, ldr data will be unconsistant %r"%string)]) j)
    end.
Proof.
  unfold fix_InLoadOrderModuleList. rewrite bind_emit_debug.
  destruct (special_first name R); [reflexivity|].
  rewrite bind_bind, bind_emit by discriminate. reflexivity.
Qed.

Lemma fix_InMemoryOrderModuleList_run name R j :
  fix_InMemoryOrderModuleList name R j =
    match special_first name R with
    | Some L => set_link_list_entry L R 8 j
    | None =>
        set_link_list_entry (modules R) R 8
          (with_logged
             (logged j
              ++ [(WARNING,
                   "No main pe, ldr data will be unconsistant"%string)]) j)
    end.
Proof.
  unfold fix_InMemoryOrderModuleList. rewrite bind_emit_debug.
  destruct (special_first name R); [reflexivity|].
  rewrite bind_bind, bind_emit by discriminate. reflexivity.
Qed.

Lemma fix_InInitializationOrderModuleList_run name R j :
  fix_InInitializationOrderModuleList name R j =
    match special_first_init name R with
    | Some L => set_link_list_entry L R 16 j
    | None =>
        set_link_list_entry (modules R) R 16
          (with_logged
             (logged j
              ++ [(WARNING,
                   "No main pe, ldr data will be unconsistant"%string)]) j)
    end.
Proof.
  unfold fix_InInitializationOrderModuleList. rewrite bind_emit_debug.
  destruct (special_first_init name R); [reflexivity|].
  rewrite bind_bind, bind_emit by discriminate. reflexivity.
Qed.

(** The three named modules of a registry of distinct modules. *)
Lemma specials_distinct regs name main ntdll kernel32 :
  NoDup (map reg_module regs) ->
  name <> "ntdll.dll"%string -> name <> "kernel32.dll"%string ->
  let R := register_all regs in
  name2module R !! name = Some main ->
  name2module R !! "ntdll.dll"%string = Some ntdll ->
  name2module R !! "kernel32.dll"%string = Some kernel32 ->
  NoDup [main; ntdll; kernel32] /\
  main ∈ modules R /\ ntdll ∈ modules R /\ kernel32 ∈ modules R.
Proof.
  intros Hnd Hn1 Hn2 R Hm Hn Hk.
  destruct (register_all_invariant regs Hnd) as (I1 & _ & _).
  destruct (I1 _ _ Hm) as [Hmi Hmn], (I1 _ _ Hn) as [Hni Hnn],
    (I1 _ _ Hk) as [Hki Hkn].
  repeat split; try assumption.
  apply NoDup_cons. split.
  - intros Hin. apply elem_of_cons in Hin as [->|Hin].
    + congruence.
    + apply list_elem_of_singleton in Hin as ->. congruence.
  - apply NoDup_cons. split; [|apply NoDup_singleton].
    intros Hin. apply list_elem_of_singleton in Hin as ->. congruence.
Qed.

Lemma without_spec specials l x :
  x ∈ without specials l <-> x ∈ l /\ x ∉ specials.
Proof. unfold without. rewrite list_elem_of_filter. tauto. Qed.

(** Members and order of the two kinds of list when the three named
    modules are registered. *)
Lemma special_lists regs name main ntdll kernel32 :
  NoDup (map reg_module regs) ->
  name <> "ntdll.dll"%string -> name <> "kernel32.dll"%string ->
  let R := register_all regs in
  name2module R !! name = Some main ->
  name2module R !! "ntdll.dll"%string = Some ntdll ->
  name2module R !! "kernel32.dll"%string = Some kernel32 ->
  let others := without [main; kernel32; ntdll] (modules R) in
  NoDup (main :: ntdll :: kernel32 :: others) /\
  main :: ntdll :: kernel32 :: others ≡ₚ modules R.
Proof.
  intros Hnd Hn1 Hn2 R Hm Hn Hk others.
  destruct (specials_distinct regs name main ntdll kernel32 Hnd Hn1 Hn2
              Hm Hn Hk) as (Hd & Hmi & Hni & Hki).
  assert (HndR : NoDup (modules R))
    by (subst R; now rewrite register_all_modules).
  assert (Hnd' : NoDup (main :: ntdll :: kernel32 :: others)).
  { change (NoDup ([main; ntdll; kernel32] ++ others)).
    apply NoDup_app. split; [exact Hd|]. split.
    - intros x Hx Hx'. apply without_spec in Hx' as [_ Hx'].
      apply Hx'. rewrite !elem_of_cons in Hx |- *. tauto.
    - subst others. unfold without. now apply NoDup_filter. }
  split; [exact Hnd'|].
  apply NoDup_Permutation; [exact Hnd' | exact HndR |].
  intros x. change (x ∈ [main; ntdll; kernel32] ++ others <-> x ∈ modules R).
  rewrite elem_of_app. subst others. rewrite without_spec.
  split.
  - intros [Hx|[Hx _]]; [|exact Hx].
    rewrite !elem_of_cons in Hx.
    destruct Hx as [->|[->|[->|Hx]]]; try assumption.
    now apply elem_of_nil in Hx.
  - intros Hx. destruct (decide (x ∈ [main; kernel32; ntdll])) as [Hs|Hs].
    + left. rewrite !elem_of_cons in Hs |- *. tauto.
    + right. tauto.
Qed.

(** *** The three fixups and [build_ldr_data] in a row *)

Section Linked.
Variables (regs : list (string * pe * Z)) (j : jitter) (name : string).
Variables (main ntdll kernel32 : pe).
Hypothesis Hready : entries_ready regs (vm j) = true.
Hypothesis Hname1 : name <> "ntdll.dll"%string.
Hypothesis Hname2 : name <> "kernel32.dll"%string.
Let R := register_all regs.
Hypothesis Hmain : name2module R !! name = Some main.
Hypothesis Hntdll : name2module R !! "ntdll.dll"%string = Some ntdll.
Hypothesis Hkernel32 : name2module R !! "kernel32.dll"%string = Some kernel32.
Let others := without [main; kernel32; ntdll] (modules R).
Let L0 := main :: ntdll :: kernel32 :: others.
Let L2 := ntdll :: kernel32 :: others.

Lemma linked_L0 : NoDup L0 /\ (forall x, x ∈ L0 -> x ∈ modules R).
Proof.
  destruct (entries_ready_spec _ _ Hready) as (Hnd & _ & _).
  destruct (special_lists regs name main ntdll kernel32 Hnd Hname1 Hname2
              Hmain Hntdll Hkernel32) as [Hnd0 Hperm].
  split; [exact Hnd0|]. intros x Hx.
  eapply elem_of_Permutation_proper; [symmetry; exact Hperm | exact Hx].
Qed.

Lemma linked_L2 : NoDup L2 /\ (forall x, x ∈ L2 -> x ∈ modules R).
Proof.
  destruct linked_L0 as [Hnd Hin]. split.
  - now apply NoDup_cons in Hnd as [_ Hnd].
  - intros x Hx. apply Hin. now right.
Qed.

Local Abbreviation linked_mem := (Loader.linked_mem regs j main ntdll kernel32).

Lemma link_loader_lists_ok :
  exists em en,
    module2entry R !! main = Some em /\
    module2entry R !! ntdll = Some en /\
    entry_ok (vm j) em /\ entry_ok (vm j) en /\
    link_loader_lists name R j = (Ok tt, with_vm (linked_mem em en) j).
Proof.
  destruct linked_L0 as [Hnd0 Hin0], linked_L2 as [Hnd2 Hin2].
  destruct (ready_module regs (vm j) Hready main) as (_ & _ & em & _ & Hem & Hokm);
    [apply Hin0; now left|].
  destruct (ready_module regs (vm j) Hready ntdll) as (_ & _ & en & _ & Hen & Hokn);
    [apply Hin2; now left|].
  exists em, en.
  split; [exact Hem|]. split; [exact Hen|].
  split; [exact Hokm|]. split; [exact Hokn|].
  destruct (special_first_present name R main ntdll kernel32 Hmain Hntdll
              Hkernel32) as [Hs0 Hs2].
  unfold link_loader_lists.
  erewrite bind_ok.
  2:{ rewrite fix_InLoadOrderModuleList_run, Hs0.
      apply (link_list_ok regs (vm j) Hready); auto. lia. }
  erewrite bind_ok.
  2:{ rewrite fix_InMemoryOrderModuleList_run, Hs0.
      apply (link_list_ok regs (vm j) Hready); auto; [|lia].
      intros a n Ha. jflat. now apply link_all_mapped. }
  erewrite bind_ok.
  2:{ rewrite fix_InInitializationOrderModuleList_run, Hs2.
      apply (link_list_ok regs (vm j) Hready); auto; [|lia].
      intros a n Ha. jflat. now do 2 apply link_all_mapped. }
  destruct Hokm as (? & ? & _), Hokn as (? & ? & _).
  erewrite build_ldr_data_ok by (eassumption || lia).
  reflexivity.
Qed.

(** The links in the memory that the four calls leave. *)
Lemma linked_mem_links em en :
  links_at (linked_mem em en) 0 (entries_of R L0) /\
  links_at (linked_mem em en) 8 (entries_of R L0) /\
  links_at (linked_mem em en) 16 (entries_of R L2).
Proof.
  destruct linked_L0 as [Hnd0 Hin0], linked_L2 as [Hnd2 Hin2].
  assert (Haway : forall L e, (forall x, x ∈ L -> x ∈ modules R) ->
            e ∈ entries_of R L ->
            e + 24 <= list_head \/ list_head + 28 <= e).
  { intros L e0 HL He0. unfold entries_of in He0.
    apply list_elem_of_fmap in He0 as (x & -> & Hx).
    destruct (ready_module regs (vm j) Hready x (HL x Hx))
      as (_ & _ & e & _ & He & Hok).
    fold R in He. rewrite He. cbn. apply Hok. }
  unfold linked_mem.
  split; [|split].
  - eapply links_at_ext.
    { intros e x He Hx. apply ldr_data_mem_outside.
      specialize (Haway L0 e Hin0 He). lia. }
    apply (ready_links_other regs (vm j) Hready L0 L2 0 16 list_head _
             Hin0 Hin2); [cbn; tauto | cbn; tauto | lia |].
    apply (ready_links_other regs (vm j) Hready L0 L0 0 8 list_head _
             Hin0 Hin0); [cbn; tauto | cbn; tauto | lia |].
    apply (ready_links_at regs (vm j) Hready L0 0 _ Hnd0 Hin0); [auto|lia].
  - eapply links_at_ext.
    { intros e x He Hx. apply ldr_data_mem_outside.
      specialize (Haway L0 e Hin0 He). lia. }
    apply (ready_links_other regs (vm j) Hready L0 L2 8 16 list_head _
             Hin0 Hin2); [cbn; tauto | cbn; tauto | lia |].
    apply (ready_links_at regs (vm j) Hready L0 8 _ Hnd0 Hin0); [|lia].
    intros a n Ha. now apply link_all_mapped.
  - eapply links_at_ext.
    { intros e x He Hx. apply ldr_data_mem_outside.
      specialize (Haway L2 e Hin2 He). lia. }
    apply (ready_links_at regs (vm j) Hready L2 16 _ Hnd2 Hin2); [|lia].
    intros a n Ha. now do 2 apply link_all_mapped.
Qed.

End Linked.

End LoaderFacts.

(* ===================================================================== *)
(** ** Further facts on memory and on the loader data                    *)
(* ===================================================================== *)

Module MoreFacts.
Import Pack PackFacts Mem MemFacts Jit JitFacts Layout Context ContextFacts.
Import Seh WalkerFacts SehFacts Loader LoaderFacts.
Local Open Scope jit_scope.

(** A write maps exactly the bytes it covers. *)
Lemma lookup_write_bytes_is_Some m a bs x :
  is_Some (write_bytes m a bs !! x) <->
  a <= x < a + Z.of_nat (length bs) \/ is_Some (m !! x).
Proof.
  rewrite lookup_write_bytes. case_decide as Hd.
  - split; [intros _; now left|]. intros _.
    apply lookup_lt_is_Some. lia.
  - split; [intros H; now right|]. intros [H|H]; [contradiction|exact H].
Qed.

Lemma is_mapped_write_bytes_disjoint m a bs b n :
  a + Z.of_nat (length bs) <= b \/ b + Z.of_nat n <= a ->
  Mem.is_mapped (write_bytes m a bs) b n = Mem.is_mapped m b n.
Proof.
  intros Hd. apply eq_true_iff_eq. rewrite !is_mapped_spec.
  split; intros H x Hx; specialize (H x Hx).
  - apply lookup_write_bytes_is_Some in H as [H|H]; [lia|exact H].
  - apply lookup_write_bytes_is_Some. now right.
Qed.

(** A write inside mapped memory maps nothing new. *)
Lemma write_bytes_mapped_dom m a bs x :
  Mem.is_mapped m a (length bs) = true ->
  is_Some (write_bytes m a bs !! x) -> is_Some (m !! x).
Proof.
  intros Hm H. apply lookup_write_bytes_is_Some in H as [H|H]; [|exact H].
  apply (proj1 (is_mapped_spec _ _ _) Hm). exact H.
Qed.

Lemma read32_mapped m a :
  Mem.is_mapped m a 4 = true -> read32 m a = Some (load32 m a).
Proof. intros H. unfold read32. now rewrite H. Qed.

(** The dummy DllBase that [build_ldr_data] appends. *)
Lemma ldr_data_mem_dllbase em en m :
  read32 (ldr_data_mem em en m) (list_head + 24) = Some 0.
Proof.
  unfold ldr_data_mem. cbv zeta.
  rewrite read32_mapped by apply (is_mapped_written _ _ (le32 0)).
  f_equal. apply (load32_store32_eq _ _ 0). lia.
Qed.

(** [link_entry] starts with the lookup of the module's own entry. *)
Lemma link_entry_unregistered L R offset i x j :
  module2entry R !! x = None ->
  link_entry L R offset i x j = (Raise KeyError, j).
Proof. intros H. unfold link_entry, entry_of. cbv zeta. now rewrite H. Qed.

Lemma for_enumerate_unregistered L R offset x suf : forall i j,
  x ∈ suf -> module2entry R !! x = None ->
  exists e j', for_enumerate (link_entry L R offset) i suf j = (Raise e, j').
Proof.
  induction suf as [|y suf IH]; intros i j Hin Hx.
  - now apply elem_of_nil in Hin.
  - cbn [for_enumerate]. unfold bind at 1.
    destruct (link_entry L R offset i y j) as [[[]|e] j1] eqn:Hy.
    + apply elem_of_cons in Hin as [->|Hin].
      * rewrite link_entry_unregistered in Hy by exact Hx. discriminate.
      * apply IH; assumption.
    + eauto.
Qed.

End MoreFacts.
(* ===================================================================== *)
(** ** Further facts on the context record and on the dispatcher         *)
(* ===================================================================== *)

Module MoreSehFacts.
Import Pack PackFacts Mem MemFacts Jit JitFacts Layout Context ContextFacts.
Import Seh WalkerFacts SehFacts MoreFacts MoreSamples.
Local Open Scope jit_scope.

Lemma lookup_repeat {A} (x : A) n i :
  (i < n)%nat -> repeat x n !! i = Some x.
Proof.
  revert i. induction n as [|n IH]; intros i Hi; [lia|].
  destruct i as [|i]; [reflexivity|]. cbn. apply IH. lia.
Qed.

Lemma drop_peek m k : forall a n,
  drop k (peek m a (k + n)) = peek m (a + Z.of_nat k) n.
Proof.
  induction k as [|k IH]; intros a n.
  - cbn [drop Nat.add]. now rewrite Z.add_0_r.
  - cbn [drop Nat.add peek]. rewrite IH.
    now replace (a + 1 + Z.of_nat k) with (a + Z.of_nat (S k)) by lia.
Qed.

Lemma lookup_store32_zero m b x :
  m !! x = Some "000"%byte -> store32 m b 0 !! x = Some "000"%byte.
Proof.
  intros H. unfold store32. rewrite lookup_write_bytes.
  case_decide as Hd; [|exact H].
  rewrite length_le32 in Hd.
  assert (Hc : x - b = 0 \/ x - b = 1 \/ x - b = 2 \/ x - b = 3) by lia.
  destruct Hc as [Hc | [Hc | [Hc | Hc]]]; rewrite Hc; reflexivity.
Qed.

(** The bytes of the record that hold no register are zero after a
    save. *)
Lemma saved_context_zero_bytes c m a x :
  a <= x < a + 140 \/ a + 192 <= x < a + 196 ->
  saved_context c m a !! x = Some "000"%byte.
Proof.
  intros Hx. unfold saved_context. cbv zeta.
  do 15 (rewrite lookup_store32_ne by (unfold_ctx; lia)).
  do 6 apply lookup_store32_zero.
  rewrite lookup_write_bytes, repeat_length.
  case_decide as Hd; [|unfold_ctx; lia].
  apply lookup_repeat. unfold_ctx. lia.
Qed.

(** A save maps nothing. *)
Lemma saved_context_dom c m a x :
  Mem.is_mapped m a C.sizeof = true ->
  is_Some (saved_context c m a !! x) -> is_Some (m !! x).
Proof.
  intros Hm H.
  destruct (decide (a <= x < a + Z.of_nat C.sizeof)) as [Hin|Hout].
  - apply (proj1 (is_mapped_spec _ _ _) Hm). exact Hin.
  - rewrite saved_context_outside in H by lia. exact H.
Qed.

(** A dispatch, with the handler address that it returns. *)
Lemma fake_seh_handler_run code j :
  dispatch_ready j = true ->
  0 <= code < 4294967296 ->
  let m1 := saved_context (cpu j) (vm j) (frame_base j + 0xfc) in
  exists l,
    fake_seh_handler code j =
      (Ok (dec32 (take 4 (drop 4 (peek m1 (load32 m1 tib_address) 12)))),
       mkJitter (dispatch_cpu (cpu j)) 0 (dispatch_mem code (cpu j) (vm j)) 0
                (pc j) (seh_count j + 1) (logged j ++ l)).
Proof.
  intros Hready Hcode. cbv zeta.
  destruct (dispatch_ready_spec j Hready)
    as (Hwf & Hbase & Hframe & Htib & Hseh & Hdisj).
  unfold frame_base in *.
  pose proof (wf_cpu_u32 _ ESP Hwf) as Hesp.
  pose proof (wf_cpu_u32 _ EIP Hwf) as Heip.
  set (base := cpu j ESP - 0x3c8) in *.
  assert (Hctx : Mem.is_mapped (vm j) (base + 0xfc) C.sizeof = true).
  { eapply is_mapped_sub; [exact Hframe | lia | unfold_ctx; lia]. }
  assert (Hhead : load32 (saved_context (cpu j) (vm j) (base + 0xfc)) tib_address
                  = load32 (vm j) tib_address).
  { unfold load32. rewrite saved_context_peek; [reflexivity|].
    unfold_ctx. lia. }
  set (m1 := saved_context (cpu j) (vm j) (base + 0xfc)) in *.
  assert (Hseh1 : Mem.is_mapped m1 (load32 m1 tib_address) 12 = true).
  { rewrite Hhead. apply saved_context_mapped. exact Hseh. }
  assert (Htib1 : Mem.is_mapped m1 tib_address 4 = true)
    by (apply saved_context_mapped; exact Htib).
  assert (Hframe1 : Mem.is_mapped m1 (base - 16) 0x1d8 = true)
    by (apply saved_context_mapped; exact Hframe).
  pose proof (load32_range m1 tib_address) as Hsehr.
  assert (Hsub : forall a n, base - 16 <= a ->
                   a + Z.of_nat n <= base + 0x1c8 ->
                   Mem.is_mapped m1 a n = true).
  { intros a n Ha Hn. eapply is_mapped_sub; [exact Hframe1 | lia | lia]. }
  assert (Hsub0 : forall a n, base - 16 <= a ->
                    a + Z.of_nat n <= base + 0x1c8 ->
                    Mem.is_mapped (vm j) a n = true).
  { intros a n Ha Hn. eapply is_mapped_sub; [exact Hframe | lia | lia]. }
  eexists.
  unfold fake_seh_handler.
  rewrite bind_emit by discriminate.
  rewrite bind_incr_seh_count, bind_get_reg. jflat. fold base.
  cbv zeta. fold base.
  erewrite bind_ok by (apply regs2ctxt_ok; [exact Hwf | exact Hctx]).
  jflat. fold m1.
  rewrite bind_get_mem by exact Htib1.
  rewrite bind_upck32 by apply length_peek.
  fold (load32 m1 tib_address). jflat.
  rewrite bind_get_mem by exact Hseh1.
  rewrite bind_unpack_III by apply length_peek.
  cbv beta iota.
  rewrite bind_emit by discriminate.
  rewrite bind_set_reg. jflat.
  rewrite bind_pck32 by exact Hcode.
  rewrite !bind_pck32 by lia.
  rewrite bind_get_reg. jflat.
  rewrite upd_reg_ne by discriminate.
  rewrite bind_pck32 by exact Heip.
  rewrite bind_pck32 by lia.
  rewrite bind_set_mem by (jflat; apply Hsub; cbn [length app le32]; lia).
  jflat.
  rewrite bind_push_uint32_t;
    [ jflat; rewrite ?upd_reg_read32 by (reflexivity || lia)
    | first [lia | apply load32_range]
    | jflat; rewrite ?upd_reg_read32 by (reflexivity || lia); lia
    | jflat; rewrite ?upd_reg_read32 by (reflexivity || lia);
      mapped_tac; first [apply Hsub; lia | apply Hsub0; lia] ].
  rewrite bind_push_uint32_t;
    [ jflat; rewrite ?upd_reg_read32 by (reflexivity || lia)
    | first [lia | apply load32_range]
    | jflat; rewrite ?upd_reg_read32 by (reflexivity || lia); lia
    | jflat; rewrite ?upd_reg_read32 by (reflexivity || lia);
      mapped_tac; first [apply Hsub; lia | apply Hsub0; lia] ].
  rewrite bind_push_uint32_t;
    [ jflat; rewrite ?upd_reg_read32 by (reflexivity || lia)
    | first [lia | apply load32_range]
    | jflat; rewrite ?upd_reg_read32 by (reflexivity || lia); lia
    | jflat; rewrite ?upd_reg_read32 by (reflexivity || lia);
      mapped_tac; first [apply Hsub; lia | apply Hsub0; lia] ].
  rewrite bind_push_uint32_t;
    [ jflat; rewrite ?upd_reg_read32 by (reflexivity || lia)
    | unfold return_from_exception; lia
    | jflat; rewrite ?upd_reg_read32 by (reflexivity || lia); lia
    | jflat; rewrite ?upd_reg_read32 by (reflexivity || lia);
      mapped_tac; first [apply Hsub; lia | apply Hsub0; lia] ].
  replace (base - 4 - 4 - 4 - 4) with (base - 16) by lia.
  replace (base - 4 - 4 - 4) with (base - 12) by lia.
  replace (base - 4 - 4) with (base - 8) by lia.
  rewrite bind_emit by discriminate. jflat.
  rewrite bind_pck32 by apply load32_range.
  rewrite !bind_pck32 by lia.
  rewrite bind_set_mem
    by (mapped_tac; first [apply Hsub | apply Hsub0];
        cbn [length app le32]; lia).
  jflat.
  rewrite bind_pck32 by lia.
  rewrite bind_set_mem by (mapped_tac; first [exact Htib1 | exact Htib]).
  jflat.
  unfold dump_seh. rewrite bind_bind.
  erewrite bind_ok
    by (apply dump_seh_walk_run;
        [ lia | mapped_tac; apply is_mapped_written ]).
  cbv zeta. jflat.
  rewrite bind_ret.
  rewrite bind_emit by discriminate.
  rewrite bind_vm_set_exception, bind_cpu_set_exception, bind_set_reg.
  jflat.
  unfold ret, dispatch_cpu, dispatch_mem. cbv zeta. fold base. fold m1.
  unfold store32. rewrite <- !app_assoc. reflexivity.
Qed.

Section DispatchArgs.
Variables (code : Z) (c : reg -> Z) (m : gmap Z byte).
Let base := c ESP - 0x3c8.
Hypothesis Hwf : wf_cpu c.
Hypothesis Hbase : 16 <= base.
Hypothesis Hdisj :
  tib_address + 4 <= base - 16 \/ base + 0x1c8 <= tib_address.

Ltac peel' :=
  repeat (rewrite load32_write_bytes_disjoint
            by (cbn [length app le32]; pose proof (wf_cpu_u32 _ ESP Hwf);
                subst base; lia)).

Lemma dispatch_mem_arg_record :
  load32 (dispatch_mem code c m) (base - 12) = base + 0xe8.
Proof.
  unfold dispatch_mem. cbv zeta. fold base. peel'.
  apply load32_store32_eq. pose proof (wf_cpu_u32 _ ESP Hwf).
  subst base. lia.
Qed.

Lemma dispatch_mem_arg_seh :
  load32 (dispatch_mem code c m) (base - 8) = load32 m tib_address.
Proof.
  unfold dispatch_mem. cbv zeta. fold base. peel'.
  rewrite <- (dispatch_mem_head_saved c m Hdisj).
  apply (load32_store32_eq _ _
           (load32 (saved_context c m (c ESP - 968 + 252)) tib_address)).
  apply load32_range.
Qed.

End DispatchArgs.

(** *** [ctxt2regs] touches the register file only *)

Lemma same_but_cpu_refl j : same_but_cpu j j.
Proof. repeat split. Qed.

Lemma same_but_cpu_trans j1 j2 j3 :
  same_but_cpu j1 j2 -> same_but_cpu j2 j3 -> same_but_cpu j1 j3.
Proof.
  unfold same_but_cpu.
  intros (A1 & A2 & A3 & A4 & A5 & A6) (B1 & B2 & B3 & B4 & B5 & B6).
  repeat split; congruence.
Qed.

Lemma same_but_cpu_bind {A B} (m : M A) (f : A -> M B) j :
  (forall j0, same_but_cpu j0 (snd (m j0))) ->
  (forall a j0, same_but_cpu j0 (snd (f a j0))) ->
  same_but_cpu j (snd (bind m f j)).
Proof.
  intros Hm Hf. unfold bind. specialize (Hm j).
  destruct (m j) as [[a|e] j1]; cbn [snd] in *; [|exact Hm].
  eapply same_but_cpu_trans; [exact Hm | apply Hf].
Qed.

Lemma same_but_cpu_reg_of_field r a j :
  same_but_cpu j (snd (reg_of_field r a j)).
Proof.
  unfold reg_of_field. apply same_but_cpu_bind.
  - intros j0. unfold get_field32. apply same_but_cpu_bind.
    + intros j1. unfold get_mem.
      destruct (read_bytes (vm j1) a 4); apply same_but_cpu_refl.
    + intros bs j1. unfold upck32.
      destruct (Pack.upck32 bs); apply same_but_cpu_refl.
  - intros v j0. repeat split.
Qed.

Lemma same_but_cpu_ctxt2regs a j : same_but_cpu j (snd (ctxt2regs a j)).
Proof.
  unfold ctxt2regs. cbv zeta.
  repeat (apply same_but_cpu_bind;
          [intros; apply same_but_cpu_reg_of_field | intros _ ?]).
  apply same_but_cpu_refl.
Qed.

(** A field that cannot be read stops the restoring where it is. *)
Lemma reg_of_field_unmapped {B} r a (k : unit -> M B) j :
  Mem.is_mapped (vm j) a 4 = false ->
  bind (reg_of_field r a) k j = (Raise RuntimeError, j).
Proof.
  intros Hm. unfold reg_of_field, get_field32, bind, get_mem.
  now rewrite (read_bytes_unmapped _ _ _ Hm).
Qed.

Lemma bind_reg_of_field {B} r a (k : unit -> M B) j :
  Mem.is_mapped (vm j) a 4 = true ->
  bind (reg_of_field r a) k j
    = k tt (with_cpu (upd_reg r (load32 (vm j) a) (cpu j)) j).
Proof.
  intros Hm. unfold reg_of_field.
  rewrite bind_bind, bind_get_field32 by exact Hm.
  now rewrite bind_set_reg.
Qed.

End MoreSehFacts.
(* ===================================================================== *)
(** ** Facts on the thread block, the process blocks and init_seh        *)
(* ===================================================================== *)

Module InitFacts.
Import Pack PackFacts Mem MemFacts Jit JitFacts Layout Context ContextFacts.
Import Seh WalkerFacts SehFacts Loader LoaderFacts MoreFacts Init.
Local Open Scope jit_scope.

Lemma bind_set_seh_count {B} n (k : unit -> M B) j :
  bind (set_seh_count n) k j = k tt (with_seh_count n j).
Proof. reflexivity. Qed.

Lemma bind_set_field16 {B} a v (k : unit -> M B) j :
  0 <= v < 65536 ->
  Mem.is_mapped (vm j) a 2 = true ->
  bind (set_field16 a v) k j =
    k tt (with_vm (write_bytes (vm j) a [byte_of_Z v; byte_of_Z (v / 256)]) j).
Proof.
  intros Hv Hm. unfold set_field16, pck16.
  replace ((0 <=? v) && (v <? 65536)) with true
    by (symmetry; apply andb_true_iff; split;
        [apply Z.leb_le | apply Z.ltb_lt]; lia).
  rewrite bind_bind, bind_ret, bind_set_mem by exact Hm. reflexivity.
Qed.

Lemma length_nuls n : length (nuls n) = n.
Proof. apply repeat_length. Qed.

(** *** build_teb *)
Lemma build_teb_run t j :
  0 <= t < 4294967296 ->
  build_teb t j = (Ok tt, with_vm (teb_mem t (vm j)) j).
Proof.
  intros Ht. unfold build_teb.
  rewrite !bind_add_memory_page. jflat.
  change (repeat "000"%byte (Z.to_nat NT_TIB.StackBase)) with (nuls 4).
  change (repeat "000"%byte (Z.to_nat (NT_TIB.sizeof - NT_TIB.Self)))
    with (nuls 4).
  change (repeat "000"%byte
            (Z.to_nat (TEB.LastErrorValue - TEB.ProcessEnvironmentBlock)))
    with (nuls 4).
  unfold TEB.NtTib, NT_TIB.ExceptionList, NT_TIB.Self,
    TEB.ProcessEnvironmentBlock.
  replace (t + 0 + 0) with t by lia.
  replace (t + 0 + 24) with (t + 24) by lia.
  rewrite bind_set_field32;
    [ | unfold DEFAULT_SEH; lia
      | jflat; do 2 apply is_mapped_write_bytes;
        apply (is_mapped_written _ _ (nuls 4)) ].
  jflat.
  rewrite bind_set_field32;
    [ | exact Ht
      | jflat; apply is_mapped_store32; apply is_mapped_write_bytes;
        apply (is_mapped_written _ _ (nuls 4)) ].
  jflat.
  rewrite bind_set_field32;
    [ | unfold peb_address, PEB_AD; lia
      | jflat; do 2 apply is_mapped_store32;
        apply (is_mapped_written _ _ (nuls 4)) ].
  reflexivity.
Qed.

Lemma teb_mem_outside t m x :
  ~ (t <= x < t + 4 \/ t + 24 <= x < t + 28 \/ t + 48 <= x < t + 52) ->
  teb_mem t m !! x = m !! x.
Proof.
  intros Hx. unfold teb_mem. cbv zeta.
  rewrite !lookup_store32_ne by lia.
  rewrite !lookup_write_bytes, !length_nuls.
  repeat (case_decide; [lia|]). reflexivity.
Qed.

Lemma teb_mem_mapped t m a n :
  Mem.is_mapped m a n = true -> Mem.is_mapped (teb_mem t m) a n = true.
Proof. intros H. unfold teb_mem. cbv zeta. mapped_tac. Qed.

Lemma teb_mem_fields t m :
  0 <= t < 4294967296 ->
  read32 (teb_mem t m) t = Some DEFAULT_SEH /\
  read32 (teb_mem t m) (t + 24) = Some t /\
  read32 (teb_mem t m) (t + 48) = Some peb_address.
Proof.
  intros Ht. unfold teb_mem. cbv zeta. split; [|split].
  - rewrite read32_mapped
      by (do 3 apply is_mapped_store32; do 2 apply is_mapped_write_bytes;
          apply (is_mapped_written _ _ (nuls 4))).
    rewrite !load32_store32_ne by lia.
    rewrite load32_store32_eq by (unfold DEFAULT_SEH; lia). reflexivity.
  - rewrite read32_mapped
      by (do 3 apply is_mapped_store32; apply is_mapped_write_bytes;
          apply (is_mapped_written _ _ (nuls 4))).
    rewrite !load32_store32_ne by lia.
    rewrite load32_store32_eq by exact Ht. reflexivity.
  - rewrite read32_mapped
      by (do 3 apply is_mapped_store32;
          apply (is_mapped_written _ _ (nuls 4))).
    rewrite load32_store32_eq by (unfold peb_address, PEB_AD; lia).
    reflexivity.
Qed.

(** *** build_peb *)
Lemma build_peb_run main a j :
  match main with
  | Some p => 0 <= ImageBase p < 4294967296
  | None => True
  end ->
  build_peb main a j = (Ok tt, with_vm (peb_mem main a (vm j)) j).
Proof.
  intros Hmain. unfold build_peb, peb_mem. destruct main as [p|].
  - rewrite bind_add_memory_page. jflat.
    change (repeat "000"%byte (Z.to_nat (4 + 4))) with (nuls 8).
    unfold PEB.ImageBaseAddress, PEB.Ldr.
    rewrite bind_set_field32;
      [ | exact Hmain
        | jflat; eapply is_mapped_sub;
          [apply (is_mapped_written _ _ (nuls 8)) | lia
           | rewrite length_nuls; lia] ].
    jflat.
    rewrite bind_set_field32;
      [ reflexivity
      | unfold peb_ldr_data_address, LDR_AD, peb_ldr_data_offset; lia
      | jflat; apply is_mapped_store32; eapply is_mapped_sub;
        [apply (is_mapped_written _ _ (nuls 8)) | lia
         | rewrite length_nuls; lia] ].
  - rewrite bind_add_memory_page. jflat.
    change (repeat "000"%byte (Z.to_nat (0 + 4))) with (nuls 4).
    rewrite bind_ret. unfold PEB.Ldr.
    replace (a + 0xC) with (a + 12) by lia.
    rewrite bind_set_field32;
      [ reflexivity
      | unfold peb_ldr_data_address, LDR_AD, peb_ldr_data_offset; lia
      | jflat; apply (is_mapped_written _ _ (nuls 4)) ].
Qed.

Lemma peb_mem_outside main a m x :
  x < a + 8 \/ a + 16 <= x -> peb_mem main a m !! x = m !! x.
Proof.
  intros Hx. unfold peb_mem. destruct main; cbv zeta;
    rewrite !lookup_store32_ne by lia;
    rewrite lookup_write_bytes, length_nuls;
    (case_decide; [lia|reflexivity]).
Qed.

Lemma peb_mem_mapped main a m b n :
  Mem.is_mapped m b n = true -> Mem.is_mapped (peb_mem main a m) b n = true.
Proof. intros H. unfold peb_mem. destruct main; cbv zeta; mapped_tac. Qed.

Lemma peb_mem_ldr main a m :
  read32 (peb_mem main a m) (a + 12) = Some peb_ldr_data_address.
Proof.
  unfold peb_mem. destruct main; cbv zeta.
  - rewrite read32_mapped
      by (do 2 apply is_mapped_store32; eapply is_mapped_sub;
          [apply (is_mapped_written _ _ (nuls 8)) | lia
           | rewrite length_nuls; lia]).
    rewrite load32_store32_eq; [reflexivity|].
    unfold peb_ldr_data_address, LDR_AD, peb_ldr_data_offset. lia.
  - rewrite read32_mapped
      by (apply is_mapped_store32; apply (is_mapped_written _ _ (nuls 4))).
    rewrite load32_store32_eq; [reflexivity|].
    unfold peb_ldr_data_address, LDR_AD, peb_ldr_data_offset. lia.
Qed.

(** *** add_process_env and add_process_parameters *)
Lemma process_run j :
  (add_process_env >> add_process_parameters) j =
    (Ok tt, with_vm (process_mem (vm j)) j).
Proof.
  unfold add_process_env, add_process_parameters. cbv zeta.
  rewrite bind_bind, bind_add_memory_page. jflat.
  rewrite bind_set_mem by (jflat; apply is_mapped_written). jflat.
  rewrite bind_pck32 by lia.
  rewrite bind_pck32
    by (unfold process_environment_address; lia).
  reflexivity.
Qed.

Lemma process_mem_outside m x :
  x < process_environment_address \/
  process_parameters_address + 76 <= x ->
  process_mem m !! x = m !! x.
Proof.
  intros Hx. unfold process_mem. cbv zeta.
  rewrite !lookup_write_bytes.
  assert (Hl : length env_str = 119%nat) by reflexivity.
  rewrite Hl.
  unfold process_environment_address, process_parameters_address in *.
  cbn [length app le32 repeat].
  repeat (case_decide; [lia|]).
  reflexivity.
Qed.

Lemma process_mem_mapped m a n :
  Mem.is_mapped m a n = true -> Mem.is_mapped (process_mem m) a n = true.
Proof. intros H. unfold process_mem. cbv zeta. mapped_tac. Qed.

Lemma process_mem_pointer m :
  read32 (process_mem m) process_parameters_address = Some 0x1000 /\
  read32 (process_mem m) (process_parameters_address + 0x48)
    = Some process_environment_address /\
  peek (process_mem m) process_environment_address (length env_str) = env_str.
Proof.
  unfold process_mem. cbv zeta. split; [|split].
  - rewrite read32_mapped
      by (eapply is_mapped_sub;
          [apply is_mapped_written | lia | cbn [length app le32 repeat]; lia]).
    unfold load32.
    replace process_parameters_address with (process_parameters_address + 0)
      at 2 by lia.
    rewrite peek_write_bytes_sub by (cbn [length app le32 repeat]; lia).
    reflexivity.
  - rewrite read32_mapped
      by (eapply is_mapped_sub;
          [apply is_mapped_written | lia | cbn [length app le32 repeat]; lia]).
    unfold load32.
    rewrite peek_write_bytes_sub by (cbn [length app le32 repeat]; lia).
    reflexivity.
  - rewrite peek_write_bytes_disjoint
      by (right; change (length env_str) with 119%nat;
          unfold process_environment_address, process_parameters_address;
          lia).
    apply peek_write_bytes_same.
Qed.

(** *** create_modules_chain *)

Ltac unfold_layout :=
  unfold LdrDataEntry.InLoadOrderLinks, LdrDataEntry.InMemoryOrderLinks,
    LdrDataEntry.InInitializationOrderLinks, LdrDataEntry.DllBase,
    LdrDataEntry.EntryPoint, LdrDataEntry.SizeOfImage,
    LdrDataEntry.FullDllName, LdrDataEntry.BaseDllName, LdrDataEntry.Flags
    in *.

Lemma item_fits_spec fname x :
  item_fits (fname, Some x) = true ->
  0 <= ImageBase x < 4294967296 /\
  0 <= AddressOfEntryPoint x < 4294967296 /\
  0 <= sizeofimage x < 4294967296 /\
  Z.of_nat (length (bname_of fname)) + 3 <= 0x100 /\
  Z.of_nat (length (bpath_of fname)) <= 0xa00.
Proof.
  unfold item_fits, in_u32.
  rewrite !andb_true_iff, !Z.leb_le, !Z.ltb_lt. tauto.
Qed.

(** Peel the writes of a module entry down to its first page. *)
Ltac peel_to_page :=
  lazymatch goal with
  | |- Mem.is_mapped (store32 _ _ _) _ _ = true =>
      apply is_mapped_store32; peel_to_page
  | |- Mem.is_mapped (write_bytes (write_bytes _ _ _) _ _) _ _ = true =>
      apply is_mapped_write_bytes; peel_to_page
  | |- Mem.is_mapped (write_bytes (store32 _ _ _) _ _) _ _ = true =>
      apply is_mapped_write_bytes; peel_to_page
  | |- Mem.is_mapped (write_bytes _ _ _) _ _ = true =>
      apply is_mapped_written
  end.

Ltac in_page :=
  jflat; eapply is_mapped_sub;
  [ peel_to_page
  | unfold_layout; lia
  | rewrite length_nuls; unfold_layout; cbn [length]; lia ].

Lemma create_module_run base i fname x R j :
  item_fits (fname, Some x) = true ->
  0 <= base + i * 0x1000 ->
  base + i * 0x1000 + 0x1000 <= 4294967296 ->
  create_module base i fname (Some x) R j =
    (Ok (add (lower (basename fname)) x (base + i * 0x1000) R),
     with_vm (module_mem (base + i * 0x1000) fname x (vm j))
       (with_logged (logged j ++ [(INFO, "Add module %x %r"%string)]) j)).
Proof.
  intros Hfit Hlo Hhi.
  destruct (item_fits_spec _ _ Hfit) as (Hb & He & Hs & Hn & Hp).
  unfold create_module. cbv zeta.
  fold (bname_of fname).
  set (addr := base + i * 0x1000) in *.
  set (n := Z.of_nat (length (bname_of fname))) in *.
  rewrite bind_emit by discriminate.
  rewrite bind_add_memory_page. jflat.
  rewrite bind_set_field32; [ | exact Hb | in_page ]. jflat.
  rewrite bind_set_field32; [ | exact He | in_page ]. jflat.
  rewrite bind_set_field32; [ | exact Hs | in_page ]. jflat.
  rewrite bind_set_field16; [ | lia | in_page ]. jflat.
  rewrite bind_set_field16; [ | lia | in_page ]. jflat.
  rewrite bind_set_field32; [ | lia | in_page ]. jflat.
  rewrite bind_set_field16; [ | lia | in_page ]. jflat.
  rewrite bind_set_field16; [ | lia | in_page ]. jflat.
  rewrite bind_set_field32; [ | lia | in_page ]. jflat.
  rewrite !bind_add_memory_page. jflat.
  unfold module_mem, bpath_of. cbv zeta. fold n. reflexivity.
Qed.

Lemma register_from_all regs : register_from no_modules regs = register_all regs.
Proof. reflexivity. Qed.

Lemma create_modules_from_run base items : forall i R j,
  forallb item_fits items = true ->
  0 <= base + i * 0x1000 ->
  base + (i + Z.of_nat (length items)) * 0x1000 <= 4294967296 ->
  0 <= i ->
  exists l,
    create_modules_from base i items R j =
      (Ok (register_from R (registrations base i items)),
       with_vm (created_mem base i items (vm j))
         (with_logged (logged j ++ l) j)).
Proof.
  induction items as [|[fname [x|]] items IH]; intros i R j Hfit Hlo Hhi Hi.
  - exists []. cbn [create_modules_from registrations created_mem register_from
                    fold_left].
    destruct j. unfold ret, with_vm, with_logged. cbn.
    now rewrite app_nil_r.
  - cbn [forallb] in Hfit. apply andb_true_iff in Hfit as [Hfit Hrest].
    cbn [length] in Hhi.
    cbn [create_modules_from registrations created_mem].
    erewrite bind_ok by (apply create_module_run; [exact Hfit | lia | nia]).
    destruct (IH (i + 1)
                 (add (lower (basename fname)) x (base + i * 0x1000) R)
                 (with_vm (module_mem (base + i * 0x1000) fname x (vm j))
                    (with_logged
                       (logged j ++ [(INFO, "Add module %x %r"%string)]) j))
                 Hrest ltac:(lia) ltac:(nia) ltac:(lia)) as [l Hl].
    rewrite Hl. eexists. destruct j. unfold with_vm, with_logged. cbn.
    rewrite <- app_assoc. reflexivity.
  - cbn [forallb] in Hfit. apply andb_true_iff in Hfit as [_ Hrest].
    cbn [length] in Hhi.
    cbn [create_modules_from registrations created_mem].
    unfold create_module. rewrite bind_bind, bind_emit by discriminate.
    rewrite bind_ret.
    destruct (IH (i + 1) R
                 (with_logged
                    (logged j
                     ++ [(WARNING,
                          "Unknown module: ommited from link list (%r)"%string)])
                    j)
                 Hrest ltac:(lia) ltac:(nia) ltac:(lia)) as [l Hl].
    rewrite Hl. eexists. destruct j. unfold with_vm, with_logged. cbn.
    rewrite <- app_assoc. reflexivity.
Qed.

(** *** Memory after the creation of the entries *)

Lemma length_tail_name fname :
  length (bname_of fname ++ nuls 3) = (length (bname_of fname) + 3)%nat.
Proof. now rewrite length_app, length_nuls. Qed.

Lemma module_mem_outside addr fname x m y :
  item_fits (fname, Some x) = true ->
  y < addr \/ addr + 0x1000 <= y ->
  module_mem addr fname x m !! y = m !! y.
Proof.
  intros Hfit Hy.
  destruct (item_fits_spec _ _ Hfit) as (_ & _ & _ & Hn & Hp).
  unfold module_mem. cbv zeta. unfold_layout.
  rewrite !lookup_write_bytes, length_tail_name.
  case_decide; [lia|].
  case_decide; [lia|].
  rewrite lookup_store32_ne by lia.
  rewrite !lookup_write_bytes. cbn [length].
  case_decide; [lia|].
  case_decide; [lia|].
  rewrite lookup_store32_ne by lia.
  rewrite !lookup_write_bytes. cbn [length].
  case_decide; [lia|].
  case_decide; [lia|].
  rewrite !lookup_store32_ne by lia.
  rewrite lookup_write_bytes, length_nuls.
  case_decide; [lia|]. reflexivity.
Qed.

Lemma module_mem_mapped addr fname x m a n :
  Mem.is_mapped m a n = true ->
  Mem.is_mapped (module_mem addr fname x m) a n = true.
Proof. intros H. unfold module_mem. cbv zeta. mapped_tac. Qed.

Lemma module_mem_entry_mapped addr fname x m :
  Mem.is_mapped (module_mem addr fname x m) addr 52 = true.
Proof.
  unfold module_mem. cbv zeta.
  do 2 apply is_mapped_write_bytes.
  peel_to_page.
Qed.

Lemma entry_words_ext m m' e x :
  (forall y, e <= y < e + 52 -> m' !! y = m !! y) ->
  entry_words m e x -> entry_words m' e x.
Proof.
  intros Hext (Hm & H1 & H2 & H3 & H4 & H5).
  assert (Hl : forall k, 0 <= k <= 48 -> load32 m' (e + k) = load32 m (e + k)).
  { intros k Hk. unfold load32. f_equal. apply peek_ext. intros y Hy.
    apply Hext. lia. }
  split.
  - eapply is_mapped_ext; [|exact Hm]. intros y Hy Hs.
    now rewrite Hext by lia.
  - rewrite !Hl by lia. tauto.
Qed.

Lemma module_mem_words addr fname x m :
  item_fits (fname, Some x) = true ->
  0 <= addr -> addr + 0x1000 <= 4294967296 ->
  entry_words (module_mem addr fname x m) addr x.
Proof.
  intros Hfit Hlo Hhi.
  destruct (item_fits_spec _ _ Hfit) as (Hb & He & Hs & Hn & Hp).
  split; [apply module_mem_entry_mapped|].
  unfold module_mem. cbv zeta. unfold_layout.
  replace (addr + 36 + 4) with (addr + 40) by lia.
  replace (addr + 44 + 4) with (addr + 48) by lia.
  repeat split.
  - do 2 (rewrite load32_write_bytes_disjoint by lia).
    rewrite load32_store32_ne by lia.
    do 2 (rewrite load32_write_bytes_disjoint by (cbn [length]; lia)).
    rewrite load32_store32_ne by lia.
    do 2 (rewrite load32_write_bytes_disjoint by (cbn [length]; lia)).
    rewrite !load32_store32_ne by lia.
    now apply load32_store32_eq.
  - do 2 (rewrite load32_write_bytes_disjoint by lia).
    rewrite load32_store32_ne by lia.
    do 2 (rewrite load32_write_bytes_disjoint by (cbn [length]; lia)).
    rewrite load32_store32_ne by lia.
    do 2 (rewrite load32_write_bytes_disjoint by (cbn [length]; lia)).
    rewrite !load32_store32_ne by lia.
    now apply load32_store32_eq.
  - do 2 (rewrite load32_write_bytes_disjoint by lia).
    rewrite load32_store32_ne by lia.
    do 2 (rewrite load32_write_bytes_disjoint by (cbn [length]; lia)).
    rewrite load32_store32_ne by lia.
    do 2 (rewrite load32_write_bytes_disjoint by (cbn [length]; lia)).
    now apply load32_store32_eq.
  - do 2 (rewrite load32_write_bytes_disjoint by lia).
    rewrite load32_store32_ne by lia.
    do 2 (rewrite load32_write_bytes_disjoint by (cbn [length]; lia)).
    apply load32_store32_eq. lia.
  - do 2 (rewrite load32_write_bytes_disjoint by lia).
    apply load32_store32_eq. lia.
Qed.

Lemma created_mem_outside base items : forall i m y,
  forallb item_fits items = true ->
  y < base + i * 0x1000 \/
  base + (i + Z.of_nat (length items)) * 0x1000 <= y ->
  created_mem base i items m !! y = m !! y.
Proof.
  induction items as [|[fname [x|]] items IH]; intros i m y Hfit Hy;
    cbn [created_mem]; [reflexivity| |];
    cbn [forallb] in Hfit; apply andb_true_iff in Hfit as [Hfit Hrest];
    cbn [length] in Hy.
  - rewrite IH by (try exact Hrest; lia).
    apply module_mem_outside; [exact Hfit | lia].
  - apply IH; [exact Hrest | lia].
Qed.

Lemma created_mem_mapped base items : forall i m a n,
  Mem.is_mapped m a n = true ->
  Mem.is_mapped (created_mem base i items m) a n = true.
Proof.
  induction items as [|[fname [x|]] items IH]; intros i m a n H;
    cbn [created_mem]; [exact H| |].
  - apply IH. now apply module_mem_mapped.
  - now apply IH.
Qed.

Lemma registrations_range base items : forall i n x e,
  (n, x, e) ∈ registrations base i items ->
  exists k, i <= k < i + Z.of_nat (length items) /\ e = base + k * 0x1000.
Proof.
  induction items as [|[fname [x0|]] items IH]; intros i n x e Hin;
    cbn [registrations] in Hin.
  - now apply elem_of_nil in Hin.
  - apply elem_of_cons in Hin as [Heq|Hin].
    + injection Heq as -> -> ->. exists i. cbn [length]. split; [lia|reflexivity].
    + destruct (IH _ _ _ _ Hin) as (k & Hk & ->).
      exists k. cbn [length]. split; [lia|reflexivity].
  - destruct (IH _ _ _ _ Hin) as (k & Hk & ->).
    exists k. cbn [length]. split; [lia|reflexivity].
Qed.

Lemma registrations_length base items : forall i,
  (length (registrations base i items) <= length items)%nat.
Proof.
  induction items as [|[fname [x0|]] items IH]; intros i;
    cbn [registrations length]; [lia| |]; specialize (IH (i + 1)); lia.
Qed.

Lemma registrations_spaced base items : forall i,
  spaced (map reg_entry (registrations base i items)) = true.
Proof.
  induction items as [|[fname [x0|]] items IH]; intros i;
    cbn [registrations map]; [reflexivity| |apply IH].
  apply spaced_cons. split; [|apply IH].
  intros e' He'. apply list_elem_of_fmap in He' as ([[n x] e] & -> & Hin).
  destruct (registrations_range _ _ _ _ _ _ Hin) as (k & Hk & ->).
  unfold far, reg_entry. cbn [snd]. lia.
Qed.

Lemma created_mem_words base items : forall i m n x e,
  forallb item_fits items = true ->
  0 <= i -> 0 <= base ->
  base + (i + Z.of_nat (length items)) * 0x1000 <= 4294967296 ->
  (n, x, e) ∈ registrations base i items ->
  entry_words (created_mem base i items m) e x.
Proof.
  induction items as [|[fname [x0|]] items IH]; intros i m n x e Hfit Hi Hb Hhi Hin;
    cbn [registrations] in Hin; cbn [created_mem];
    [now apply elem_of_nil in Hin| |];
    cbn [forallb] in Hfit; apply andb_true_iff in Hfit as [Hfit Hrest];
    cbn [length] in Hhi.
  - apply elem_of_cons in Hin as [Heq|Hin].
    + injection Heq as -> -> ->.
      eapply entry_words_ext;
        [|apply module_mem_words; [exact Hfit | nia | nia]].
      intros y Hy. apply created_mem_outside; [exact Hrest | lia].
    + eapply IH; [exact Hrest | lia | lia | nia | exact Hin].
  - eapply IH; [exact Hrest | lia | lia | nia | exact Hin].
Qed.

(** The entries that [create_modules_chain] lays out can be linked. *)
Lemma created_ready items m :
  items_fit items = true ->
  let base := LDR_AD + modules_list_offset in
  let regs := registrations base 1 items in
  NoDup (map reg_module regs) ->
  entries_ready regs (created_mem base 1 items m) = true.
Proof.
  intros Hfit base regs Hnd.
  unfold items_fit in Hfit. apply andb_true_iff in Hfit as [Hfit Hlen].
  apply Z.leb_le in Hlen. unfold MAX_MODULES in Hlen.
  unfold entries_ready. rewrite !andb_true_iff. split; [split|].
  - now apply bool_decide_eq_true.
  - apply forallb_forall. intros [[n x] e] Hin.
    apply list_elem_of_In in Hin.
    destruct (registrations_range _ _ _ _ _ _ Hin) as (k & Hk & He).
    assert (Hw : entry_words (created_mem base 1 items m) e x).
    { eapply created_mem_words; [exact Hfit | lia | subst base; unfold LDR_AD,
        modules_list_offset; lia | | exact Hin].
      subst base. unfold LDR_AD, modules_list_offset. lia. }
    destruct Hw as (Hm & _).
    cbv zeta. unfold reg_entry. cbn [snd].
    rewrite !andb_true_iff, orb_true_iff, !Z.leb_le.
    rewrite list_head_value.
    subst base. unfold LDR_AD, modules_list_offset in He.
    repeat split; try lia.
    eapply is_mapped_sub; [exact Hm | lia | lia].
  - apply registrations_spaced.
Qed.

(** *** init_seh *)

Lemma read32_process_mem m a :
  a + 4 <= process_environment_address \/
  process_parameters_address + 76 <= a ->
  read32 (process_mem m) a = read32 m a.
Proof.
  intros Ha. apply read32_ext. intros x Hx.
  apply process_mem_outside. lia.
Qed.

Lemma read32_write_bytes_disjoint m a bs b :
  a + Z.of_nat (length bs) <= b \/ b + 4 <= a ->
  read32 (write_bytes m a bs) b = read32 m b.
Proof.
  intros H. apply read32_ext. intros x Hx.
  rewrite lookup_write_bytes. case_decide; [lia|reflexivity].
Qed.

Lemma read32_peb_mem main a m b :
  b + 4 <= a + 8 \/ a + 16 <= b ->
  read32 (peb_mem main a m) b = read32 m b.
Proof.
  intros H. apply read32_ext. intros x Hx.
  apply peb_mem_outside. lia.
Qed.

Lemma set_link_list_entry_nil R offset j :
  set_link_list_entry [] R offset j = (Ok tt, j).
Proof. reflexivity. Qed.

(** The run of [init_seh] on the empty dictionary. *)
Lemma init_seh_empty_run main name j :
  match main with
  | Some p => 0 <= ImageBase p < 4294967296
  | None => True
  end ->
  init_seh [] main name j =
    (Ok tt,
     mkJitter (cpu j) (cpu_exception j)
       (process_mem
          (write_bytes
             (peb_mem main peb_address (teb_mem FS_0_AD (vm j)))
             (peb_ldr_data_address + 0x24) (le32 0)))
       (vm_exception j) (pc j) 0
       (logged j
        ++ [(WARNING, "No main pe, ldr data will be unconsistant %r"%string);
            (WARNING, "No main pe, ldr data will be unconsistant"%string);
            (WARNING, "No main pe, ldr data will be unconsistant"%string)])).
Proof.
  intros Hmain. unfold init_seh.
  rewrite bind_set_seh_count.
  erewrite bind_ok by (apply build_teb_run; unfold FS_0_AD; lia).
  erewrite bind_ok by (apply build_peb_run; exact Hmain).
  unfold create_modules_chain. cbn [create_modules_from]. rewrite bind_ret.
  assert (Hnone : special_first name no_modules = None)
    by (apply special_first_absent; left; apply lookup_empty).
  assert (Hnone' : special_first_init name no_modules = None)
    by (now apply special_first_None).
  unfold bind at 1.
  rewrite fix_InLoadOrderModuleList_run, Hnone, set_link_list_entry_nil.
  unfold bind at 1.
  rewrite fix_InMemoryOrderModuleList_run, Hnone, set_link_list_entry_nil.
  unfold bind at 1.
  rewrite fix_InInitializationOrderModuleList_run, Hnone',
    set_link_list_entry_nil.
  unfold bind at 1.
  unfold build_ldr_data. cbv zeta.
  assert (E1 : name2module no_modules !! name = None) by apply lookup_empty.
  assert (E2 : name2module no_modules !! "ntdll.dll"%string = None)
    by apply lookup_empty.
  rewrite E1, E2. rewrite !bind_ret. cbv beta iota.
  rewrite bind_add_memory_page. rewrite !bind_ret.
  rewrite bind_pck32 by lia.
  unfold add_memory_page at 1.
  fold (add_process_env >> add_process_parameters).
  rewrite process_run. jflat.
  rewrite <- !app_assoc. reflexivity.
Qed.

Lemma link_then {B} name R (k : M B) j :
  (fix_InLoadOrderModuleList name R >>
   fix_InMemoryOrderModuleList name R >>
   fix_InInitializationOrderModuleList name R >>
   build_ldr_data name R >> k) j
  = (link_loader_lists name R >> k) j.
Proof.
  unfold link_loader_lists, bind.
  destruct (fix_InLoadOrderModuleList name R j) as [[[]|?] j1]; [|reflexivity].
  destruct (fix_InMemoryOrderModuleList name R j1) as [[[]|?] j2];
    [|reflexivity].
  destruct (fix_InInitializationOrderModuleList name R j2) as [[[]|?] j3];
    [|reflexivity].
  reflexivity.
Qed.

(** The run of [init_seh] on a dictionary that holds the three named
    modules. *)
Section InitRun.
Variables (items : list (string * option pe)) (main : option pe).
Variables (name : string) (j : jitter) (mainmod ntdll kernel32 : pe).
Let base := LDR_AD + modules_list_offset.
Let regs := registrations base 1 items.
Let R := register_all regs.
Hypothesis Hfit : items_fit items = true.
Hypothesis Hmainpe :
  match main with
  | Some p => 0 <= ImageBase p < 4294967296
  | None => True
  end.
Hypothesis Hnd : NoDup (map reg_module regs).
Hypothesis Hn1 : name <> "ntdll.dll"%string.
Hypothesis Hn2 : name <> "kernel32.dll"%string.
Hypothesis Hmain : name2module R !! name = Some mainmod.
Hypothesis Hntdll : name2module R !! "ntdll.dll"%string = Some ntdll.
Hypothesis Hk32 : name2module R !! "kernel32.dll"%string = Some kernel32.
Let m0 := peb_mem main peb_address (teb_mem FS_0_AD (vm j)).
Let mc := created_mem base 1 items m0.

Lemma init_ready : entries_ready regs mc = true.
Proof. apply (created_ready items m0 Hfit Hnd). Qed.

Lemma init_fit_parts :
  forallb item_fits items = true /\ Z.of_nat (length items) <= 0x40.
Proof.
  unfold items_fit in Hfit. apply andb_true_iff in Hfit as [H1 H2].
  apply Z.leb_le in H2. now split.
Qed.

Lemma init_seh_run :
  exists em en l,
    module2entry R !! mainmod = Some em /\
    module2entry R !! ntdll = Some en /\
    entry_ok mc em /\ entry_ok mc en /\
    init_seh items main name j =
      (Ok tt,
       mkJitter (cpu j) (cpu_exception j)
         (process_mem
            (linked_mem regs (with_vm mc j) mainmod ntdll kernel32 em en))
         (vm_exception j) (pc j) 0 (logged j ++ l)).
Proof.
  destruct init_fit_parts as [Hfits Hlen].
  set (J0 := with_vm m0 (with_seh_count 0 j)).
  destruct (create_modules_from_run base items 1 no_modules J0 Hfits)
    as [l Hl];
    [ subst base; unfold LDR_AD, modules_list_offset; lia
    | subst base; unfold LDR_AD, modules_list_offset; lia
    | lia | ].
  set (J := with_vm (created_mem base 1 items (vm J0))
              (with_logged (logged J0 ++ l) J0)) in Hl.
  assert (HreadyJ : entries_ready regs (vm J) = true) by exact init_ready.
  destruct (link_loader_lists_ok regs J name mainmod ntdll kernel32
              HreadyJ Hn1 Hn2 Hmain Hntdll Hk32)
    as (em & en & Hem & Hen & Hokm & Hokn & Hrun).
  exists em, en, l.
  split; [exact Hem|]. split; [exact Hen|].
  split; [exact Hokm|]. split; [exact Hokn|].
  unfold init_seh.
  rewrite bind_set_seh_count.
  erewrite bind_ok by (apply build_teb_run; unfold FS_0_AD; lia).
  erewrite bind_ok by (apply build_peb_run; exact Hmainpe).
  unfold create_modules_chain. cbv zeta. fold base.
  erewrite bind_ok by exact Hl.
  rewrite link_then.
  erewrite bind_ok by exact Hrun.
  rewrite process_run. subst J J0. destruct j. reflexivity.
Qed.


(** The memory that [init_seh] leaves. *)
Variables (em en : Z).
Hypothesis Hem : module2entry R !! mainmod = Some em.
Hypothesis Hen : module2entry R !! ntdll = Some en.
Let ml := linked_mem regs (with_vm mc j) mainmod ntdll kernel32 em en.
Let mf := process_mem ml.
Let L0 := mainmod :: ntdll :: kernel32
            :: without [mainmod; kernel32; ntdll] (modules R).
Let L2 := ntdll :: kernel32
            :: without [mainmod; kernel32; ntdll] (modules R).

Lemma init_reg_range n x e :
  (n, x, e) ∈ regs -> exists k, 1 <= k <= 0x40 /\ e = base + k * 0x1000.
Proof.
  intros Hin. destruct init_fit_parts as [_ Hlen].
  destruct (registrations_range _ _ _ _ _ _ Hin) as (k & Hk & ->).
  exists k. split; [lia|reflexivity].
Qed.

Lemma init_L0 : NoDup L0 /\ (forall x, x ∈ L0 -> x ∈ modules R).
Proof.
  apply (linked_L0 regs (with_vm mc j) name mainmod ntdll kernel32
           init_ready Hn1 Hn2 Hmain Hntdll Hk32).
Qed.

Lemma init_L2 : NoDup L2 /\ (forall x, x ∈ L2 -> x ∈ modules R).
Proof.
  apply (linked_L2 regs (with_vm mc j) name mainmod ntdll kernel32
           init_ready Hn1 Hn2 Hmain Hntdll Hk32).
Qed.

Lemma init_entry_registered L e :
  (forall x, x ∈ L -> x ∈ modules R) ->
  e ∈ entries_of R L -> exists n x, (n, x, e) ∈ regs.
Proof.
  intros HL He. unfold entries_of in He.
  apply list_elem_of_fmap in He as (x & -> & Hx).
  destruct (ready_module regs mc init_ready x (HL x Hx))
    as (i & n & e & Hi & He & _).
  fold R in He. rewrite He. cbn. exists n, x.
  eapply list_elem_of_lookup_2. exact Hi.
Qed.

Lemma init_linked_outside y :
  (forall n x e, (n, x, e) ∈ regs -> y < e \/ e + 24 <= y) ->
  y < list_head \/ list_head + 28 <= y ->
  ml !! y = mc !! y.
Proof.
  intros Hy Hh. destruct init_L0 as [_ Hin0], init_L2 as [_ Hin2].
  subst ml. unfold linked_mem. cbv zeta. fold R. cbn [vm with_vm].
  rewrite ldr_data_mem_outside by exact Hh.
  rewrite link_all_outside.
  2:{ intros e He. destruct (init_entry_registered L2 e Hin2 He) as (n & x & Hr).
      specialize (Hy n x e Hr). lia. }
  rewrite link_all_outside.
  2:{ intros e He. destruct (init_entry_registered L0 e Hin0 He) as (n & x & Hr).
      specialize (Hy n x e Hr). lia. }
  rewrite link_all_outside.
  2:{ intros e He. destruct (init_entry_registered L0 e Hin0 He) as (n & x & Hr).
      specialize (Hy n x e Hr). lia. }
  reflexivity.
Qed.

Lemma init_high y : 0x382f00 <= y -> mf !! y = m0 !! y.
Proof.
  intros Hy. destruct init_fit_parts as [Hfits Hlen].
  subst mf. rewrite process_mem_outside
    by (unfold process_parameters_address; lia).
  rewrite init_linked_outside.
  - subst mc. apply created_mem_outside; [exact Hfits|].
    subst base. unfold LDR_AD, modules_list_offset. lia.
  - intros n x e Hr. destruct (init_reg_range n x e Hr) as (k & Hk & ->).
    subst base. unfold LDR_AD, modules_list_offset. lia.
  - rewrite list_head_value. lia.
Qed.

Lemma init_teb_peb :
  read32 mf FS_0_AD = Some DEFAULT_SEH /\
  read32 mf (FS_0_AD + 24) = Some FS_0_AD /\
  read32 mf (FS_0_AD + 48) = Some peb_address /\
  read32 mf (peb_address + 12) = Some peb_ldr_data_address.
Proof.
  assert (Hhi : forall a, 0x382f00 <= a -> read32 mf a = read32 m0 a).
  { intros a Ha. apply read32_ext. intros x Hx. apply init_high. lia. }
  destruct (teb_mem_fields FS_0_AD (vm j)) as (T1 & T2 & T3);
    [unfold FS_0_AD; lia|].
  rewrite !Hhi by (unfold FS_0_AD, peb_address, PEB_AD; lia).
  subst m0.
  rewrite !read32_peb_mem by (unfold FS_0_AD, peb_address, PEB_AD; lia).
  rewrite peb_mem_ldr. now rewrite T1, T2, T3.
Qed.

Lemma init_image_base p :
  main = Some p -> read32 mf (peb_address + 8) = Some (ImageBase p).
Proof.
  intros Hp.
  assert (Hhi : forall a, 0x382f00 <= a -> read32 mf a = read32 m0 a).
  { intros a Ha. apply read32_ext. intros x Hx. apply init_high. lia. }
  rewrite Hhi by (unfold peb_address, PEB_AD; lia).
  assert (Hb : 0 <= ImageBase p < 4294967296)
    by (pose proof Hmainpe as H; rewrite Hp in H; exact H).
  subst m0. rewrite Hp. unfold peb_mem. cbv zeta.
  rewrite read32_mapped
    by (do 2 apply is_mapped_store32; eapply is_mapped_sub;
        [apply (is_mapped_written _ _ (nuls 8)) | lia
         | rewrite length_nuls; lia]).
  rewrite load32_store32_ne by lia.
  now rewrite load32_store32_eq by exact Hb.
Qed.

Lemma init_mapped a n :
  Mem.is_mapped mc a n = true -> Mem.is_mapped mf a n = true.
Proof.
  intros H. subst mf ml. apply process_mem_mapped.
  unfold linked_mem. cbv zeta. apply ldr_data_mem_mapped.
  do 3 apply link_all_mapped. exact H.
Qed.

Lemma init_entry_words n x e :
  (n, x, e) ∈ regs -> entry_words mf e x.
Proof.
  intros Hr. destruct init_fit_parts as [Hfits Hlen].
  assert (Hw : entry_words mc e x).
  { subst mc. eapply created_mem_words;
      [exact Hfits | lia | subst base; unfold LDR_AD, modules_list_offset; lia
       | subst base; unfold LDR_AD, modules_list_offset; lia | exact Hr]. }
  destruct (init_reg_range n x e Hr) as (k & Hk & He).
  assert (Hsame : forall y, e + 24 <= y < e + 52 -> mf !! y = mc !! y).
  { intros y Hy. subst mf.
    rewrite process_mem_outside
      by (subst base; unfold LDR_AD, modules_list_offset,
            process_parameters_address in *; lia).
    apply init_linked_outside.
    - intros n' x' e' Hr'.
      destruct (init_reg_range n' x' e' Hr') as (k' & Hk' & He').
      lia.
    - rewrite list_head_value.
      subst base. unfold LDR_AD, modules_list_offset in *. lia. }
  destruct Hw as (Hm & H1 & H2 & H3 & H4 & H5).
  assert (Hl : forall d, 24 <= d <= 48 -> load32 mf (e + d) = load32 mc (e + d)).
  { intros d Hd. unfold load32. f_equal. apply peek_ext. intros y Hy.
    apply Hsame. lia. }
  split; [now apply init_mapped|].
  rewrite !Hl by lia. tauto.
Qed.

Lemma init_links :
  links_at mf 0 (entries_of R L0) /\
  links_at mf 8 (entries_of R L0) /\
  links_at mf 16 (entries_of R L2).
Proof.
  destruct init_L0 as [_ Hin0], init_L2 as [_ Hin2].
  destruct (linked_mem_links regs (with_vm mc j) name mainmod ntdll kernel32
              init_ready Hn1 Hn2 Hmain Hntdll Hk32 em en) as (Hl0 & Hl1 & Hl2).
  assert (Hext : forall L e x, (forall z, z ∈ L -> z ∈ modules R) ->
            e ∈ entries_of R L -> e <= x < e + 24 -> mf !! x = ml !! x).
  { intros L e x HL He Hx. subst mf.
    destruct (init_entry_registered L e HL He) as (n & x0 & Hr).
    destruct (init_reg_range n x0 e Hr) as (k & Hk & Hek).
    apply process_mem_outside.
    subst base. unfold LDR_AD, modules_list_offset,
      process_parameters_address in *. lia. }
  split; [|split].
  - eapply links_at_ext; [|exact Hl0].
    intros e x He Hx. apply (Hext L0 e x Hin0 He). lia.
  - eapply links_at_ext; [|exact Hl1].
    intros e x He Hx. apply (Hext L0 e x Hin0 He). lia.
  - eapply links_at_ext; [|exact Hl2].
    intros e x He Hx. apply (Hext L2 e x Hin2 He). lia.
Qed.

Lemma init_heads :
  entry_ok mc em -> entry_ok mc en ->
  read32 mf (list_head + 0) = Some (em + 0) /\
  read32 mf (list_head + 8) = Some (em + 8) /\
  read32 mf (list_head + 16) = Some (en + 16).
Proof.
  intros Hokm Hokn.
  assert (Rm : 0 <= em /\ em + 24 <= 4294967296) by (destruct Hokm; lia).
  assert (Rn : 0 <= en /\ en + 24 <= 4294967296) by (destruct Hokn; lia).
  subst mf.
  rewrite !read32_process_mem
    by (rewrite list_head_value; unfold process_parameters_address; lia).
  subst ml. unfold linked_mem. cbv zeta.
  now apply ldr_data_mem_flinks.
Qed.

Lemma init_parameters :
  read32 mf (process_parameters_address + 0x48)
    = Some process_environment_address.
Proof. subst mf. apply process_mem_pointer. Qed.

End InitRun.

End InitFacts.
(* ===================================================================== *)
(** ** Facts on the registry and on the lookups of the fixups            *)
(* ===================================================================== *)

Module RegistryFacts.
Import Pack PackFacts Mem MemFacts Jit JitFacts Layout Context ContextFacts.
Import Seh WalkerFacts SehFacts Loader LoaderFacts MoreFacts Init.
Local Open Scope jit_scope.

Lemma register_from_all' regs : register_from no_modules regs = register_all regs.
Proof. reflexivity. Qed.

(** What [add] keeps. *)
Lemma registry_keeps regs :
  let R := register_all regs in
  (forall x, x ∈ modules R <-> is_Some (module2entry R !! x)) /\
  (forall x, x ∈ modules R <-> is_Some (module2name R !! x)) /\
  (forall n x, name2module R !! n = Some x -> x ∈ modules R) /\
  (forall x n, module2name R !! x = Some n -> is_Some (name2module R !! n)).
Proof.
  induction regs as [|[[n x] e] regs IH] using rev_ind.
  - cbn. repeat split; intros.
    + now apply elem_of_nil in H.
    + rewrite lookup_empty in H. now destruct H.
    + now apply elem_of_nil in H.
    + rewrite lookup_empty in H. now destruct H.
    + now rewrite lookup_empty in H.
    + now rewrite lookup_empty in H.
  - cbv zeta in IH |- *. rewrite register_all_snoc.
    destruct IH as (I1 & I2 & I3 & I4).
    set (R := register_all regs) in *.
    unfold add. cbn [modules name2module module2entry module2name].
    repeat split.
    + intros Hx. apply elem_of_app in Hx as [Hx|Hx].
      * destruct (decide (x = x0)) as [->|Hne];
          [rewrite lookup_insert_eq; eauto|].
        rewrite lookup_insert_ne by exact Hne. now apply I1.
      * apply list_elem_of_singleton in Hx as ->.
        rewrite lookup_insert_eq. eauto.
    + intros Hx. apply elem_of_app.
      destruct (decide (x = x0)) as [->|Hne].
      * right. now apply list_elem_of_singleton.
      * rewrite lookup_insert_ne in Hx by exact Hne. left. now apply I1.
    + intros Hx. apply elem_of_app in Hx as [Hx|Hx].
      * destruct (decide (x = x0)) as [->|Hne];
          [rewrite lookup_insert_eq; eauto|].
        rewrite lookup_insert_ne by exact Hne. now apply I2.
      * apply list_elem_of_singleton in Hx as ->.
        rewrite lookup_insert_eq. eauto.
    + intros Hx. apply elem_of_app.
      destruct (decide (x = x0)) as [->|Hne].
      * right. now apply list_elem_of_singleton.
      * rewrite lookup_insert_ne in Hx by exact Hne. left. now apply I2.
    + intros n0 x0 Hn. apply elem_of_app.
      destruct (decide (n = n0)) as [->|Hne].
      * rewrite lookup_insert_eq in Hn. injection Hn as <-.
        right. now apply list_elem_of_singleton.
      * rewrite lookup_insert_ne in Hn by exact Hne. left. eapply I3; eauto.
    + intros x0 n0 Hx.
      destruct (decide (x = x0)) as [->|Hne].
      * rewrite lookup_insert_eq in Hx. injection Hx as <-.
        rewrite lookup_insert_eq. eauto.
      * rewrite lookup_insert_ne in Hx by exact Hne.
        destruct (decide (n = n0)) as [->|Hnn];
          [rewrite lookup_insert_eq; eauto|].
        rewrite lookup_insert_ne by exact Hnn. eapply I4; eauto.
Qed.

(** *** Outcomes that are not a failed lookup *)

Lemma outcome_bind {A B} (P : A -> Prop) (Q : B -> Prop)
  (m : M A) (f : A -> M B) j :
  outcome P (m j) ->
  (forall a j', P a -> outcome Q (f a j')) ->
  outcome Q (bind m f j).
Proof.
  intros Hm Hf. unfold bind, outcome in *.
  destruct (m j) as [[a|e] j']; [now apply Hf|exact Hm].
Qed.

Lemma outcome_weaken {A} (P Q : A -> Prop) (r : result A * jitter) :
  (forall a, P a -> Q a) -> outcome P r -> outcome Q r.
Proof.
  intros H. unfold outcome. destruct (fst r) as [a|e]; [apply H|exact id].
Qed.

Lemma lookup_free_bind {A B} (m : M A) (f : A -> M B) j :
  lookup_free (m j) ->
  (forall a j', lookup_free (f a j')) ->
  lookup_free (bind m f j).
Proof.
  intros Hm Hf. apply (outcome_bind (fun _ => True)); [exact Hm|].
  intros a j' _. apply Hf.
Qed.

Lemma lookup_free_ok {A} (a : A) j : lookup_free (Ok a, j).
Proof. exact I. Qed.

Lemma lookup_free_pck32 v j : lookup_free (pck32 v j).
Proof. unfold pck32. destruct (Pack.pck32 v); exact I. Qed.

Lemma lookup_free_set_mem a bs j : lookup_free (set_mem a bs j).
Proof. unfold set_mem. destruct (Mem.is_mapped (vm j) a (length bs)); exact I. Qed.

Lemma lookup_free_set_field32 a v j : lookup_free (set_field32 a v j).
Proof.
  unfold set_field32. apply lookup_free_bind; [apply lookup_free_pck32|].
  intros. apply lookup_free_set_mem.
Qed.

Lemma lookup_free_set_field16 a v j : lookup_free (set_field16 a v j).
Proof.
  unfold set_field16. apply lookup_free_bind.
  - unfold pck16. destruct ((0 <=? v) && (v <? 65536)); exact I.
  - intros. apply lookup_free_set_mem.
Qed.

Lemma lookup_free_entry_of R x j :
  is_Some (module2entry R !! x) -> lookup_free (entry_of R x j).
Proof. intros [e He]. unfold entry_of. rewrite He. exact I. Qed.

Lemma item_in_range (L : list pe) (i : Z) :
  0 <= i < Z.of_nat (length L) -> exists y, L !! Z.to_nat i = Some y.
Proof.
  intros Hi. destruct (L !! Z.to_nat i) as [y|] eqn:Hy; [eauto|].
  apply lookup_ge_None in Hy. lia.
Qed.

Lemma lookup_free_link_entry L R offset i x j :
  (forall y, y ∈ L -> is_Some (module2entry R !! y)) ->
  x ∈ L ->
  lookup_free (link_entry L R offset i x j).
Proof.
  intros HL Hx. unfold link_entry. cbv zeta.
  assert (Hlen : 0 < Z.of_nat (length L)).
  { destruct L; [now apply elem_of_nil in Hx | cbn [length]; lia]. }
  destruct (item_in_range L ((i - 1) mod Z.of_nat (length L)))
    as [yp Hp]; [apply Z.mod_pos_bound; lia|].
  destruct (item_in_range L ((i + 1) mod Z.of_nat (length L)))
    as [yn Hn]; [apply Z.mod_pos_bound; lia|].
  destruct (HL x Hx) as [e He].
  destruct (HL yp (list_elem_of_lookup_2 _ _ _ Hp)) as [ep Hep].
  destruct (HL yn (list_elem_of_lookup_2 _ _ _ Hn)) as [en Hen].
  rewrite (bind_entry_of _ _ _ _ _ He).
  rewrite (bind_item _ _ _ _ _ Hp), (bind_item _ _ _ _ _ Hn).
  rewrite (bind_entry_of _ _ _ _ _ Hep), (bind_entry_of _ _ _ _ _ Hen).
  apply lookup_free_bind; [apply lookup_free_pck32|]. intros b1 j1.
  apply lookup_free_bind; [apply lookup_free_pck32|]. intros b2 j2.
  apply lookup_free_set_mem.
Qed.

Lemma lookup_free_for_enumerate L R offset suf : forall i j,
  (forall y, y ∈ L -> is_Some (module2entry R !! y)) ->
  (forall y, y ∈ suf -> y ∈ L) ->
  lookup_free (for_enumerate (link_entry L R offset) i suf j).
Proof.
  induction suf as [|x suf IH]; intros i j HL Hsuf; [exact I|].
  cbn [for_enumerate]. apply lookup_free_bind.
  - apply lookup_free_link_entry; [exact HL|]. apply Hsuf. now left.
  - intros _ j'. apply IH; [exact HL|]. intros y Hy. apply Hsuf. now right.
Qed.

Lemma lookup_free_set_link_list_entry L R offset j :
  (forall y, y ∈ L -> is_Some (module2entry R !! y)) ->
  lookup_free (set_link_list_entry L R offset j).
Proof.
  intros HL. unfold set_link_list_entry.
  apply lookup_free_for_enumerate; [exact HL|auto].
Qed.

(** The lists that the fixups link hold registered modules only. *)
Lemma special_first_registered regs name L :
  special_first name (register_all regs) = Some L \/
  special_first_init name (register_all regs) = Some L ->
  forall y, y ∈ L -> is_Some (module2entry (register_all regs) !! y).
Proof.
  destruct (registry_keeps regs) as (I1 & _ & I3 & _).
  set (R := register_all regs) in *.
  intros HL y Hy. apply I1.
  unfold special_first, special_first_init in HL. cbv zeta in HL.
  destruct (name2module R !! name) as [a|] eqn:Ha;
    [|destruct HL; discriminate].
  destruct (name2module R !! "kernel32.dll"%string) as [b|] eqn:Hb;
    [|destruct HL; discriminate].
  destruct (name2module R !! "ntdll.dll"%string) as [c|] eqn:Hc;
    [|destruct HL; discriminate].
  apply I3 in Ha, Hb, Hc.
  assert (Hw : forall z, z ∈ without [a; b; c] (modules R) -> z ∈ modules R)
    by (intros z Hz; apply without_spec in Hz; tauto).
  destruct HL as [HL|HL]; injection HL as <-;
    unfold insert_at in Hy; cbn [take drop app] in Hy;
    repeat (apply elem_of_cons in Hy as [->|Hy]; [assumption|]);
    now apply Hw.
Qed.

(** *** The lookups of the fixups and of [build_ldr_data] *)

Section Lookups.
Variables (regs : list (string * pe * Z)) (name : string).
Let R := register_all regs.

Lemma registered_entry n x :
  name2module R !! n = Some x -> is_Some (module2entry R !! x).
Proof.
  destruct (registry_keeps regs) as (I1 & _ & I3 & _).
  intros H. apply I1. eapply I3. exact H.
Qed.

Lemma lookup_free_fix_InLoadOrderModuleList j :
  lookup_free (fix_InLoadOrderModuleList name R j).
Proof.
  rewrite fix_InLoadOrderModuleList_run.
  destruct (special_first name R) as [L|] eqn:HL.
  - apply lookup_free_set_link_list_entry.
    apply (special_first_registered regs name L). now left.
  - apply lookup_free_set_link_list_entry.
    intros y Hy. now apply (registry_keeps regs).
Qed.

Lemma lookup_free_fix_InMemoryOrderModuleList j :
  lookup_free (fix_InMemoryOrderModuleList name R j).
Proof.
  rewrite fix_InMemoryOrderModuleList_run.
  destruct (special_first name R) as [L|] eqn:HL.
  - apply lookup_free_set_link_list_entry.
    apply (special_first_registered regs name L). now left.
  - apply lookup_free_set_link_list_entry.
    intros y Hy. now apply (registry_keeps regs).
Qed.

Lemma lookup_free_fix_InInitializationOrderModuleList j :
  lookup_free (fix_InInitializationOrderModuleList name R j).
Proof.
  rewrite fix_InInitializationOrderModuleList_run.
  destruct (special_first_init name R) as [L|] eqn:HL.
  - apply lookup_free_set_link_list_entry.
    apply (special_first_registered regs name L). now right.
  - apply lookup_free_set_link_list_entry.
    intros y Hy. now apply (registry_keeps regs).
Qed.

Lemma lookup_free_build_ldr_data j :
  lookup_free (build_ldr_data name R j).
Proof.
  unfold build_ldr_data. cbv zeta.
  apply lookup_free_bind.
  { destruct (name2module R !! name) as [a|] eqn:Ha; [|exact I].
    apply lookup_free_bind;
      [apply lookup_free_entry_of, (registered_entry _ _ Ha)|].
    intros; exact I. }
  intros [size me] j1. cbv beta iota.
  apply lookup_free_bind.
  { destruct (name2module R !! "ntdll.dll"%string) as [a|] eqn:Ha; [|exact I].
    apply lookup_free_bind;
      [apply lookup_free_entry_of, (registered_entry _ _ Ha)|].
    intros; exact I. }
  intros [size2 ne] j2. cbv beta iota.
  apply lookup_free_bind; [exact I|]. intros _ j3.
  apply lookup_free_bind.
  { destruct me as [e|]; [|exact I].
    repeat (apply lookup_free_bind; [apply lookup_free_set_field32|intros]).
    apply lookup_free_set_field32. }
  intros _ j4.
  apply lookup_free_bind.
  { destruct ne as [e|]; [|exact I].
    repeat (apply lookup_free_bind; [apply lookup_free_set_field32|intros]).
    apply lookup_free_set_field32. }
  intros _ j5.
  apply lookup_free_bind; [apply lookup_free_pck32|]. intros; exact I.
Qed.

End Lookups.

(** *** The outcome of [create_modules_chain] *)

Lemma outcome_create_module base i fname o R0 j :
  outcome (fun R' =>
             R' = register_from R0 (registrations base i [(fname, o)]))
          (create_module base i fname o R0 j).
Proof.
  unfold create_module. cbv zeta. destruct o as [x|].
  - apply (outcome_bind (fun _ => True)); [exact I|]. intros _ j1 _.
    apply (outcome_bind (fun _ => True)); [exact I|]. intros _ j2 _.
    do 3 (apply (outcome_bind (fun _ => True));
          [apply lookup_free_set_field32|]; intros _ ? _).
    do 2 (apply (outcome_bind (fun _ => True));
          [apply lookup_free_set_field16|]; intros _ ? _).
    apply (outcome_bind (fun _ => True));
      [apply lookup_free_set_field32|]; intros _ ? _.
    do 2 (apply (outcome_bind (fun _ => True));
          [apply lookup_free_set_field16|]; intros _ ? _).
    apply (outcome_bind (fun _ => True));
      [apply lookup_free_set_field32|]; intros _ ? _.
    reflexivity.
  - apply (outcome_bind (fun _ => True)); [exact I|]. intros _ j1 _.
    reflexivity.
Qed.

Lemma outcome_create_modules_from base items : forall i R0 j,
  outcome (fun R' => R' = register_from R0 (registrations base i items))
          (create_modules_from base i items R0 j).
Proof.
  induction items as [|[fname o] items IH]; intros i R0 j.
  - reflexivity.
  - cbn [create_modules_from].
    eapply outcome_bind; [apply outcome_create_module|].
    intros R1 j1 ->. eapply outcome_weaken; [|apply IH].
    intros R2 ->. destruct o; reflexivity.
Qed.

(** The registry that [create_modules_chain] returns is built by [add]
    alone. *)
Lemma outcome_create_modules_chain items j :
  outcome (fun R' => exists regs, R' = register_all regs)
          (create_modules_chain items j).
Proof.
  unfold create_modules_chain. cbv zeta.
  eapply outcome_weaken; [|apply outcome_create_modules_from].
  intros R' ->. eexists. apply register_from_all'.
Qed.

Lemma lookup_free_build_teb t j : lookup_free (build_teb t j).
Proof.
  unfold build_teb.
  do 3 (apply lookup_free_bind; [exact I|]; intros).
  do 3 (apply lookup_free_bind; [apply lookup_free_set_field32|]; intros).
  exact I.
Qed.

Lemma lookup_free_build_peb main a j : lookup_free (build_peb main a j).
Proof.
  unfold build_peb. destruct main as [p|].
  - apply lookup_free_bind; [exact I|]; intros.
    do 2 (apply lookup_free_bind; [apply lookup_free_set_field32|]; intros).
    exact I.
  - apply lookup_free_bind; [exact I|]; intros.
    apply lookup_free_bind; [exact I|]; intros.
    apply lookup_free_bind; [apply lookup_free_set_field32|]; intros.
    exact I.
Qed.

Lemma lookup_free_process j :
  lookup_free ((add_process_env >> add_process_parameters) j).
Proof.
  apply lookup_free_bind.
  - unfold add_process_env. apply lookup_free_bind; [exact I|]. intros.
    apply lookup_free_set_mem.
  - intros. unfold add_process_parameters. cbv zeta.
    apply lookup_free_bind; [apply lookup_free_pck32|]. intros.
    apply lookup_free_bind; [apply lookup_free_pck32|]. intros. exact I.
Qed.

End RegistryFacts.
(* ===================================================================== *)
(** ** Properties of the context marshaller                              *)
(* ===================================================================== *)

Import Pack PackFacts Mem MemFacts Jit JitFacts Layout Context ContextFacts.
Import Seh Sample.

(** C3. For every register file (of machine words) and every context
    record in mapped memory, [regs2ctxt] (save) succeeds and leaves zero
    in the debug-register fields dr0..dr5 and in the flags field of the
    record, whatever the registers hold; and [ctxt2regs] (restore) from
    that record, started from any register file [c'], succeeds and ends
    with every covered register (gs, fs, es, ds, edi, esi, ebx, edx, ecx,
    eax, ebp, eip, cs, esp, ss) equal to its value at the save. *)
Theorem C3_save_restore_roundtrip (j : jitter) (a : Z) (c' : reg -> Z) :
  wf_cpub (cpu j) = true ->
  Mem.is_mapped (vm j) a C.sizeof = true ->
  exists j1 j2,
    regs2ctxt a j = (Ok tt, j1) /\
    Forall (fun f => get_field32 (a + f) j1 = (Ok 0, j1)) zero_fields /\
    ctxt2regs a (with_cpu c' j1) = (Ok tt, j2) /\
    forall r, In r all_regs -> cpu j2 r = cpu j r.
Proof.
  intros Hwf Hm. apply wf_cpub_spec in Hwf.
  eexists _, _. split; [apply regs2ctxt_ok; assumption|].
  assert (Hm' : Mem.is_mapped (saved_context (cpu j) (vm j) a) a C.sizeof = true)
    by (apply saved_context_mapped; assumption).
  split; [|split].
  - apply Forall_forall. intros f Hf.
    rewrite <- (bind_ret_r (get_field32 (a + f))).
    rewrite bind_get_field32.
    + jsimpl. rewrite saved_context_zero by (apply list_elem_of_In; exact Hf).
      reflexivity.
    + jsimpl. eapply is_mapped_sub; [exact Hm'| |];
        apply list_elem_of_In in Hf; simpl in Hf;
        repeat (destruct Hf as [<-|Hf]); try contradiction;
        unfold_ctx; lia.
  - apply ctxt2regs_ok. exact Hm'.
  - intros r _. jsimpl. rewrite restored_regs_at.
    rewrite saved_context_reg by assumption.
    apply Z.mod_small. apply Hwf.
Qed.

Lemma C3_save_restore_roundtrip_witness :
  exists j1 j2,
    regs2ctxt 0x12f000 sample_jitter = (Ok tt, j1) /\
    Forall (fun f => get_field32 (0x12f000 + f) j1 = (Ok 0, j1)) zero_fields /\
    ctxt2regs 0x12f000 (with_cpu (fun _ => 0) j1) = (Ok tt, j2) /\
    forall r, In r all_regs -> cpu j2 r = cpu sample_jitter r.
Proof.
  apply (C3_save_restore_roundtrip sample_jitter 0x12f000 (fun _ => 0));
    vm_compute; reflexivity.
Defined.

(* ===================================================================== *)
(** ** Properties of the chain walker                                    *)
(* ===================================================================== *)

Import WalkerFacts.

(** C8. For every memory, hence every SEH chain, cyclic ones included,
    the walker terminates: with any fuel of at least [dump_seh_fuel] the
    loop is left through one of its exits (the fuel is never what stops
    it).  When the TIB slot is readable the exit is the one that comes
    first along the chain: an unreadable frame (fewer than 8 mapped
    bytes), a frame whose previous link is zero, or the hop count
    exceeding MAX_SEH, after at most MAX_SEH + 1 frames read; nothing but
    the log changes.  When the TIB slot is unreadable the walker stops
    at once with the memory subsystem's error. *)
Theorem C8_dump_seh_terminates (j : jitter) (fuel : nat) :
  (dump_seh_fuel <= fuel)%nat ->
  if Mem.is_mapped (vm j) tib_address 4 then
    let r := chain_stop (vm j) max_frames (load32 (vm j) tib_address) in
    dump_seh_walk fuel j =
      (Ok (Some (fst r)),
       with_logged
         (logged j ++ (INFO, "Dump_seh. Tib_address: %x"%string) :: walk_log r)
         j)
    /\ (snd r <= max_frames)%nat
  else
    dump_seh_walk fuel j =
      (Raise RuntimeError,
       with_logged (logged j ++ [(INFO, "Dump_seh. Tib_address: %x"%string)]) j).
Proof.
  intros Hfuel.
  destruct (Mem.is_mapped (vm j) tib_address 4) eqn:Hm.
  - split; [apply dump_seh_walk_run; assumption | apply chain_stop_frames].
  - apply dump_seh_walk_unmapped; assumption.
Qed.

(** On a chain whose frame is its own previous frame the walker reads
    MAX_SEH + 1 frames and gives up with the warning. *)
Lemma C8_dump_seh_terminates_witness :
  fst (dump_seh_walk 100 cyclic_jitter) = Ok (Some TooManySeh) /\
  chain_stop (vm cyclic_jitter) max_frames
             (load32 (vm cyclic_jitter) tib_address) = (TooManySeh, 6%nat).
Proof.
  pose proof (C8_dump_seh_terminates cyclic_jitter 100
                ltac:(vm_compute; lia)) as H.
  change (Mem.is_mapped (vm cyclic_jitter) tib_address 4) with true in H.
  cbv zeta in H. destruct H as [H _]. rewrite H.
  split; vm_compute; reflexivity.
Defined.

(* ===================================================================== *)
(** ** Properties of the dispatcher                                      *)
(* ===================================================================== *)

Import SehFacts.

(** Registers and memory once a fault dispatched from a ready state has
    been resumed by a handler that left 0 in EAX. *)
Lemma continue_execution_run code j :
  dispatch_ready j = true ->
  0 <= code < 4294967296 ->
  exists l,
    dispatch_and_return code 0 j =
      (Ok tt,
       mkJitter
         (restored_regs (resumed_mem code (cpu j) (vm j)) (frame_base j + 0xfc)
            (upd_reg ESP (cpu j ESP) (returned_cpu 0 (cpu j))))
         0 (resumed_mem code (cpu j) (vm j)) 0
         (restored_regs (resumed_mem code (cpu j) (vm j)) (frame_base j + 0xfc)
            (upd_reg ESP (cpu j ESP) (returned_cpu 0 (cpu j))) EIP)
         (seh_count j + 1) l).
Proof.
  intros Hready Hcode.
  destruct (dispatch_and_return_run code 0 j Hready Hcode) as [l Hrun].
  destruct (dispatch_ready_spec j Hready)
    as (Hwf & Hbase & Hframe & Htib & Hseh & Hdisj).
  match type of Hrun with
  | _ = resume_branch ?ctx ?jr =>
      destruct (resume_branch_continue ctx jr) as [l' Hb]
  end.
  - jflat. unfold returned_cpu. cbv zeta.
    rewrite !upd_reg_ne by discriminate. rewrite upd_reg_eq. reflexivity.
  - jflat. unfold resumed_mem. apply is_mapped_store32.
    apply dispatch_mem_mapped.
    eapply is_mapped_sub; [exact Hframe | lia | unfold_ctx; lia].
  - exists l'. rewrite Hrun, Hb. reflexivity.
Qed.

Lemma resumed_mem_context code c m r :
  wf_cpu c -> 16 <= c ESP - 0x3c8 ->
  tib_address + 4 <= c ESP - 0x3c8 - 16 \/ c ESP - 0x3c8 + 0x1c8 <= tib_address ->
  load32 (resumed_mem code c m) (c ESP - 0x3c8 + 0xfc + field_offset r) = c r.
Proof.
  intros Hwf Hbase Hdisj. unfold resumed_mem.
  assert (Hr : 0 <= field_offset r <= 200) by (destruct r; unfold_ctx; lia).
  rewrite load32_store32_ne by lia.
  apply dispatch_mem_context; assumption.
Qed.

Lemma resumed_mem_head code c m :
  Mem.is_mapped m tib_address 4 = true ->
  read_bytes (resumed_mem code c m) tib_address 4 = read_bytes m tib_address 4.
Proof.
  intros Htib. unfold resumed_mem, store32.
  rewrite read_bytes_mapped by apply is_mapped_written.
  rewrite (read_bytes_mapped m) by exact Htib.
  change 4%nat with (length (le32 (load32 m tib_address))) at 1.
  rewrite peek_write_bytes_same. unfold load32.
  rewrite le32_dec32 by apply length_peek. reflexivity.
Qed.

(** C1. From every pre-fault state in which a fault can be dispatched
    (register file of machine words; frame, TIB slot and current SEH frame
    in mapped memory; TIB slot outside the frame), [dispatch] of
    0xC0000005 at instruction pointer P, a handler that only returns with
    EAX = 0, and [returnFromHandler] succeed and end with every covered
    register, the stack pointer among them, at its pre-fault value, the
    four bytes of the SEH head slot at the TIB address as before the
    fault, and the resumed instruction pointer equal to P. *)
Theorem C1_dispatch_continue_restores (j : jitter) :
  dispatch_ready j = true ->
  exists j',
    dispatch_and_return EXCEPTION_ACCESS_VIOLATION 0 j = (Ok tt, j') /\
    (forall r, In r all_regs -> cpu j' r = cpu j r) /\
    read_bytes (vm j') tib_address 4 = read_bytes (vm j) tib_address 4 /\
    pc j' = cpu j EIP.
Proof.
  intros Hready.
  destruct (continue_execution_run EXCEPTION_ACCESS_VIOLATION j Hready)
    as [l Hrun]; [unfold EXCEPTION_ACCESS_VIOLATION; lia|].
  destruct (dispatch_ready_spec j Hready)
    as (Hwf & Hbase & Hframe & Htib & Hseh & Hdisj).
  unfold frame_base in *.
  assert (Hregs : forall r,
             restored_regs
               (resumed_mem EXCEPTION_ACCESS_VIOLATION (cpu j) (vm j))
               (cpu j ESP - 0x3c8 + 0xfc)
               (upd_reg ESP (cpu j ESP) (returned_cpu 0 (cpu j))) r
             = cpu j r).
  { intros r. rewrite restored_regs_at.
    rewrite resumed_mem_context by assumption.
    apply Z.mod_small. apply Hwf. }
  eexists. split; [exact Hrun|]. jflat.
  split; [intros r _; apply Hregs|].
  split; [apply resumed_mem_head; exact Htib | apply Hregs].
Qed.

Lemma C1_dispatch_continue_restores_witness :
  exists j',
    dispatch_and_return EXCEPTION_ACCESS_VIOLATION 0 sample_jitter
      = (Ok tt, j') /\
    (forall r, In r all_regs -> cpu j' r = cpu sample_jitter r) /\
    read_bytes (vm j') tib_address 4
      = read_bytes (vm sample_jitter) tib_address 4 /\
    pc j' = cpu sample_jitter EIP.
Proof.
  apply (C1_dispatch_continue_restores sample_jitter).
  vm_compute. reflexivity.
Defined.

(** C4. From every such state with instruction pointer P, the dispatch of
    0xC0000005 succeeds and the exception record it leaves at offset 0xe8
    of the frame reads: code 0xC0000005, flags 0, chained record 0,
    address P, number of parameters 0. *)
Theorem C4_exception_record (j : jitter) :
  dispatch_ready j = true ->
  exists eh j',
    fake_seh_handler EXCEPTION_ACCESS_VIOLATION j = (Ok eh, j') /\
    let record := frame_base j + 0xe8 in
    get_field32 record j' = (Ok 0xC0000005, j') /\
    get_field32 (record + 4) j' = (Ok 0, j') /\
    get_field32 (record + 8) j' = (Ok 0, j') /\
    get_field32 (record + 12) j' = (Ok (cpu j EIP), j') /\
    get_field32 (record + 16) j' = (Ok 0, j').
Proof.
  intros Hready.
  destruct (fake_seh_handler_ok EXCEPTION_ACCESS_VIOLATION j Hready)
    as (eh & l & Hd); [unfold EXCEPTION_ACCESS_VIOLATION; lia|].
  destruct (dispatch_ready_spec j Hready)
    as (Hwf & Hbase & Hframe & Htib & Hseh & Hdisj).
  unfold frame_base in *.
  pose proof (dispatch_mem_record EXCEPTION_ACCESS_VIOLATION (cpu j) (vm j)
                Hwf Hdisj ltac:(unfold EXCEPTION_ACCESS_VIOLATION; lia)) as Hrec.
  cbn [map] in Hrec. injection Hrec as H0 H1 H2 H3 H4.
  rewrite Z.add_0_r in H0.
  exists eh. eexists. split; [exact Hd|]. cbv zeta.
  assert (Hm : forall k, 0 <= k <= 16 ->
             Mem.is_mapped
               (dispatch_mem EXCEPTION_ACCESS_VIOLATION (cpu j) (vm j))
               (cpu j ESP - 0x3c8 + 0xe8 + k) 4 = true).
  { intros k Hk. apply dispatch_mem_mapped.
    eapply is_mapped_sub; [exact Hframe | lia | lia]. }
  repeat split.
  - rewrite get_field32_ok by (jflat; rewrite <- (Z.add_0_r (_ + 0xe8)); apply Hm; lia).
    jflat. rewrite H0. reflexivity.
  - rewrite get_field32_ok by (jflat; apply Hm; lia).
    jflat. change 4 with (4 * 1) at 1. rewrite H1. reflexivity.
  - rewrite get_field32_ok by (jflat; apply Hm; lia).
    jflat. change 8 with (4 * 2) at 1. rewrite H2. reflexivity.
  - rewrite get_field32_ok by (jflat; apply Hm; lia).
    jflat. change 12 with (4 * 3) at 1. rewrite H3. reflexivity.
  - rewrite get_field32_ok by (jflat; apply Hm; lia).
    jflat. change 16 with (4 * 4) at 1. rewrite H4. reflexivity.
Qed.

Lemma C4_exception_record_witness :
  exists eh j',
    fake_seh_handler EXCEPTION_ACCESS_VIOLATION sample_jitter = (Ok eh, j') /\
    let record := frame_base sample_jitter + 0xe8 in
    get_field32 record j' = (Ok 0xC0000005, j') /\
    get_field32 (record + 4) j' = (Ok 0, j') /\
    get_field32 (record + 8) j' = (Ok 0, j') /\
    get_field32 (record + 12) j' = (Ok (cpu sample_jitter EIP), j') /\
    get_field32 (record + 16) j' = (Ok 0, j').
Proof.
  apply (C4_exception_record sample_jitter).
  vm_compute. reflexivity.
Defined.

(** C10. Every dispatch from such a state, of any 32-bit exception code,
    saves the pre-fault EBX in the context record and enters the handler
    with EBX = 0; after a resume with EAX = 0 the register holds its
    pre-fault value again. *)
Theorem C10_ebx_cleared_then_restored (code : Z) (j : jitter) :
  dispatch_ready j = true ->
  0 <= code < 4294967296 ->
  (exists eh j1,
      fake_seh_handler code j = (Ok eh, j1) /\
      cpu j1 EBX = 0 /\
      get_field32 (frame_base j + 0xfc + C.ebx) j1 = (Ok (cpu j EBX), j1)) /\
  (exists j2,
      dispatch_and_return code 0 j = (Ok tt, j2) /\
      cpu j2 EBX = cpu j EBX).
Proof.
  intros Hready Hcode.
  destruct (dispatch_ready_spec j Hready)
    as (Hwf & Hbase & Hframe & Htib & Hseh & Hdisj).
  unfold frame_base in *.
  split.
  - destruct (fake_seh_handler_ok code j Hready Hcode) as (eh & l & Hd).
    exists eh. eexists. split; [exact Hd|]. jflat. split.
    + unfold dispatch_cpu. cbv zeta. now rewrite upd_reg_eq.
    + rewrite get_field32_ok.
      * jflat. change C.ebx with (field_offset EBX).
        rewrite dispatch_mem_context by assumption. reflexivity.
      * jflat. apply dispatch_mem_mapped.
        eapply is_mapped_sub; [exact Hframe | unfold_ctx; lia | unfold_ctx; lia].
  - destruct (continue_execution_run code j Hready Hcode) as [l Hrun].
    eexists. split; [exact Hrun|]. jflat.
    rewrite restored_regs_at. unfold frame_base.
    rewrite resumed_mem_context by assumption.
    apply Z.mod_small. apply Hwf.
Qed.

Lemma C10_ebx_cleared_then_restored_witness :
  (exists eh j1,
      fake_seh_handler EXCEPTION_INT_DIVIDE_BY_ZERO sample_jitter = (Ok eh, j1) /\
      cpu j1 EBX = 0 /\
      get_field32 (frame_base sample_jitter + 0xfc + C.ebx) j1
        = (Ok (cpu sample_jitter EBX), j1)) /\
  (exists j2,
      dispatch_and_return EXCEPTION_INT_DIVIDE_BY_ZERO 0 sample_jitter
        = (Ok tt, j2) /\
      cpu j2 EBX = cpu sample_jitter EBX).
Proof.
  apply (C10_ebx_cleared_then_restored EXCEPTION_INT_DIVIDE_BY_ZERO
           sample_jitter).
  - vm_compute. reflexivity.
  - unfold EXCEPTION_INT_DIVIDE_BY_ZERO. lia.
Defined.

(** *** The dispositions other than continue-execution *)

(** A handler that returns 1 (continue-search) makes the resume
    transition raise NotImplementedError. *)
Lemma continue_search_raises code j :
  dispatch_ready j = true ->
  0 <= code < 4294967296 ->
  exists j',
    dispatch_and_return code 1 j =
      (Raise (NotImplementedError "-> seh, gameover"), j').
Proof.
  intros Hready Hcode.
  destruct (dispatch_and_return_run code 1 j Hready Hcode) as [l Hrun].
  eexists. rewrite Hrun. apply resume_branch_search.
  jflat. unfold returned_cpu. cbv zeta.
  rewrite !upd_reg_ne by discriminate. rewrite upd_reg_eq. reflexivity.
Qed.

(** A register read is never negative, so the test [EAX == -1] of the
    resume transition never holds: with -1 left in EAX (read back as
    0xFFFFFFFF) no exception is raised, the registers are not restored
    and the program counter stays on the trampoline. *)
Lemma unwind_disposition_falls_through code j :
  dispatch_ready j = true ->
  0 <= code < 4294967296 ->
  exists l,
    dispatch_and_return code (-1) j =
      (Ok tt,
       mkJitter (upd_reg ESP (cpu j ESP) (returned_cpu (-1) (cpu j)))
                0 (resumed_mem code (cpu j) (vm j)) 0
                return_from_exception (seh_count j + 1) l).
Proof.
  intros Hready Hcode.
  destruct (dispatch_and_return_run code (-1) j Hready Hcode) as [l Hrun].
  exists l. rewrite Hrun. apply resume_branch_other; jflat;
    unfold returned_cpu; cbv zeta;
    rewrite !upd_reg_ne by discriminate; rewrite upd_reg_eq;
    cbn; discriminate.
Qed.

(** C7 (the decline-and-unwind half fails).  On the sample state, a
    handler that returns -1 gets no unsupported-operation signal: the
    resume transition returns normally, EAX reads 0xFFFFFFFF, EBX is
    still the 0 that the dispatcher put there and the program counter is
    still the trampoline address. *)
Theorem C7_unwind_disposition_is_silent :
  let r := dispatch_and_return EXCEPTION_ACCESS_VIOLATION (-1) sample_jitter in
  fst r = Ok tt /\
  cpu (snd r) EAX = 0xFFFFFFFF /\
  cpu (snd r) EBX = 0 /\
  pc (snd r) = return_from_exception.
Proof.
  destruct (unwind_disposition_falls_through EXCEPTION_ACCESS_VIOLATION
              sample_jitter) as [l Hrun];
    [vm_compute; reflexivity | unfold EXCEPTION_ACCESS_VIOLATION; lia |].
  cbv zeta. rewrite Hrun. cbn [fst snd cpu pc].
  repeat split; vm_compute; reflexivity.
Qed.

(* ===================================================================== *)
(** ** Properties of the loader lists and of the process block           *)
(* ===================================================================== *)

Import Loader LoaderFacts.

(** The sample dictionary gives the sample registrations, in memory in
    which they can be linked. *)
Example sample_items_registered :
  fst (create_modules_chain sample_items blank_jitter)
    = Ok (register_all sample_regs) /\
  entries_ready sample_regs (vm sample_loaded) = true.
Proof. split; vm_compute; reflexivity. Qed.

Lemma entries_of_modules regs :
  NoDup (map reg_module regs) ->
  entries_of (register_all regs) (modules (register_all regs))
    = map reg_entry regs.
Proof.
  intros Hnd. destruct (register_all_invariant regs Hnd) as (_ & I2 & _).
  rewrite register_all_modules. unfold entries_of.
  rewrite map_map. apply list_eq. intros i.
  rewrite !list_lookup_fmap.
  destruct (regs !! i) as [[[n x] e]|] eqn:Hi; [|reflexivity].
  cbn. now rewrite (I2 i n x e Hi).
Qed.

(** The fallback of one fixup: all registered modules, in registration
    order, after one warning. *)
Lemma fallback_links regs j offset jw :
  entries_ready regs (vm j) = true ->
  vm jw = vm j ->
  0 <= offset <= 16 ->
  let R := register_all regs in
  exists j',
    set_link_list_entry (modules R) R offset jw = (Ok tt, j') /\
    logged j' = logged jw /\
    links_at (vm j') offset (map reg_entry regs).
Proof.
  intros Hready Hvm Hoff R.
  destruct (entries_ready_spec _ _ Hready) as (Hnd & _ & _).
  assert (HndR : NoDup (modules R))
    by (subst R; now rewrite register_all_modules).
  eexists. split.
  - apply (link_list_ok regs (vm j) Hready); auto.
    intros a n Ha. now rewrite Hvm.
  - split; [reflexivity|]. jflat. rewrite Hvm.
    rewrite <- (entries_of_modules regs Hnd).
    apply (ready_links_at regs (vm j) Hready); auto.
Qed.

(** C6. Whenever the main executable, ntdll.dll or kernel32.dll is not
    in a registry of distinct modules whose entries can be linked, each of
    the three fixups returns without raising, logs one warning, and
    leaves the entries of all registered modules linked in registration
    order: the forward link of each is the next registered entry, the
    backward link the previous one, the list head standing at both ends. *)
Theorem C6_fallback_registration_order
  (regs : list (string * pe * Z)) (name : string) (j : jitter) :
  entries_ready regs (vm j) = true ->
  name2module (register_all regs) !! name = None \/
  name2module (register_all regs) !! "ntdll.dll"%string = None \/
  name2module (register_all regs) !! "kernel32.dll"%string = None ->
  Forall
    (fun '(fixup, offset) =>
       exists j' msg,
         fixup name (register_all regs) j = (Ok tt, j') /\
         logged j' = logged j ++ [(WARNING, msg)] /\
         links_at (vm j') offset (map reg_entry regs))
    [(fix_InLoadOrderModuleList, 0);
     (fix_InMemoryOrderModuleList, 8);
     (fix_InInitializationOrderModuleList, 16)].
Proof.
  intros Hready Habsent.
  apply special_first_absent in Habsent as Hnone.
  pose proof Hnone as Hnone'. apply special_first_None in Hnone'.
  constructor; [|constructor; [|constructor; [|constructor]]].
  - rewrite fix_InLoadOrderModuleList_run, Hnone.
    match goal with
    | |- context [set_link_list_entry _ _ _ ?jw] =>
        destruct (fallback_links regs j 0 jw Hready eq_refl ltac:(lia))
          as (j' & Hrun & Hlog & Hlinks)
    end.
    exists j'. eexists. split; [exact Hrun|]. split; [exact Hlog|exact Hlinks].
  - rewrite fix_InMemoryOrderModuleList_run, Hnone.
    match goal with
    | |- context [set_link_list_entry _ _ _ ?jw] =>
        destruct (fallback_links regs j 8 jw Hready eq_refl ltac:(lia))
          as (j' & Hrun & Hlog & Hlinks)
    end.
    exists j'. eexists. split; [exact Hrun|]. split; [exact Hlog|exact Hlinks].
  - rewrite fix_InInitializationOrderModuleList_run, Hnone'.
    match goal with
    | |- context [set_link_list_entry _ _ _ ?jw] =>
        destruct (fallback_links regs j 16 jw Hready eq_refl ltac:(lia))
          as (j' & Hrun & Hlog & Hlinks)
    end.
    exists j'. eexists. split; [exact Hrun|]. split; [exact Hlog|exact Hlinks].
Qed.

Lemma C6_fallback_registration_order_witness :
  Forall
    (fun '(fixup, offset) =>
       exists j' msg,
         fixup "c:\xxx\toto.exe"%string (register_all sample_regs) sample_loaded
           = (Ok tt, j') /\
         logged j' = logged sample_loaded ++ [(WARNING, msg)] /\
         links_at (vm j') offset (map reg_entry sample_regs))
    [(fix_InLoadOrderModuleList, 0);
     (fix_InMemoryOrderModuleList, 8);
     (fix_InInitializationOrderModuleList, 16)].
Proof.
  apply (C6_fallback_registration_order sample_regs "c:\xxx\toto.exe"
           sample_loaded).
  - vm_compute. reflexivity.
  - left. vm_compute. reflexivity.
Defined.

Lemma spaced_NoDup es : spaced es = true -> NoDup es.
Proof.
  induction es as [|e es IH]; intros Hs; [constructor|].
  apply spaced_cons in Hs as [Hfar Hs].
  constructor; [|now apply IH].
  intros Hin. specialize (Hfar e Hin). unfold far in Hfar. lia.
Qed.

Lemma NoDup_fields offset es :
  NoDup es -> NoDup (map (fun e => e + offset) es).
Proof.
  intros Hnd. apply NoDup_fmap_2; [|exact Hnd].
  intros a b Hab. lia.
Qed.

(** One list of the linked memory, traversed both ways. *)
Lemma linked_list_walks regs m0 m L offset fuel :
  entries_ready regs m0 = true ->
  NoDup L -> (forall x, x ∈ L -> x ∈ modules (register_all regs)) ->
  links_at m offset (entries_of (register_all regs) L) ->
  read32 m (list_head + offset)
    = Some (hd list_head (entries_of (register_all regs) L) + offset) ->
  (length L < fuel)%nat ->
  let es := entries_of (register_all regs) L in
  let fields := map (fun e => e + offset) es in
  NoDup fields /\
  walk_from_head m 0 (list_head + offset) fuel = Some fields /\
  walk m 4 (list_head + offset) fuel (last_or_head es + offset)
    = Some (rev fields).
Proof.
  intros Hready Hnd Hin Hlinks Hhead Hfuel es fields.
  destruct (ready_list regs m0 Hready L Hnd Hin) as (HF & Hok & Hs).
  fold es in HF, Hok, Hs, Hlinks, Hhead.
  assert (Hne : Forall (fun e => e <> list_head) es).
  { eapply Forall_impl; [exact Hok|]. intros e (_ & _ & _ & Ha). lia. }
  assert (Hlen : length es = length L)
    by (subst es; unfold entries_of; now rewrite length_map).
  split; [apply NoDup_fields, spaced_NoDup, Hs|]. split.
  - unfold walk_from_head. rewrite Z.add_0_r, Hhead.
    apply walk_forward; [exact Hlinks | exact Hne | lia].
  - apply walk_backward; [exact Hlinks | exact Hne | lia].
Qed.

(** C2, as amended.  For every registry of distinct modules whose
    entries can be linked and in which the main executable, ntdll.dll
    and kernel32.dll are registered, the three fixups followed by
    [build_ldr_data] succeed; the load-order and memory-order lists have
    all registered modules as members and the initialization-order list
    all but the main executable; each list, traversed forward from its
    head field in the loader data, visits the fields of its members once
    each, in order, and comes back to the head; and the back links,
    followed from the last member, visit the same fields in the exact
    reverse sequence and come back to the head. *)
Theorem C2_lists_linked_both_ways
  (regs : list (string * pe * Z)) (name : string) (j : jitter)
  (main ntdll kernel32 : pe) (fuel : nat) :
  entries_ready regs (vm j) = true ->
  name <> "ntdll.dll"%string ->
  name <> "kernel32.dll"%string ->
  name2module (register_all regs) !! name = Some main ->
  name2module (register_all regs) !! "ntdll.dll"%string = Some ntdll ->
  name2module (register_all regs) !! "kernel32.dll"%string = Some kernel32 ->
  (length regs < fuel)%nat ->
  let R := register_all regs in
  exists j',
    link_loader_lists name R j = (Ok tt, j') /\
    load_order name R ≡ₚ modules R /\
    main :: init_order name R ≡ₚ modules R /\
    lists_linked name R (vm j') fuel.
Proof.
  intros Hready Hn1 Hn2 Hmain Hntdll Hk32 Hfuel R.
  destruct (entries_ready_spec _ _ Hready) as (Hnd & _ & _).
  destruct (special_lists regs name main ntdll kernel32 Hnd Hn1 Hn2
              Hmain Hntdll Hk32) as [Hnd0 Hperm].
  destruct (special_first_present name R main ntdll kernel32 Hmain Hntdll
              Hk32) as [Hs0 Hs2].
  destruct (link_loader_lists_ok regs j name main ntdll kernel32 Hready
              Hn1 Hn2 Hmain Hntdll Hk32)
    as (em & en & Hem & Hen & Hokm & Hokn & Hrun).
  destruct (linked_mem_links regs j name main ntdll kernel32 Hready
              Hn1 Hn2 Hmain Hntdll Hk32 em en) as (Hl0 & Hl1 & Hl2).
  destruct (linked_L0 regs j name main ntdll kernel32 Hready Hn1 Hn2
              Hmain Hntdll Hk32) as [_ Hin0].
  destruct (linked_L2 regs j name main ntdll kernel32 Hready Hn1 Hn2
              Hmain Hntdll Hk32) as [Hnd2 Hin2].
  fold R in Hem, Hen, Hrun, Hl0, Hl1, Hl2, Hin0, Hin2, Hperm, Hnd0, Hnd2.
  assert (Hlen : length (modules R) = length regs)
    by (subst R; now rewrite register_all_modules, length_map).
  assert (Hlen0 : (length (main :: ntdll :: kernel32
                     :: without [main; kernel32; ntdll] (modules R))
                   = length regs)%nat)
    by (now rewrite Hperm).
  assert (Rm : 0 <= em /\ em + 24 <= 4294967296) by (destruct Hokm; lia).
  assert (Rn : 0 <= en /\ en + 24 <= 4294967296) by (destruct Hokn; lia).
  assert (Hheads : forall m,
            read32 (ldr_data_mem em en m) (list_head + 0) = Some (em + 0) /\
            read32 (ldr_data_mem em en m) (list_head + 8) = Some (em + 8) /\
            read32 (ldr_data_mem em en m) (list_head + 16) = Some (en + 16))
    by (intros m; now apply ldr_data_mem_flinks).
  exists (with_vm (linked_mem regs j main ntdll kernel32 em en) j).
  split; [exact Hrun|].
  unfold load_order, init_order. rewrite Hs0, Hs2. cbn [default from_option id].
  split; [exact Hperm|]. split; [exact Hperm|].
  unfold lists_linked, load_order, init_order.
  rewrite Hs0, Hs2. cbn [default from_option id]. jflat.
  constructor; [|constructor; [|constructor; [|constructor]]].
  - apply (linked_list_walks regs (vm j)); try assumption; [|lia].
    unfold linked_mem. fold R. rewrite (proj1 (Hheads _)).
    unfold entries_of. cbn [map hd]. rewrite Hem. reflexivity.
  - apply (linked_list_walks regs (vm j)); try assumption; [|lia].
    unfold linked_mem. fold R. rewrite (proj1 (proj2 (Hheads _))).
    unfold entries_of. cbn [map hd]. rewrite Hem. reflexivity.
  - apply (linked_list_walks regs (vm j)); try assumption;
      [|cbn [length] in *; lia].
    unfold linked_mem. fold R. rewrite (proj2 (proj2 (Hheads _))).
    unfold entries_of. cbn [map hd]. rewrite Hen. reflexivity.
Qed.

Lemma C2_lists_linked_both_ways_witness :
  exists j',
    link_loader_lists "app.exe" (register_all sample_regs) sample_loaded
      = (Ok tt, j') /\
    load_order "app.exe" (register_all sample_regs)
      ≡ₚ modules (register_all sample_regs) /\
    app_pe :: init_order "app.exe" (register_all sample_regs)
      ≡ₚ modules (register_all sample_regs) /\
    lists_linked "app.exe" (register_all sample_regs) (vm j') 5.
Proof.
  apply (C2_lists_linked_both_ways sample_regs "app.exe" sample_loaded
           app_pe ntdll_pe kernel32_pe 5).
  - vm_compute. reflexivity.
  - discriminate.
  - discriminate.
  - vm_compute. reflexivity.
  - vm_compute. reflexivity.
  - vm_compute. reflexivity.
  - vm_compute. lia.
Defined.

(** C2 fails as stated.  With foo.dll as the only registered module the
    three fixups and [build_ldr_data] succeed, the load-order list has
    foo.dll as its member, but the loader data holds no list head: the
    head's forward link cannot be read, and no list can be traversed from
    its head. *)
Lemma C2_heads_missing_without_specials :
  let R := register_all lonely_regs in
  let r := link_loader_lists "app.exe" R lonely_loaded in
  fst r = Ok tt /\
  load_order "app.exe" R = [foo_pe] /\
  read32 (vm (snd r)) (list_head + 0) = None /\
  bool_decide (lists_traversable "app.exe" R (vm (snd r)) 8) = false.
Proof. cbv zeta. repeat split; vm_compute; reflexivity. Qed.

(** Even when the three named modules are registered, the back link of
    every list head is written as 0, so that no backward traversal can
    start from a head. *)
Lemma head_back_links_are_zero :
  let R := register_all sample_regs in
  let r := link_loader_lists "app.exe" R sample_loaded in
  fst r = Ok tt /\
  map (fun offset => read32 (vm (snd r)) (list_head + offset + 4)) [0; 8; 16]
    = [Some 0; Some 0; Some 0] /\
  map (fun offset => walk_from_head (vm (snd r)) 4 (list_head + offset) 8)
      [0; 8; 16]
    = [None; None; None].
Proof. cbv zeta. repeat split; vm_compute; reflexivity. Qed.

(** The forward traversals of the sample from the three heads. *)
Example sample_forward_traversals :
  let R := register_all sample_regs in
  let m := vm (snd (link_loader_lists "app.exe" R sample_loaded)) in
  map (fun offset => walk_from_head m 0 (list_head + offset) 8) [0; 8; 16]
  = [Some [0x344f00; 0x345f00; 0x343f00; 0x342f00];
     Some [0x344f08; 0x345f08; 0x343f08; 0x342f08];
     Some [0x345f10; 0x343f10; 0x342f10]].
Proof. vm_compute. reflexivity. Qed.




(* ===================================================================== *)
(** ** Further properties of the loader data                             *)
(* ===================================================================== *)

Import MoreFacts.



(** [build_ldr_data] with ntdll.dll registered but no main executable.
    The page it maps is sized for the registered heads only (8 bytes,
    at the load-order head), while the initialization-order head it
    then writes lies 16 bytes further: unless that head is mapped
    already, the write is refused by the memory and [build_ldr_data]
    raises, the 8 zero bytes being all it leaves. *)
Theorem build_ldr_data_ntdll_without_main
  (name : string) (R : LoadedModules) (j : jitter) (ntdll : pe) (en : Z) :
  name2module R !! name = None ->
  name2module R !! "ntdll.dll"%string = Some ntdll ->
  module2entry R !! ntdll = Some en ->
  0 <= en + 16 < 4294967296 ->
  Mem.is_mapped (vm j) (peb_ldr_data_address + 0x1C) 4 = false ->
  build_ldr_data name R j =
    (Raise RuntimeError,
     with_vm (write_bytes (vm j) (peb_ldr_data_address + 0xC) (nuls 8)) j).
Proof.
  intros Hmain Hntdll Hen Rn Hun.
  unfold build_ldr_data. cbv zeta. rewrite Hmain, Hntdll.
  rewrite bind_ret. cbv beta iota.
  rewrite bind_bind, (bind_entry_of _ _ _ _ _ Hen), bind_ret.
  cbv beta iota.
  rewrite bind_add_memory_page. jflat.
  change (Z.to_nat (0 + ListEntry.sizeof)) with 8%nat.
  rewrite bind_ret.
  rewrite bind_bind.
  unfold set_field32 at 1.
  rewrite bind_bind, bind_pck32
    by (unfold LdrDataEntry.InInitializationOrderLinks; lia).
  unfold bind at 1 2. unfold set_mem. jflat.
  rewrite length_le32.
  replace (LDR_AD + peb_ldr_data_offset
           + PEB_LDR_DATA.InInitializationOrderModuleList + ListEntry.flink)
    with (peb_ldr_data_address + 0x1C)
    by (unfold peb_ldr_data_address, ListEntry.flink,
          PEB_LDR_DATA.InInitializationOrderModuleList; lia).
  rewrite is_mapped_write_bytes_disjoint
    by (unfold nuls; rewrite repeat_length;
        unfold peb_ldr_data_address; lia).
  rewrite Hun. reflexivity.
Qed.

Lemma build_ldr_data_ntdll_without_main_witness :
  build_ldr_data "app.exe" (register_all [("ntdll.dll"%string, ntdll_pe, 0x342f00)])
                 blank_jitter =
    (Raise RuntimeError,
     with_vm (write_bytes (vm blank_jitter) (peb_ldr_data_address + 0xC)
                (nuls 8)) blank_jitter).
Proof.
  apply (build_ldr_data_ntdll_without_main "app.exe" _ blank_jitter
           ntdll_pe 0x342f00).
  - vm_compute. reflexivity.
  - vm_compute. reflexivity.
  - vm_compute. reflexivity.
  - lia.
  - vm_compute. reflexivity.
Defined.

(** The frame of [set_link_list_entry].  For a list of distinct
    registered modules whose entries can be linked, the call succeeds
    and changes nothing but the 8 bytes of the link field (at [offset])
    of each listed entry: the other link fields, the rest of the
    entries, the registers and the log are as before. *)
Theorem set_link_list_entry_frame
  (regs : list (string * pe * Z)) (L : list pe) (offset : Z) (j : jitter) :
  entries_ready regs (vm j) = true ->
  NoDup L ->
  (forall x, x ∈ L -> x ∈ modules (register_all regs)) ->
  0 <= offset <= 16 ->
  exists m',
    set_link_list_entry L (register_all regs) offset j = (Ok tt, with_vm m' j) /\
    forall x,
      (forall e, e ∈ entries_of (register_all regs) L ->
                 x < e + offset \/ e + offset + 8 <= x) ->
      m' !! x = vm j !! x.
Proof.
  intros Hready Hnd Hin Hoff.
  eexists. split.
  - apply (link_list_ok regs (vm j) Hready L offset j Hnd Hin); auto.
  - intros x Hx. now apply link_all_outside.
Qed.

Lemma set_link_list_entry_frame_witness :
  exists m',
    set_link_list_entry [kernel32_pe; foo_pe] (register_all sample_regs) 8
                        sample_loaded
      = (Ok tt, with_vm m' sample_loaded) /\
    forall x,
      (forall e, e ∈ entries_of (register_all sample_regs)
                                [kernel32_pe; foo_pe] ->
                 x < e + 8 \/ e + 8 + 8 <= x) ->
      m' !! x = vm sample_loaded !! x.
Proof.
  apply (set_link_list_entry_frame sample_regs [kernel32_pe; foo_pe] 8
           sample_loaded).
  - vm_compute. reflexivity.
  - apply (bool_decide_unpack (NoDup [kernel32_pe; foo_pe])).
    vm_compute. exact I.
  - intros x Hx.
    change (modules (register_all sample_regs))
      with [foo_pe; kernel32_pe; app_pe; ntdll_pe].
    rewrite !elem_of_cons in Hx. rewrite !elem_of_cons.
    destruct Hx as [->|[->|Hx]]; [tauto|tauto|].
    now apply elem_of_nil in Hx.
  - lia.
Defined.

(** A module that has no entry in the registry is never skipped: with
    such a module anywhere in the list, [set_link_list_entry] raises,
    whatever the state. *)
Theorem set_link_list_entry_unregistered
  (L : list pe) (R : LoadedModules) (offset : Z) (j : jitter) (x : pe) :
  x ∈ L ->
  module2entry R !! x = None ->
  exists e j', set_link_list_entry L R offset j = (Raise e, j').
Proof.
  intros Hin Hx. unfold set_link_list_entry.
  now apply (for_enumerate_unregistered L R offset x).
Qed.

Lemma set_link_list_entry_unregistered_witness :
  exists e j',
    set_link_list_entry [foo_pe; app_pe] (register_all lonely_regs) 0
                        lonely_loaded = (Raise e, j').
Proof.
  apply (set_link_list_entry_unregistered [foo_pe; app_pe]
           (register_all lonely_regs) 0 lonely_loaded app_pe).
  - rewrite !elem_of_cons. tauto.
  - vm_compute. reflexivity.
Defined.
(* ===================================================================== *)
(** ** Further properties of the context record and of the dispatcher    *)
(* ===================================================================== *)

Import MoreSamples MoreFacts MoreSehFacts.



(** The state in which the guest handler is entered.  From a state in
    which a fault can be dispatched, with the current SEH frame outside
    the area of the context record, [fake_seh_handler] returns the
    handler address of the current SEH frame (its second word); the
    stack pointer is 0x3c8 + 16 below its value at the fault and the
    four words at it are the trampoline address, the address of the
    exception record, the SEH frame that was current and the address
    of the context record; the TIB slot points to a synthetic frame
    whose previous link is the frame that was current; the exception
    counter is one more, both exception flags are cleared and the
    program counter is not touched (the caller jumps). *)
Theorem fake_seh_handler_entry (code : Z) (j : jitter) :
  dispatch_ready j = true ->
  0 <= code < 4294967296 ->
  let base := frame_base j in
  let seh_ptr := load32 (vm j) tib_address in
  seh_ptr + 12 <= base + 0xfc \/ base + 0x1c8 <= seh_ptr ->
  exists j',
    fake_seh_handler code j = (Ok (load32 (vm j) (seh_ptr + 4)), j') /\
    cpu j' ESP = cpu j ESP - 0x3c8 - 16 /\
    map (fun k => read32 (vm j') (cpu j' ESP + k)) [0; 4; 8; 12]
      = [Some return_from_exception; Some (base + 0xe8);
         Some seh_ptr; Some (base + 0xfc)] /\
    read32 (vm j') tib_address = Some (base + 0x14) /\
    read32 (vm j') (base + 0x14) = Some seh_ptr /\
    seh_count j' = seh_count j + 1 /\
    cpu_exception j' = 0 /\ vm_exception j' = 0 /\ pc j' = pc j.
Proof.
  intros Hready Hcode base seh_ptr Hout.
  destruct (fake_seh_handler_run code j Hready Hcode) as [l Hrun].
  destruct (dispatch_ready_spec j Hready)
    as (Hwf & Hbase & Hframe & Htib & Hseh & Hdisj).
  fold base in Hbase, Hframe, Hdisj, Hrun.
  assert (Hhead : load32 (saved_context (cpu j) (vm j) (base + 0xfc))
                         tib_address = seh_ptr)
    by (apply (dispatch_mem_head_saved (cpu j) (vm j)); exact Hdisj).
  rewrite Hhead in Hrun.
  rewrite saved_context_peek in Hrun by (unfold_ctx; lia).
  assert (Heh : dec32 (take 4 (drop 4 (peek (vm j) seh_ptr 12)))
                = load32 (vm j) (seh_ptr + 4)).
  { change 12%nat with (4 + 8)%nat.
    rewrite (drop_peek (vm j) 4 seh_ptr 8). apply load32_peek8. }
  rewrite Heh in Hrun.
  set (dm := dispatch_mem code (cpu j) (vm j)) in *.
  assert (Hsub : forall a n, base - 16 <= a ->
                   a + Z.of_nat n <= base + 0x1c8 ->
                   Mem.is_mapped dm a n = true).
  { intros a n Ha Hn. apply dispatch_mem_mapped.
    eapply is_mapped_sub; [exact Hframe | lia | lia]. }
  assert (E0 : dispatch_cpu (cpu j) ESP = cpu j ESP - 0x3c8 - 16)
    by (apply dispatch_cpu_ESP; assumption).
  eexists. split; [exact Hrun|]. jflat.
  split; [exact E0|]. rewrite E0. fold (frame_base j). fold base.
  split; [|split; [|split]].
  - cbn [map].
    rewrite !read32_mapped by (apply Hsub; lia).
    replace (base - 16 + 0) with (base - 16) by lia.
    replace (base - 16 + 4) with (base - 12) by lia.
    replace (base - 16 + 8) with (base - 8) by lia.
    replace (base - 16 + 12) with (base - 4) by lia.
    subst dm base. unfold frame_base.
    rewrite dispatch_mem_return_address by assumption.
    rewrite dispatch_mem_arg_record by assumption.
    rewrite dispatch_mem_arg_seh by assumption.
    rewrite dispatch_mem_arg_context by assumption.
    reflexivity.
  - rewrite read32_mapped by (apply dispatch_mem_mapped; exact Htib).
    subst dm base. unfold frame_base.
    now rewrite dispatch_mem_tib by assumption.
  - rewrite read32_mapped by (apply Hsub; lia).
    subst dm base. unfold frame_base.
    now rewrite dispatch_mem_fake_prev by assumption.
  - repeat split.
Qed.

Lemma fake_seh_handler_entry_witness :
  let base := frame_base sample_jitter in
  exists j',
    fake_seh_handler EXCEPTION_BREAKPOINT sample_jitter
      = (Ok (load32 (vm sample_jitter) (0x12ffe0 + 4)), j') /\
    cpu j' ESP = cpu sample_jitter ESP - 0x3c8 - 16 /\
    map (fun k => read32 (vm j') (cpu j' ESP + k)) [0; 4; 8; 12]
      = [Some return_from_exception; Some (base + 0xe8);
         Some 0x12ffe0; Some (base + 0xfc)] /\
    read32 (vm j') tib_address = Some (base + 0x14) /\
    read32 (vm j') (base + 0x14) = Some 0x12ffe0 /\
    seh_count j' = seh_count sample_jitter + 1 /\
    cpu_exception j' = 0 /\ vm_exception j' = 0 /\ pc j' = pc sample_jitter.
Proof.
  apply (fake_seh_handler_entry EXCEPTION_BREAKPOINT sample_jitter).
  - vm_compute. reflexivity.
  - unfold EXCEPTION_BREAKPOINT. lia.
  - right. vm_compute. discriminate.
Defined.



(** Resuming takes the registers from the context record as the handler
    left it.  At the trampoline with EAX = 0, the third word on the
    stack pointing to a mapped record that does not hold the TIB slot,
    [return_from_seh] succeeds; every register is the word of its field
    in the record (its low 16 bits for a segment selector), whatever
    the handler wrote there; the program counter is the record's
    instruction pointer; the TIB slot holds the previous link of the
    SEH frame it pointed to, and no other byte of memory changes. *)
Theorem return_from_seh_continue (j : jitter) :
  let ctx := load32 (vm j) (cpu j ESP + 8) in
  let old_seh := load32 (vm j) tib_address in
  cpu j EAX = 0 ->
  Mem.is_mapped (vm j) (cpu j ESP + 8) 4 = true ->
  Mem.is_mapped (vm j) ctx C.sizeof = true ->
  Mem.is_mapped (vm j) tib_address 4 = true ->
  Mem.is_mapped (vm j) old_seh 4 = true ->
  tib_address + 4 <= ctx \/ ctx + 204 <= tib_address ->
  exists j',
    return_from_seh j = (Ok tt, j') /\
    (forall r, cpu j' r = load32 (vm j) (ctx + field_offset r) mod reg_modulus r) /\
    pc j' = load32 (vm j) (ctx + C.eip) /\
    read32 (vm j') tib_address = Some (load32 (vm j) old_seh) /\
    (forall x, x < tib_address \/ tib_address + 4 <= x ->
               vm j' !! x = vm j !! x).
Proof.
  intros ctx old_seh Heax Harg Hctx Htib Hold Hdisj.
  assert (Hctx4 : Mem.is_mapped (vm j) (ctx + 0xc4) 4 = true)
    by (eapply is_mapped_sub; [exact Hctx | lia | unfold_ctx; lia]).
  destruct (return_from_seh_prefix j Harg Hctx4 Htib Hold) as [l Hpre].
  fold ctx old_seh in Hpre.
  set (m2 := store32 (vm j) tib_address (load32 (vm j) old_seh)) in *.
  match type of Hpre with
  | _ = resume_branch _ ?j1 =>
      destruct (resume_branch_continue ctx j1) as [l' Hres];
        [ jflat; rewrite upd_reg_ne by discriminate; exact Heax
        | jflat; apply is_mapped_store32; exact Hctx | ]
  end.
  jflat_in Hres. rewrite Hres in Hpre. clear Hres.
  assert (Hfield : forall r,
            load32 m2 (ctx + field_offset r) = load32 (vm j) (ctx + field_offset r)).
  { intros r. subst m2. apply load32_store32_ne.
    assert (0 <= field_offset r <= 200) by (destruct r; unfold_ctx; lia).
    lia. }
  eexists. split; [exact Hpre|]. jflat.
  split; [|split; [|split]].
  - intros r. now rewrite restored_regs_at, Hfield.
  - rewrite restored_regs_at, (Hfield EIP).
    change (field_offset EIP) with C.eip.
    apply Z.mod_small. apply load32_range.
  - subst m2. rewrite read32_mapped by (apply is_mapped_store32; exact Htib).
    f_equal. apply load32_store32_eq. apply load32_range.
  - intros x Hx. subst m2. now apply lookup_store32_ne.
Qed.

Lemma return_from_seh_continue_witness :
  let j := at_return 0 0x401234 in
  let ctx := load32 (vm j) (cpu j ESP + 8) in
  let old_seh := load32 (vm j) tib_address in
  exists j',
    return_from_seh j = (Ok tt, j') /\
    (forall r, cpu j' r = load32 (vm j) (ctx + field_offset r) mod reg_modulus r) /\
    pc j' = load32 (vm j) (ctx + C.eip) /\
    read32 (vm j') tib_address = Some (load32 (vm j) old_seh) /\
    (forall x, x < tib_address \/ tib_address + 4 <= x ->
               vm j' !! x = vm j !! x).
Proof.
  apply (return_from_seh_continue (at_return 0 0x401234)).
  - vm_compute. reflexivity.
  - vm_compute. reflexivity.
  - vm_compute. reflexivity.
  - vm_compute. reflexivity.
  - vm_compute. reflexivity.
  - right. vm_compute. discriminate.
Defined.

(** The redirected sample resumes at the address that the handler wrote
    into the record. *)
Example redirected_resume :
  pc (snd (return_from_seh (at_return 0 0x401234))) = 0x401234 /\
  pc sample_jitter = 0x401000.
Proof. split; vm_compute; reflexivity. Qed.

(** Every disposition but continue-execution.  At the trampoline with
    a non-zero machine word in EAX, [return_from_seh] makes the same
    changes whatever the word: the stack pointer is the one of the
    context record and the TIB slot holds the previous link of the SEH
    frame it pointed to, while the other registers and the program
    counter are not touched.  Only the word 1 then raises
    NotImplementedError; every other word, 0xFFFFFFFF included, makes
    the function return normally. *)
Theorem return_from_seh_declined (j : jitter) :
  let ctx := load32 (vm j) (cpu j ESP + 8) in
  let old_seh := load32 (vm j) tib_address in
  0 < cpu j EAX ->
  Mem.is_mapped (vm j) (cpu j ESP + 8) 4 = true ->
  Mem.is_mapped (vm j) (ctx + 0xc4) 4 = true ->
  Mem.is_mapped (vm j) tib_address 4 = true ->
  Mem.is_mapped (vm j) old_seh 4 = true ->
  exists l,
    return_from_seh j =
      (if cpu j EAX =? 1
       then Raise (NotImplementedError "-> seh, gameover")
       else Ok tt,
       mkJitter (upd_reg ESP (load32 (vm j) (ctx + 0xc4)) (cpu j))
                (cpu_exception j)
                (store32 (vm j) tib_address (load32 (vm j) old_seh))
                (vm_exception j) (pc j) (seh_count j) l).
Proof.
  intros ctx old_seh Heax Harg Hctx4 Htib Hold.
  destruct (return_from_seh_prefix j Harg Hctx4 Htib Hold) as [l Hpre].
  fold ctx old_seh in Hpre.
  exists l. rewrite Hpre.
  destruct (cpu j EAX =? 1) eqn:H1.
  - apply Z.eqb_eq in H1. apply resume_branch_search. jflat.
    now rewrite upd_reg_ne by discriminate.
  - apply Z.eqb_neq in H1. apply resume_branch_other; jflat;
      rewrite upd_reg_ne by discriminate; lia.
Qed.

Lemma return_from_seh_declined_witness :
  let j := at_return 0xFFFFFFFF 0x401000 in
  let ctx := load32 (vm j) (cpu j ESP + 8) in
  let old_seh := load32 (vm j) tib_address in
  exists l,
    return_from_seh j =
      (if cpu j EAX =? 1
       then Raise (NotImplementedError "-> seh, gameover")
       else Ok tt,
       mkJitter (upd_reg ESP (load32 (vm j) (ctx + 0xc4)) (cpu j))
                (cpu_exception j)
                (store32 (vm j) tib_address (load32 (vm j) old_seh))
                (vm_exception j) (pc j) (seh_count j) l).
Proof.
  apply (return_from_seh_declined (at_return 0xFFFFFFFF 0x401000)).
  - vm_compute. reflexivity.
  - vm_compute. reflexivity.
  - vm_compute. reflexivity.
  - vm_compute. reflexivity.
  - vm_compute. reflexivity.
Defined.

(** [ctxt2regs] only reads memory, and it is not atomic.  Whatever the
    record and the state, and whether it returns or raises, it changes
    nothing but the register file: memory, program counter, log and
    counters are as before.  When the record is mapped up to a field
    that cannot be read, it raises the memory's error at that field
    with the registers of the earlier fields already restored: here the
    four selectors and EDI are those of the record while ESI and the
    registers after it keep their values. *)
Theorem ctxt2regs_reads_only (a : Z) (j : jitter) :
  same_but_cpu j (snd (ctxt2regs a j)) /\
  (Mem.is_mapped (vm j) a 160 = true ->
   Mem.is_mapped (vm j) (a + C.esi) 4 = false ->
   exists c',
     ctxt2regs a j = (Raise RuntimeError, with_cpu c' j) /\
     (forall r, In r [GS; FS; ES; DS; EDI] ->
                c' r = load32 (vm j) (a + field_offset r) mod reg_modulus r) /\
     (forall r, ~ In r [GS; FS; ES; DS; EDI] -> c' r = cpu j r)).
Proof.
  split; [apply same_but_cpu_ctxt2regs|].
  intros Hm Hesi.
  assert (Hf : forall k, 140 <= k <= 156 ->
            Mem.is_mapped (vm j) (a + k) 4 = true)
    by (intros k Hk; eapply is_mapped_sub; [exact Hm | lia | lia]).
  eexists. split.
  - unfold ctxt2regs. cbv zeta.
    rewrite bind_reg_of_field by (apply Hf; unfold_ctx; lia). jflat.
    rewrite bind_reg_of_field by (jflat; apply Hf; unfold_ctx; lia). jflat.
    rewrite bind_reg_of_field by (jflat; apply Hf; unfold_ctx; lia). jflat.
    rewrite bind_reg_of_field by (jflat; apply Hf; unfold_ctx; lia). jflat.
    rewrite bind_reg_of_field by (jflat; apply Hf; unfold_ctx; lia). jflat.
    rewrite reg_of_field_unmapped by (jflat; exact Hesi).
    reflexivity.
  - split.
    + intros r Hr. cbn [In] in Hr.
      destruct Hr as [<-|[<-|[<-|[<-|[<-|[]]]]]];
        repeat (rewrite upd_reg_ne by discriminate);
        apply upd_reg_eq.
    + intros r Hr. cbn [In] in Hr.
      repeat (rewrite upd_reg_ne by tauto). reflexivity.
Qed.

Lemma ctxt2regs_reads_only_witness :
  same_but_cpu sample_jitter (snd (ctxt2regs truncated_record sample_jitter)) /\
  exists c',
    ctxt2regs truncated_record sample_jitter
      = (Raise RuntimeError, with_cpu c' sample_jitter) /\
    (forall r, In r [GS; FS; ES; DS; EDI] ->
               c' r = load32 (vm sample_jitter)
                        (truncated_record + field_offset r)
                      mod reg_modulus r) /\
    (forall r, ~ In r [GS; FS; ES; DS; EDI] -> c' r = cpu sample_jitter r).
Proof.
  destruct (ctxt2regs_reads_only truncated_record sample_jitter) as [H1 H2].
  split; [exact H1|]. apply H2; vm_compute; reflexivity.
Defined.
(* ===================================================================== *)
(** ** Properties of the thread block, of the module entries and of
       init_seh                                                          *)
(* ===================================================================== *)

Import MoreFacts Init InitFacts.





(** The registrations of that dictionary: the base names in lower
    case, and the slot of the unknown module left empty. *)
Example registrations_sample :
  registrations (LDR_AD + modules_list_offset) 1
    [("C:/WINDOWS/system32/NTDLL.DLL"%string, Some ntdll_pe);
     ("unknown.dll"%string, None);
     ("app.exe"%string, Some app_pe)]
  = [("ntdll.dll"%string, ntdll_pe, 0x342f00);
     ("app.exe"%string, app_pe, 0x344f00)].
Proof. vm_compute. reflexivity. Qed.



(* ===================================================================== *)
(** ** Properties of the registry and of its lookups                     *)
(* ===================================================================== *)

Import MoreFacts Init RegistryFacts.

(** What [LoadedModules.add] keeps.  In every registry built by [add],
    in any order and with any repetition of names or modules, the list
    of modules is the sequence of the modules added; a module is in
    that list exactly when it has an entry address, and exactly when
    it has a name; every name leads to a module of the list; and the
    name of every module is itself a registered name. *)
Theorem registry_invariant (regs : list (string * pe * Z)) :
  let R := register_all regs in
  modules R = map reg_module regs /\
  (forall x, x ∈ modules R <-> is_Some (module2entry R !! x)) /\
  (forall x, x ∈ modules R <-> is_Some (module2name R !! x)) /\
  (forall n x, name2module R !! n = Some x -> x ∈ modules R) /\
  (forall x n, module2name R !! x = Some n -> is_Some (name2module R !! n)).
Proof.
  intros R. split; [apply register_all_modules|].
  apply (registry_keeps regs).
Qed.

(** The lookups of the fixups cannot fail.  On every registry built by
    [add], for every name of the main executable and from every state,
    each of the three fixups and [build_ldr_data] either returns or
    raises the error of the memory or of the packing of a word: the
    dictionary lookups [module2entry[...]] and the list indexings of
    [set_link_list_entry] never raise. *)
Theorem fixups_lookup_free
  (regs : list (string * pe * Z)) (name : string) (j : jitter) :
  let R := register_all regs in
  lookup_free (fix_InLoadOrderModuleList name R j) /\
  lookup_free (fix_InMemoryOrderModuleList name R j) /\
  lookup_free (fix_InInitializationOrderModuleList name R j) /\
  lookup_free (build_ldr_data name R j).
Proof.
  intros R. split; [|split; [|split]].
  - apply lookup_free_fix_InLoadOrderModuleList.
  - apply lookup_free_fix_InMemoryOrderModuleList.
  - apply lookup_free_fix_InInitializationOrderModuleList.
  - apply lookup_free_build_ldr_data.
Qed.

(** [init_seh] cannot fail a lookup.  Whatever the dictionary of
    modules (items without image object, repeated names and repeated
    image objects included), the main image, the name of the main
    executable and the state, [init_seh] either returns or raises the
    error of the memory or of the packing of a word; it never raises
    KeyError, IndexError or NotImplementedError. *)
Theorem init_seh_lookup_free
  (items : list (string * option pe)) (main : option pe) (name : string)
  (j : jitter) :
  lookup_free (init_seh items main name j).
Proof.
  unfold init_seh.
  apply lookup_free_bind; [exact I|]. intros _ j1.
  apply lookup_free_bind; [apply lookup_free_build_teb|]. intros _ j2.
  apply lookup_free_bind; [apply lookup_free_build_peb|]. intros _ j3.
  unfold lookup_free.
  eapply outcome_bind; [apply outcome_create_modules_chain|].
  intros R j4 [regs ->].
  apply lookup_free_bind;
    [apply lookup_free_fix_InLoadOrderModuleList|]. intros _ j5.
  apply lookup_free_bind;
    [apply lookup_free_fix_InMemoryOrderModuleList|]. intros _ j6.
  apply lookup_free_bind;
    [apply lookup_free_fix_InInitializationOrderModuleList|]. intros _ j7.
  apply lookup_free_bind; [apply lookup_free_build_ldr_data|]. intros _ j8.
  apply lookup_free_process.
Qed.
